(** * E-mergo App Object Importer: reconciliation and import operations

    Shallow embedding of the decision logic of the extension
    (reconciliation of source items against the current app, the
    importers for script sections, sheets and variables, the cache of
    opened apps and the set-analysis value extraction), with the
    properties stated about them.

    JavaScript strings are modelled as [string]; JSON data received from
    the engine as the tree [json], whose objects keep their keys in
    enumeration order; numbers are restricted to integers. *)

From Stdlib Require Import ZArith Ascii String List Lia Bool.
From Stdlib Require Import DecimalString DecimalNat Finite.
From stdpp Require Import base option list strings gmap.

Import ListNotations.
Local Open Scope string_scope.
Local Open Scope list_scope.

(** ** JavaScript strings *)

Module Js.

(** [s.startsWith(p)] *)
Fixpoint starts_with (p s : string) : bool :=
  match p with
  | EmptyString => true
  | String a p' =>
      match s with
      | EmptyString => false
      | String b s' => if Ascii.eqb a b then starts_with p' s' else false
      end
  end.

(** Worker of [split]: [skip] counts the characters of a separator match
    that are still to be dropped, [cur] is the piece collected so far. *)
Fixpoint split_go (sep : string) (skip : nat) (cur : string) (s : string)
  : list string :=
  match s with
  | EmptyString => [cur]
  | String c s' =>
      match skip with
      | S k => split_go sep k cur s'
      | O =>
          if starts_with sep s
          then cur :: split_go sep (String.length sep - 1) EmptyString s'
          else split_go sep O (cur +:+ String c EmptyString) s'
      end
  end.

(** [s.split(sep)] for a non-empty separator: the pieces between the
    leftmost non-overlapping occurrences of [sep]. *)
Definition split (sep s : string) : list string := split_go sep O EmptyString s.

(** [Boolean(s)] on a string: the empty string is falsy. *)
Definition truthy (s : string) : bool :=
  match s with EmptyString => false | _ => true end.

(** [arr.indexOf(x) !== -1] on an array of strings. *)
Definition includes (x : string) (arr : list string) : bool :=
  existsb (String.eqb x) arr.

(** [a.split(sep)[0]]; [split] never returns an empty array. *)
Definition first_piece (sep a : string) : string :=
  match split sep a with
  | [] => EmptyString
  | x :: _ => x
  end.

(** Decimal rendering of a non-negative integer, as [String(n)] gives. *)
Definition string_of_nat (n : nat) : string :=
  NilEmpty.string_of_uint (Nat.to_uint n).

Definition string_of_Z (z : Z) : string :=
  match z with
  | Z0 => "0"
  | Zpos p => string_of_nat (Pos.to_nat p)
  | Zneg p => "-" +:+ string_of_nat (Pos.to_nat p)
  end.

(** [arr.join(sep)] *)
Fixpoint join (sep : string) (l : list string) : string :=
  match l with
  | [] => EmptyString
  | [x] => x
  | x :: r => x +:+ sep +:+ join sep r
  end.

(** [arr.reduce((a, b) => a.concat(b), "")] *)
Definition concat_all (l : list string) : string :=
  fold_left String.append l EmptyString.

End Js.

(** ** JSON values and JavaScript exceptions *)

(** A synchronous JavaScript computation: a value, or a thrown error. *)
Inductive exn (A : Type) : Type :=
| Val (a : A)
| Throw (e : string).
Arguments Val {A} a.
Arguments Throw {A} e.

Definition exn_bind {A B} (x : exn A) (f : A -> exn B) : exn B :=
  match x with
  | Val a => f a
  | Throw e => Throw e
  end.

#[global] Instance exn_mbind : MBind exn := fun A B f x => exn_bind x f.
#[global] Instance exn_mret : MRet exn := fun A a => Val a.

Definition TypeError : string := "TypeError".

#[warnings="-register-all"]
Inductive json : Type :=
| JNull
| JBool (b : bool)
| JNum (n : Z)
| JStr (s : string)
| JArr (elems : list json)
| JObj (fields : list (string * json)).

(** A JavaScript value read from JSON data: [None] is [undefined]. *)
Definition jsval : Type := option json.

Module Json.

(** Own property lookup in an object's field list. *)
Fixpoint assoc (k : string) (kv : list (string * json)) : jsval :=
  match kv with
  | [] => None
  | (k', v) :: r => if String.eqb k k' then Some v else assoc k r
  end.

(** [v.k]: reading a property of [undefined] or [null] throws; a
    primitive or an array has none of the property names used here. *)
Definition get_prop (v : jsval) (k : string) : exn jsval :=
  match v with
  | None => Throw TypeError
  | Some JNull => Throw TypeError
  | Some (JObj kv) => Val (assoc k kv)
  | Some _ => Val None
  end.

(** [a === b] on values read from two different documents: primitives are
    compared by value, objects and arrays are distinct references. *)
Definition strict_eq (a b : jsval) : bool :=
  match a, b with
  | None, None => true
  | Some JNull, Some JNull => true
  | Some (JBool x), Some (JBool y) => Bool.eqb x y
  | Some (JNum x), Some (JNum y) => Z.eqb x y
  | Some (JStr x), Some (JStr y) => String.eqb x y
  | _, _ => false
  end.

(** [obj.k = v]: overwrite in place, or append a new key. *)
Fixpoint set_field (k : string) (v : json) (kv : list (string * json))
  : list (string * json) :=
  match kv with
  | [] => [(k, v)]
  | (k', v') :: r =>
      if String.eqb k k' then (k, v) :: r else (k', v') :: set_field k v r
  end.

(** [delete obj.k] *)
Definition delete_field (k : string) (kv : list (string * json))
  : list (string * json) :=
  List.filter (fun p => negb (String.eqb k (fst p))) kv.

(** Underscore's [_.omit(obj, keys)]: a copy without the listed keys;
    [undefined] and [null] give the empty object. Only objects and
    absent values are passed to it in the code modelled here. *)
Definition omit (v : jsval) (keys : list string) : json :=
  match v with
  | Some (JObj kv) =>
      JObj (List.filter (fun p => negb (Js.includes (fst p) keys)) kv)
  | _ => JObj []
  end.

Definition hex_digit (n : nat) : ascii :=
  match n with
  | 0 => "0" | 1 => "1" | 2 => "2" | 3 => "3" | 4 => "4" | 5 => "5"
  | 6 => "6" | 7 => "7" | 8 => "8" | 9 => "9" | 10 => "a" | 11 => "b"
  | 12 => "c" | 13 => "d" | 14 => "e" | _ => "f"
  end%char.

Definition dquote : ascii := ascii_of_nat 34.

(** Escape of one character inside a JSON string literal. *)
Definition escape_char (c : ascii) : string :=
  let n := nat_of_ascii c in
  if Nat.eqb n 34 then String "\" (String dquote "")
  else if Nat.eqb n 92 then "\\"
  else if Nat.eqb n 8 then "\b"
  else if Nat.eqb n 12 then "\f"
  else if Nat.eqb n 10 then "\n"
  else if Nat.eqb n 13 then "\r"
  else if Nat.eqb n 9 then "\t"
  else if Nat.ltb n 32
       then "\u00" +:+ String (hex_digit (n / 16)) (String (hex_digit (n mod 16)) "")
       else String c "".

Fixpoint escape (s : string) : string :=
  match s with
  | EmptyString => EmptyString
  | String c r => escape_char c +:+ escape r
  end.

Definition quote (s : string) : string :=
  String dquote (escape s +:+ String dquote "").

(** [JSON.stringify] on a JSON tree. *)
Fixpoint stringify (j : json) : string :=
  match j with
  | JNull => "null"
  | JBool true => "true"
  | JBool false => "false"
  | JNum n => Js.string_of_Z n
  | JStr s => quote s
  | JArr l => "[" +:+ Js.join "," (map stringify l) +:+ "]"
  | JObj kv =>
      "{" +:+ Js.join "," (map (fun p => quote (fst p) +:+ ":" +:+ stringify (snd p)) kv)
          +:+ "}"
  end.

(** [JSON.stringify(v)]; [undefined] is rendered as [undefined], not as
    a string. *)
Definition stringify_val (v : jsval) : option string :=
  match v with
  | None => None
  | Some j => Some (stringify j)
  end.

(** [x !== y] on two results of [JSON.stringify]. *)
Definition differs (x y : option string) : bool :=
  match x, y with
  | None, None => false
  | Some a, Some b => negb (String.eqb a b)
  | _, _ => true
  end.

End Json.

Example stringify_example :
  Json.stringify (JArr [JNum 1; JNull; JBool true; JArr [JNum (-20)]])
  = "[1,null,true,[-20]]".
Proof. reflexivity. Qed.

(** ** Items and their reconciliation against the current app *)

Inductive ItemType : Type :=
| TScript | TSheet | TDimension | TMeasure | TMasterObject
| TAlternateState | TVariable | TBookmark.

(** [item.properties] as the collectors build it: the proxy
    [{tab, qScript}] of a script section, the bare name of an alternate
    state, or the property object the engine gave for any other type. *)
Inductive props_t : Type :=
| ScriptProps (tab qScript : string)
| StateName (name : string)
| ObjectProps (fields : list (string * json)).

Definition props_json (p : props_t) : json :=
  match p with
  | ScriptProps t s => JObj [("tab", JStr t); ("qScript", JStr s)]
  | StateName n => JStr n
  | ObjectProps kv => JObj kv
  end.

(** An item as the collectors hand it over. [code_script_value] is
    [item.code.script.value], present on script items only; [tags] is
    [item.details.tags.value]. *)
Record Item : Type := mkItem {
  id : string;
  type : ItemType;
  label : string;
  properties : props_t;
  searchTerms : option string;
  code_script_value : option string;
  tags : option (list string)
}.

Record Status : Type := mkStatus {
  selected : bool;
  exists_ : bool;
  importable : bool;
  importing : bool;
  imported : bool;
  importFailed : bool;
  updatable : bool;
  updating : bool;
  updated : bool;
  updateFailed : bool
}.

(** An item after [prepareItem]. *)
Record PreparedItem : Type := mkPrepared {
  item : Item;
  updatableTargetId : string;
  status : Status
}.

(** [currAppObjects]: per type, the items of the current app, or nothing
    when that type was not loaded. *)
Definition CurrAppObjects : Type := ItemType -> option (list Item).

Module Underscore.

(** [_.some(list, predicate)]: stops at the first hit. *)
Fixpoint some {A} (p : A -> exn bool) (l : list A) : exn bool :=
  match l with
  | [] => Val false
  | a :: r => b ← p a; if b : bool then Val true else some p r
  end.

(** [_.every(list, predicate)]: stops at the first miss. *)
Fixpoint every {A} (p : A -> exn bool) (l : list A) : exn bool :=
  match l with
  | [] => Val true
  | a :: r => b ← p a; if b : bool then every p r else Val false
  end.

(** [list.filter(predicate)]: visits every element. *)
Fixpoint filter_e {A} (p : A -> exn bool) (l : list A) : exn (list A) :=
  match l with
  | [] => Val []
  | a :: r =>
      b ← p a; rest ← filter_e p r; Val (if b : bool then a :: rest else rest)
  end.

End Underscore.

(** [x && y] with [y] evaluated only when [x] is true. *)
Definition and_then (x y : exn bool) : exn bool :=
  match x with
  | Val true => y
  | other => other
  end.

Infix "&&&" := and_then (at level 40, left associativity).

(** [a.code.script.value] *)
Definition script_value (a : Item) : exn string :=
  match code_script_value a with
  | Some s => Val s
  | None => Throw TypeError
  end.

(** [a.properties.k]: never throws, as [properties] is an object or a
    string. *)
Definition prop (a : Item) (k : string) : jsval :=
  match props_json (properties a) with
  | JObj kv => Json.assoc k kv
  | _ => None
  end.

(** [a.properties.qMetaDef.title] *)
Definition title (a : Item) : exn jsval :=
  Json.get_prop (prop a "qMetaDef") "title".

(** [a.properties.k === item.properties.k] *)
Definition same_prop (k : string) (a item : Item) : bool :=
  Json.strict_eq (prop a k) (prop item k).

(** [a.properties.qMetaDef.title === item.properties.qMetaDef.title] *)
Definition same_title (a item : Item) : exn bool :=
  x ← title a; y ← title item; Val (Json.strict_eq x y).

Definition option_string_eqb (x y : option string) : bool :=
  match x, y with
  | None, None => true
  | Some a, Some b => String.eqb a b
  | _, _ => false
  end.

Definition doesItemExistInCurrentApp (cur : CurrAppObjects) (item : Item)
  : exn bool :=
  match cur (type item) with
  | None => Val false
  | Some objs =>
      match type item with
      | TScript =>
          Underscore.some (fun a =>
            x ← script_value a; y ← script_value item; Val (String.eqb x y)) objs
      | TSheet => Underscore.some (fun a => same_title a item) objs
      | TDimension => Underscore.some (fun a => same_title a item) objs
      | TMeasure => Underscore.some (fun a => same_title a item) objs
      | TMasterObject =>
          Underscore.some (fun a =>
            same_title a item
            &&& Val (same_prop "visualization" a item)
            &&& Val (option_string_eqb (searchTerms a) (searchTerms item))) objs
      | TAlternateState =>
          Underscore.some (fun a => Val (String.eqb (id a) (id item))) objs
      | TVariable =>
          Underscore.some (fun a =>
            Val (same_prop "qName" a item && same_prop "qDefinition" a item)) objs
      | TBookmark => Val false
      end
  end.

Definition isItemImportableInCurrentApp (cur : CurrAppObjects) (item : Item)
  : exn bool :=
  match cur (type item) with
  | None => Val true
  | Some objs =>
      match type item with
      | TAlternateState =>
          Underscore.every (fun a => Val (negb (String.eqb (id a) (id item)))) objs
      | TVariable =>
          Underscore.every (fun a => Val (negb (same_prop "qName" a item))) objs
      | _ => Val true
      end
  end.

(** The sheet comparison key: the properties without [qInfo], every cell
    without its [name]. A missing or non-array [cells] makes [.map] fail. *)
Definition without_cell_names (props : props_t) : exn json :=
  match Json.omit (Some (props_json props)) ["qInfo"] with
  | JObj kv =>
      match Json.assoc "cells" kv with
      | Some (JArr cells) =>
          Val (JObj (Json.set_field "cells"
                 (JArr (map (fun c => Json.omit (Some c) ["name"]) cells)) kv))
      | _ => Throw TypeError
      end
  | _ => Throw TypeError
  end.

(** [JSON.stringify(x) !== JSON.stringify(y)] *)
Definition json_differs (x y : jsval) : bool :=
  Json.differs (Json.stringify_val x) (Json.stringify_val y).

Definition getTargetIdIfItemIsUpdatableInCurrentApp
  (cur : CurrAppObjects) (item : Item) : exn string :=
  targetId ←
    match cur (type item) with
    | None => Val None
    | Some objs =>
        match type item with
        | TScript =>
            l ← Underscore.filter_e (fun a =>
                   Val (String.eqb (label a) (label item))
                   &&& (x ← script_value a; y ← script_value item;
                        Val (negb (String.eqb x y)))) objs;
            Val (Some (map label l))
        | TSheet =>
            _item ← without_cell_names (properties item);
            l ← Underscore.filter_e (fun a =>
                   _a ← without_cell_names (properties a);
                   same_title a item
                   &&& Val (json_differs (Some _a) (Some _item))) objs;
            Val (Some (map id l))
        | TDimension =>
            l ← Underscore.filter_e (fun a =>
                   same_title a item
                   &&& Val (json_differs (prop a "qDim") (prop item "qDim"))) objs;
            Val (Some (map id l))
        | TMeasure =>
            l ← Underscore.filter_e (fun a =>
                   same_title a item
                   &&& Val (json_differs (prop a "qMeasure") (prop item "qMeasure"))) objs;
            Val (Some (map id l))
        | TMasterObject =>
            let _item := Json.omit (Some (props_json (properties item))) ["qInfo"] in
            l ← Underscore.filter_e (fun a =>
                   let _a := Json.omit (Some (props_json (properties a))) ["qInfo"] in
                   same_title a item
                   &&& Val (json_differs (Some _a) (Some _item))) objs;
            Val (Some (map id l))
        | TVariable =>
            let omitted := ["qInfo"; "qMeta"; "qIsScriptCreated"] in
            let _item := Json.omit (Some (props_json (properties item))) omitted in
            l ← Underscore.filter_e (fun a =>
                   let _a := Json.omit (Some (props_json (properties a))) omitted in
                   Val (same_prop "qName" a item)
                   &&& Val (json_differs (Some _a) (Some _item))) objs;
            Val (Some (map id l))
        | _ => Val None
        end
    end;
  Val (match targetId with
       | Some (first :: _) => first
       | _ => EmptyString
       end).

(** [item.searchTerms] after [prepareItem] appended the tags. *)
Definition searchTerms_with_tags (it : Item) : string :=
  let terms := default EmptyString (searchTerms it) in
  match tags it with
  | Some l => terms +:+ Js.join " " l +:+ " "
  | None => terms
  end.

(** [prepareItem], without the formatting of the detail fields for
    display. *)
Definition prepareItem (cur : CurrAppObjects) (it : Item) : exn PreparedItem :=
  targetId ← getTargetIdIfItemIsUpdatableInCurrentApp cur it;
  doesExist ← doesItemExistInCurrentApp cur it;
  isImportable ← isItemImportableInCurrentApp cur it;
  Val {| item := {| id := id it; type := type it; label := label it;
                    properties := properties it;
                    searchTerms := Some (searchTerms_with_tags it);
                    code_script_value := code_script_value it;
                    tags := tags it |};
         updatableTargetId := targetId;
         status := {| selected := false;
                      exists_ := doesExist;
                      importable := isImportable;
                      importing := false;
                      imported := false;
                      importFailed := false;
                      updatable := Js.truthy targetId;
                      updating := false;
                      updated := false;
                      updateFailed := false |} |}.

(** ** Promises and the host engine

    The engine API is external. A call to it is an event [Call]; the
    engine answers it from its own state [World]. An asynchronous
    function is run to its settlement in one go: it maps the state
    before to the outcome of its promise and the state after, where the
    state records every call issued ([log]). *)

Inductive outcome (A : Type) : Type :=
| Resolved (a : A)
| Rejected (reason : string)
| Pending.
Arguments Resolved {A} a.
Arguments Rejected {A} reason.
Arguments Pending {A}.

(** A handle on an engine object is the object's id. *)
Definition handle : Type := string.

Inductive Call : Type :=
| GetScript
| SetScript (script : string)
| OpenApp (appId : option string)
| GetObject (objectId : jsval)
| GetObjectProperties (app : handle) (name : jsval)
| OriginGetFullPropertyTree (app : handle) (objectId : jsval)
| AddAlternateState (qStateName : jsval)
| CreateObject (props : json)
| CreateDimension (props : json)
| CreateMeasure (props : json)
| CreateVariableEx (props : json)
| GetDimension (objectId : jsval)
| GetMeasure (objectId : jsval)
| GetVariableById (objectId : string)
| GetVariableByName (qName : jsval)
| GetProperties (target : handle)
| SetProperties (target : handle) (props : json)
| GetFullPropertyTree (target : handle)
| SetFullPropertyTree (target : handle) (tree : json).

(** What a call resolves with. [GetObjectProperties] gives the pair
    [(propertyTree, properties)], the tree being absent for an object
    without children. *)
Definition Resp (c : Call) : Type :=
  match c with
  | GetScript => string
  | OpenApp _ | GetObject _ | CreateObject _ | GetDimension _ | GetMeasure _
  | GetVariableById _ | GetVariableByName _ => handle
  | GetObjectProperties _ _ => (option json * json)%type
  | OriginGetFullPropertyTree _ _ | GetProperties _ | GetFullPropertyTree _ => json
  | _ => unit
  end.

Class Engine (World : Type) : Type :=
  engine_call : forall c : Call, World -> outcome (Resp c) * World.

Record State (World : Type) : Type := mkState {
  log : list Call;
  world : World
}.
Arguments mkState {World} log world.
Arguments log {World} s.
Arguments world {World} s.

Definition Promise (World A : Type) : Type :=
  State World -> outcome A * State World.

Section Promises.
Context {World : Type} `{Engine World}.

(** Issue an engine call. *)
Definition call (c : Call) : Promise World (Resp c) :=
  fun s =>
    let (r, w) := engine_call c (world s) in
    (r, mkState (log s ++ [c]) w).

(** [$q.resolve(a)] *)
Definition resolve {A} (a : A) : Promise World A := fun s => (Resolved a, s).

(** [$q.reject(reason)] *)
Definition reject {A} (reason : string) : Promise World A :=
  fun s => (Rejected reason, s).

(** [p.then(f)] *)
Definition and_then_p {A B} (p : Promise World A) (f : A -> Promise World B)
  : Promise World B :=
  fun s =>
    match p s with
    | (Resolved a, s') => f a s'
    | (Rejected e, s') => (Rejected e, s')
    | (Pending, s') => (Pending, s')
    end.

(** [p.catch(h)] *)
Definition catch {A} (p : Promise World A) (h : string -> Promise World A)
  : Promise World A :=
  fun s =>
    match p s with
    | (Rejected e, s') => h e s'
    | settled => settled
    end.

(** An exception thrown inside a callback rejects its promise. *)
Definition of_exn {A} (x : exn A) : Promise World A :=
  match x with
  | Val a => resolve a
  | Throw e => reject e
  end.

(** Two promises that were both started: the second runs whatever the
    first does; the pair settles as [$q.all] over them. *)
Definition both {A B} (p : Promise World A) (q : Promise World B)
  : Promise World (A * B) :=
  fun s =>
    let (ra, s1) := p s in
    let (rb, s2) := q s1 in
    (match ra, rb with
     | Resolved a, Resolved b => Resolved (a, b)
     | Rejected e, _ => Rejected e
     | _, Rejected e => Rejected e
     | _, _ => Pending
     end, s2).

End Promises.

#[global] Instance promise_mbind {World} : MBind (Promise World) :=
  fun A B f p => and_then_p p f.
#[global] Instance promise_mret {World} : MRet (Promise World) :=
  fun A a => resolve a.

(** ** Import options *)

(** [options.targetId]: absent, [false], or an id. *)
Inductive target_id : Type :=
| NoTarget
| FalseTarget
| Target (t : string).

(** String conversion of [options.targetId] inside [concat]. *)
Definition render_target (t : target_id) : string :=
  match t with
  | NoTarget => "undefined"
  | FalseTarget => "false"
  | Target s => s
  end.

(** The truthy target, if any. *)
Definition target_given (t : target_id) : option string :=
  match t with
  | Target s => if Js.truthy s then Some s else None
  | _ => None
  end.

(** [sheetsMaxRank] is absent for [undefined] and for [NaN], which the
    importers treat alike. *)
Record Options : Type := mkOptions {
  appId : option string;
  targetId : target_id;
  sheetsMaxRank : option Z;
  sheetObjects : option (list json);
  importAlternateStates : option bool
}.

Definition CRLF : string := String (ascii_of_nat 13) (String (ascii_of_nat 10) "").
Definition TAB_MARKER : string := "///$tab ".

(** ** Importer for script sections *)

Module script.

Record Props : Type := mkProps { tab : string; qScript : string }.

Record Section_ : Type := mkSection { sec_tab : string; section : string }.

(** [data.qScript.split("///$tab ").filter(Boolean)] *)
Definition fragments (qScript : string) : list string :=
  List.filter Js.truthy (Js.split TAB_MARKER qScript).

(** The tab titles of a script. *)
Definition tabs (qScript : string) : list string :=
  map (Js.first_piece CRLF) (fragments qScript).

(** [props.tab.concat(" (".concat(i, ")"))] *)
Definition candidate (base : string) (i : nat) : string :=
  base +:+ " (" +:+ Js.string_of_nat i +:+ ")".

(** The renaming loop, started with [tab = props.tab] and [i = 0]; [fuel]
    bounds the number of tests of the loop condition. *)
Fixpoint rename_loop (fuel : nat) (tabs : list string) (base : string)
  (i : nat) (tab : string) : option string :=
  match fuel with
  | O => None
  | S fuel' =>
      if Js.includes tab tabs
      then rename_loop fuel' tabs base (S i) (candidate base (S i))
      else Some tab
  end.

(** More tests than there are tabs are never needed, see [unique_tab_total]. *)
Definition unique_tab (tabs : list string) (base : string) : option string :=
  rename_loop (S (length tabs)) tabs base 0 base.

Section WithEngine.
Context {World : Type} `{Engine World}.

Definition add (props : Props) : Promise World unit :=
  data ← call GetScript;
  match unique_tab (tabs data) (tab props) with
  | None => fun s => (Pending, s)
  | Some tab' =>
      let section := TAB_MARKER +:+ tab' +:+ CRLF +:+ qScript props in
      call (SetScript (data +:+ section))
  end.

(** [_.findIndex(list, predicate)]; [None] is [-1]. *)
Fixpoint findIndex {A} (p : A -> bool) (l : list A) : option nat :=
  match l with
  | [] => None
  | a :: r => if p a then Some 0 else S <$> findIndex p r
  end.

Definition sections (qScript : string) : list Section_ :=
  map (fun a => {| sec_tab := Js.first_piece CRLF a;
                   section := TAB_MARKER +:+ a |}) (fragments qScript).

(** [a.tab === options.targetId] *)
Definition is_target (t : target_id) (a : Section_) : bool :=
  match t with
  | Target s => String.eqb (sec_tab a) s
  | _ => false
  end.

Definition update (props : Props) (options : Options) : Promise World unit :=
  data ← call GetScript;
  let secs := sections data in
  match findIndex (is_target (targetId options)) secs with
  | Some target =>
      let secs' :=
        alter (fun a => {| sec_tab := sec_tab a;
                           section := TAB_MARKER +:+ render_target (targetId options)
                                      +:+ CRLF +:+ qScript props |}) target secs in
      call (SetScript (Js.concat_all (map section secs')))
  | None =>
      reject ("Script section not updated: could not find section with title '"
              +:+ render_target (targetId options) +:+ "'")
  end.

End WithEngine.
End script.

(** ** Publish metadata *)

Definition PUBLISH_META_FIELDS : list string :=
  ["createdDate"; "modifiedDate"; "published"; "publishTime"; "approved";
   "owner"; "sourceObject"; "draftObject"; "privileges"].

(** [sanitizeObjectData], on the fields of [qData]. *)
Definition sanitizeObjectData (qData : list (string * json)) : json :=
  let qData' :=
    Json.set_field "qMetaDef"
      (Json.omit (Json.assoc "qMetaDef" qData) PUBLISH_META_FIELDS) qData in
  Json.omit (Some (JObj qData')) ["qMeta"].

(** JavaScript truthiness of a value read from JSON data. *)
Definition truthy_val (v : jsval) : bool :=
  match v with
  | None | Some JNull => false
  | Some (JBool b) => b
  | Some (JNum n) => negb (Z.eqb n 0)
  | Some (JStr s) => Js.truthy s
  | Some _ => true
  end.

(** [obj.k = v] where [v] may be [undefined]: an undefined property is
    not part of what the engine receives. *)
Definition assign (k : string) (v : jsval) (kv : list (string * json))
  : list (string * json) :=
  match v with
  | Some j => Json.set_field k j kv
  | None => Json.delete_field k kv
  end.

(** [options.targetId || props.qInfo.qId]; reading [qId] of a missing
    [qInfo] throws. *)
Definition target_or_own_id (options : Options) (props : list (string * json))
  : exn jsval :=
  match target_given (targetId options) with
  | Some t => Val (Some (JStr t))
  | None => Json.get_prop (Json.assoc "qInfo" props) "qId"
  end.

(** ** Importers for alternate states, master dimensions and measures *)

Module alternateState.
Section WithEngine.
Context {World : Type} `{Engine World}.

Definition add (qStateName : jsval) : Promise World unit :=
  call (AddAlternateState qStateName).

Definition update (qStateName : jsval) : Promise World unit := add qStateName.

End WithEngine.
End alternateState.

Module dimension.
Section WithEngine.
Context {World : Type} `{Engine World}.

Definition add (props : list (string * json)) : Promise World unit :=
  _ ← call (CreateDimension (JObj props)); resolve tt.

Definition update (props : list (string * json)) (options : Options)
  : exn (Promise World unit) :=
  objectId ← target_or_own_id options props;
  Val (targetObject ← call (GetDimension objectId);
       call (SetProperties targetObject (JObj props))).

End WithEngine.
End dimension.

Module measure.
Section WithEngine.
Context {World : Type} `{Engine World}.

Definition add (props : list (string * json)) : Promise World unit :=
  _ ← call (CreateMeasure (JObj props)); resolve tt.

Definition update (props : list (string * json)) (options : Options)
  : exn (Promise World unit) :=
  objectId ← target_or_own_id options props;
  Val (targetObject ← call (GetMeasure objectId);
       call (SetProperties targetObject (JObj props))).

End WithEngine.
End measure.

(** ** Importer for master objects *)

Module masterObject.
Section WithEngine.
Context {World : Type} `{Engine World}.

Definition add (props : list (string * json)) : Promise World unit :=
  _ ← call (CreateObject (JObj props)); resolve tt.

(** [propertyTree.qProperty.qInfo.qId = options.targetId] *)
Definition keep_target_id (t : target_id) (propertyTree : json) : exn json :=
  let qId := match t with
             | NoTarget => None
             | FalseTarget => Some (JBool false)
             | Target s => Some (JStr s)
             end in
  match propertyTree with
  | JObj tree =>
      match Json.assoc "qProperty" tree with
      | Some (JObj qProperty) =>
          match Json.assoc "qInfo" qProperty with
          | Some (JObj qInfo) =>
              Val (JObj (Json.set_field "qProperty"
                     (JObj (Json.set_field "qInfo" (JObj (assign "qId" qId qInfo))
                              qProperty)) tree))
          | Some JNull | None => Throw TypeError
          | Some _ => Val propertyTree
          end
      | _ => Throw TypeError
      end
  | _ => Throw TypeError
  end.

Definition update (props : list (string * json)) (options : Options)
  : exn (Promise World unit) :=
  objectId ← target_or_own_id options props;
  Val (targetObject ← call (GetObject objectId);
       originApp ← call (OpenApp (appId options));
       ownId ← of_exn (Json.get_prop (Json.assoc "qInfo" props) "qId");
       propertyTree ← call (OriginGetFullPropertyTree originApp ownId);
       propertyTree' ← of_exn (keep_target_id (targetId options) propertyTree);
       call (SetFullPropertyTree targetObject propertyTree')).

End WithEngine.
End masterObject.

(** ** Importer for variables *)

Module variable.
Section WithEngine.
Context {World : Type} `{Engine World}.

Definition add (props : list (string * json)) : Promise World unit :=
  let props' := Json.delete_field "qIsScriptCreated" props in
  call (CreateVariableEx (sanitizeObjectData props')).

(** The incoming properties with the target's id and script flag:
    [props.qInfo.qId = target.qInfo.qId] and
    [props.qIsScriptCreated = !! target.qIsScriptCreated]. *)
Definition inherit (props : list (string * json)) (targetProps : json)
  : exn (list (string * json)) :=
  targetInfo ← Json.get_prop (Some targetProps) "qInfo";
  targetQId ← Json.get_prop targetInfo "qId";
  flag ← Json.get_prop (Some targetProps) "qIsScriptCreated";
  match Json.assoc "qInfo" props with
  | Some (JObj qInfo) =>
      Val (Json.set_field "qIsScriptCreated" (JBool (truthy_val flag))
             (Json.set_field "qInfo" (JObj (assign "qId" targetQId qInfo)) props))
  | Some JNull | None => Throw TypeError
  | Some _ => Val (Json.set_field "qIsScriptCreated" (JBool (truthy_val flag)) props)
  end.

(** The [catch] handler of [update] receives [props] as they are when
    the failure happens: changed by [inherit] only when the failure is
    that of [setProperties]. *)
Definition update (props : list (string * json)) (options : Options)
  : Promise World unit :=
  let getVariable :=
    match target_given (targetId options) with
    | Some t => call (GetVariableById t)
    | None => call (GetVariableByName (Json.assoc "qName" props))
    end in
  fun s =>
    match getVariable s with
    | (Resolved targetObject, s1) =>
        match call (GetProperties targetObject) s1 with
        | (Resolved targetProps, s2) =>
            match inherit props targetProps with
            | Val props' =>
                catch (call (SetProperties targetObject (JObj props')))
                      (fun _ => add props') s2
            | Throw _ => add props s2
            end
        | (Rejected _, s2) => add props s2
        | (Pending, s2) => (Pending, s2)
        end
    | (Rejected _, s1) => add props s1
    | (Pending, s1) => (Pending, s1)
    end.

End WithEngine.
End variable.

(** ** Importer for sheets *)

Module sheet.
Section WithEngine.
Context {World : Type} `{Engine World}.

(** [a.propertyTree || { qChildren: [], qProperty: a.properties }] *)
Definition tree_of (a : option json * json) : json :=
  match a with
  | (Some propertyTree, _) => propertyTree
  | (None, props) => JObj [("qChildren", JArr []); ("qProperty", props)]
  end.

(** The chain built by [props.cells.reduce]: one [getObjectProperties]
    after the other, each result pushed to [options.sheetObjects]. *)
Definition load_cells (app : handle) (cells : list json) : Promise World (list json) :=
  fold_left (fun promise cell =>
               loaded ← promise;
               name ← of_exn (Json.get_prop (Some cell) "name");
               a ← call (GetObjectProperties app name);
               resolve (loaded ++ [tree_of a]))
            cells (resolve []).

(** [$q.all] over results that have all been started: of several
    failures it gives the first, that of the call issued first. *)
Definition all3 {A B C} (a : outcome A) (b : outcome B) (c : outcome C)
  : outcome (A * B * C) :=
  match a, b, c with
  | Resolved x, Resolved y, Resolved z => Resolved (x, y, z)
  | Rejected e, _, _ => Rejected e
  | _, Rejected e, _ => Rejected e
  | _, _, Rejected e => Rejected e
  | _, _, _ => Pending
  end.

(** [props.rank = options.sheetsMaxRank + 1] under [if (options.sheetsMaxRank)].
    Ranks are integers here; the addition of the code, on doubles, gives
    the same for a rank below [2 ^ 53] in size. *)
Definition push_rank (options : Options) (props : list (string * json))
  : list (string * json) :=
  match sheetsMaxRank options with
  | Some m => if Z.eqb m 0 then props else Json.set_field "rank" (JNum (m + 1)) props
  | None => props
  end.

(** [propertyTree.qChildren = options.sheetObjects] *)
Definition with_children (propertyTree : json) (sheetObjects : option (list json))
  : exn json :=
  match propertyTree with
  | JObj tree => Val (JObj (assign "qChildren" (JArr <$> sheetObjects) tree))
  | JNull => Throw TypeError
  | other => Val other
  end.

(** The callback of [$q.all(requirements).then]: the returned promise is
    resolved by [setFullPropertyTree] only; a failure on the way leaves
    it unsettled. *)
Definition write (props : list (string * json)) (options : Options)
  (targetObject : option handle) (sheetObjects : option (list json))
  : Promise World unit :=
  fun s =>
    let (newSheetObject, s1) :=
      match targetObject with
      | Some t => (_ ← call (SetProperties t (JObj props)); resolve t) s
      | None => call (CreateObject (JObj (push_rank options props))) s
      end in
    match newSheetObject with
    | Resolved sheet =>
        match call (GetFullPropertyTree sheet) s1 with
        | (Resolved propertyTree, s2) =>
            match with_children propertyTree sheetObjects with
            | Val tree =>
                match call (SetFullPropertyTree sheet tree) s2 with
                | (Resolved _, s3) => (Resolved tt, s3)
                | (_, s3) => (Pending, s3)
                end
            | Throw _ => (Pending, s2)
            end
        | (_, s2) => (Pending, s2)
        end
    | _ => (Pending, s1)
    end.

(** The requirements and what [$q.all] makes of them: the target object
    and the objects of the cells. Each call is logged when it is issued
    and runs to its end before the next. The calls are issued in the
    order of the source: [getObject], [openApp], then [addAlternateState],
    and only then the requests for the objects of the cells, which are
    made by the callbacks of the chain, after the function has gone on.
    When [openApp] fails or [props.cells] cannot be reduced, the function
    ends there, rejected. *)
Definition requirements (props : list (string * json)) (options : Options)
  : Promise World (option handle * option (list json)) :=
  fun s =>
    let target := target_given (targetId options) in
    let (rTarget, s1) :=
      match target with
      | Some t => call (GetObject (Some (JStr t))) s
      | None => (Resolved EmptyString, s)
      end in
    let started (load : Promise World (option (list json))) (s2 : State World)
        : outcome (option handle * option (list json)) * State World :=
      let (rStates, s3) :=
        if default true (importAlternateStates options)
        then alternateState.add (Json.assoc "qStateName" props) s2
        else (Resolved tt, s2) in
      let (rObjects, s4) := load s3 in
      (match all3 rTarget rStates rObjects with
       | Resolved (t, _, objects) => Resolved (_ ← target; Some t, objects)
       | Rejected e => Rejected e
       | Pending => Pending
       end, s4) in
    match sheetObjects options, appId options with
    | None, Some app =>
        if Js.truthy app then
          match call (OpenApp (Some app)) s1 with
          | (Resolved appToImportFrom, s2) =>
              match Json.assoc "cells" props with
              | Some (JArr cells) =>
                  started (l ← load_cells appToImportFrom cells; resolve (Some l)) s2
              | _ => (Rejected TypeError, s2)
              end
          | (Rejected e, s2) => (Rejected e, s2)
          | (Pending, s2) => (Pending, s2)
          end
        else started (resolve None) s1
    | given, _ => started (resolve given) s1
    end.

(** [$q.all(requirements).then(...)] *)
Definition add (props : list (string * json)) (options : Options)
  : Promise World unit :=
  fun s =>
    match requirements props options s with
    | (Resolved (targetObject, objects), s') =>
        write props options targetObject objects s'
    | (Rejected e, s') => (Rejected e, s')
    | (Pending, s') => (Pending, s')
    end.

Definition update (props : list (string * json)) (options : Options)
  : Promise World unit :=
  match target_given (targetId options) with
  | Some _ => add props options
  | None => reject "Sheet not updated: missing id of the target sheet"
  end.

End WithEngine.
End sheet.

(** ** Running an import or an update of one item *)

(** [Number(v)] for a rank read from sheet properties; [None] is [NaN].
    Ranks given as strings or objects are not modelled and count as [NaN]. *)
Definition to_number (v : jsval) : option Z :=
  match v with
  | Some (JNum n) => Some n
  | Some JNull => Some 0%Z
  | Some (JBool b) => Some (if b then 1%Z else 0%Z)
  | _ => None
  end.

(** [Math.max(a, b)] *)
Definition math_max (a b : option Z) : option Z :=
  match a, b with
  | Some x, Some y => Some (Z.max x y)
  | _, _ => None
  end.

(** [currAppObjects.sheet.reduce((a, b) => Math.max(a, b.properties.rank), 0)] *)
Definition currentSheetsMaxRank (cur : CurrAppObjects) : exn (option Z) :=
  match cur TSheet with
  | None => Throw TypeError
  | Some sheets =>
      Val (fold_left (fun a b => math_max a (to_number (prop b "rank")))
             sheets (Some 0%Z))
  end.

(** How a call of [importItem] or [updateItem] ends: with its promise in
    some state, or with an exception thrown before there is a promise.
    The importers change the properties they are given in place (the
    rank of a sheet, the script flag and [qMetaDef] of a variable); what
    the engine receives is modelled, the item keeps the properties it
    had. *)
Inductive completion : Type :=
| Returned (o : outcome unit)
| Threw (e : string).

Record Run (World : Type) : Type := mkRun {
  completed : completion;
  item_after : PreparedItem;
  state_after : State World
}.
Arguments mkRun {World} completed item_after state_after.
Arguments completed {World} r.
Arguments item_after {World} r.
Arguments state_after {World} r.

Definition with_status (it : PreparedItem) (st : Status) : PreparedItem :=
  {| item := item it; updatableTargetId := updatableTargetId it; status := st |}.

Definition mark_importing (b : bool) (st : Status) : Status :=
  mkStatus (selected st) (exists_ st) (importable st) b (imported st)
           (importFailed st) (updatable st) (updating st) (updated st)
           (updateFailed st).

Definition mark_imported (st : Status) : Status :=
  mkStatus (selected st) true (importable st) false true
           (importFailed st) (updatable st) (updating st) (updated st)
           (updateFailed st).

Definition mark_importFailed (st : Status) : Status :=
  mkStatus (selected st) (exists_ st) (importable st) false (imported st)
           true (updatable st) (updating st) (updated st) (updateFailed st).

Definition mark_updating (b : bool) (st : Status) : Status :=
  mkStatus (selected st) (exists_ st) (importable st) (importing st)
           (imported st) (importFailed st) (updatable st) b (updated st)
           (updateFailed st).

Definition mark_updated (st : Status) : Status :=
  mkStatus (selected st) true (importable st) (importing st)
           (imported st) (importFailed st) false false true
           (updateFailed st).

Definition mark_updateFailed (st : Status) : Status :=
  mkStatus (selected st) (exists_ st) (importable st) (importing st)
           (imported st) (importFailed st) (updatable st) false (updated st)
           true.

Definition type_name (t : ItemType) : string :=
  match t with
  | TScript => "script"
  | TSheet => "sheet"
  | TDimension => "dimension"
  | TMeasure => "measure"
  | TMasterObject => "masterObject"
  | TAlternateState => "alternate-state"
  | TVariable => "variable"
  | TBookmark => "bookmark"
  end.

(** The fields an object importer reads from [item.properties]. *)
Definition fields_of (p : props_t) : option (list (string * json)) :=
  match p with
  | ObjectProps kv => Some kv
  | ScriptProps t q => Some [("tab", JStr t); ("qScript", JStr q)]
  | StateName _ => None
  end.

(** The [tab] and [qScript] the script importer reads from [item.properties]. *)
Definition script_props_of (p : props_t) : option script.Props :=
  match p with
  | ScriptProps t q => Some (script.mkProps t q)
  | ObjectProps kv =>
      match Json.assoc "tab" kv, Json.assoc "qScript" kv with
      | Some (JStr t), Some (JStr q) => Some (script.mkProps t q)
      | _, _ => None
      end
  | StateName _ => None
  end.

Section Executor.
Context {World : Type} `{Engine World}.

(** [importSingleItem]; [importer] is what calling the callback gives. *)
Definition importSingleItem (it : PreparedItem) (importer : exn (Promise World unit))
  (s : State World) : Run World :=
  let st := status it in
  if negb (imported st) && negb (importFailed st) && importable st then
    let st1 := mark_importing true st in
    match importer with
    | Throw e => mkRun (Threw e) (with_status it st1) s
    | Val p =>
        match p s with
        | (Resolved _, s') =>
            mkRun (Returned (Resolved tt)) (with_status it (mark_imported st1)) s'
        | (Rejected _, s') =>
            mkRun (Returned (Resolved tt)) (with_status it (mark_importFailed st1)) s'
        | (Pending, s') => mkRun (Returned Pending) (with_status it st1) s'
        end
    end
  else mkRun (Returned (Resolved tt)) it s.

(** [updateSingleItem] *)
Definition updateSingleItem (it : PreparedItem) (updater : exn (Promise World unit))
  (s : State World) : Run World :=
  let st := status it in
  if negb (updated st) && negb (updateFailed st) && updatable st then
    let st1 := mark_updating true st in
    match updater with
    | Throw e => mkRun (Threw e) (with_status it st1) s
    | Val p =>
        match p s with
        | (Resolved _, s') =>
            mkRun (Returned (Resolved tt)) (with_status it (mark_updated st1)) s'
        | (Rejected _, s') =>
            mkRun (Returned (Resolved tt)) (with_status it (mark_updateFailed st1)) s'
        | (Pending, s') => mkRun (Returned Pending) (with_status it st1) s'
        end
    end
  else mkRun (Returned (Resolved tt)) it s.

(** [importers[type].add(properties, options)]. Properties of a shape
    the importer of the type cannot read are outside the model: the call
    is made to throw. *)
Definition importer_add (t : ItemType) (p : props_t) (options : Options)
  : exn (Promise World unit) :=
  match t with
  | TScript =>
      match script_props_of p with
      | Some sp => Val (script.add sp)
      | None => Throw TypeError
      end
  | TAlternateState => Val (alternateState.add (Some (props_json p)))
  | TBookmark =>
      Val (reject ("No importer found for item of type '" +:+ type_name t +:+ "'"))
  | _ =>
      match fields_of p with
      | Some kv =>
          Val (match t with
               | TSheet => sheet.add kv options
               | TDimension => dimension.add kv
               | TMeasure => measure.add kv
               | TMasterObject => masterObject.add kv
               | _ => variable.add kv
               end)
      | None => Throw TypeError
      end
  end.

(** [importers[type].update(properties, options)] *)
Definition importer_update (t : ItemType) (p : props_t) (options : Options)
  : exn (Promise World unit) :=
  match t with
  | TScript =>
      match script_props_of p with
      | Some sp => Val (script.update sp options)
      | None => Throw TypeError
      end
  | TAlternateState => Val (alternateState.update (Some (props_json p)))
  | TBookmark =>
      Val (reject ("No updater found for item of type '" +:+ type_name t +:+ "'"))
  | _ =>
      match fields_of p with
      | Some kv =>
          match t with
          | TSheet => Val (sheet.update kv options)
          | TDimension => dimension.update kv options
          | TMeasure => measure.update kv options
          | TMasterObject => masterObject.update kv options
          | _ => Val (variable.update kv options)
          end
      | None => Throw TypeError
      end
  end.

(** [$scope.importItem]; [appDataId] is the id of the app imported from. *)
Definition importItem (cur : CurrAppObjects) (appDataId : string)
  (it : PreparedItem) : State World -> Run World :=
  importSingleItem it
    (match type (item it) with
     | TBookmark => importer_add TBookmark (properties (item it))
                      (mkOptions None NoTarget None None None)
     | t =>
         maxRank ← currentSheetsMaxRank cur;
         importer_add t (properties (item it))
           {| appId := Some appDataId; targetId := NoTarget;
              sheetsMaxRank := maxRank; sheetObjects := None;
              importAlternateStates := None |}
     end).

(** [$scope.updateItem] *)
Definition updateItem (appDataId : string) (it : PreparedItem)
  : State World -> Run World :=
  updateSingleItem it
    (importer_update (type (item it)) (properties (item it))
       {| appId := Some appDataId;
          targetId := if Js.truthy (updatableTargetId it)
                      then Target (updatableTargetId it) else FalseTarget;
          sheetsMaxRank := None; sheetObjects := None;
          importAlternateStates := None |}).

End Executor.

(** ** The cache of opened apps

    [openApp] returns a promise object; which object it returns matters,
    so promises are references into a heap here, and the settlement of a
    pending promise is a step of its own. The cache [_apps] is a plain
    object that is read with [_apps.hasOwnProperty]; [apps] holds its own
    properties. Two names are no keys like the others: an assignment to
    [__proto__] sets the prototype of [_apps] and adds no own property,
    and an own property [hasOwnProperty] hides the method, so that every
    later test throws. *)

Module AppCache.

(** An app object, identified by its [id]. *)
Record App : Type := mkApp { app_id : string }.

(** The argument of [openApp]: nothing (or any other falsy value), an
    app identifier, or an app object. *)
Inductive arg : Type :=
| Missing
| AppId (appId : string)
| AppObject (app : App).

(** A pending promise of the cache waits for the app it will give. *)
Inductive promise_state : Type :=
| PPending (app : App)
| PResolved (app : App)
| PRejected (reason : string).

Definition ref : Type := nat.

(** The own properties of [_apps], the promises made so far, and the
    calls of [qlik.openApp]. *)
Record Cache : Type := mkCache {
  apps : gmap string ref;
  heap : list promise_state;
  opened : list string
}.

Definition empty : Cache := mkCache ∅ [] [].

Definition alloc (p : promise_state) (c : Cache) : ref * Cache :=
  (length (heap c), mkCache (apps c) (heap c ++ [p]) (opened c)).

(** The property key an argument is turned into. *)
Definition key_of (a : arg) : string :=
  match a with
  | AppId s => s
  | _ => "[object Object]"
  end.

(** [_apps[k] = promise]: a new own property, but for [__proto__], which
    makes the promise the prototype of [_apps]. *)
Definition store (k : string) (r : ref) (m : gmap string ref) : gmap string ref :=
  if String.eqb k "__proto__" then m else <[k := r]> m.

(** Whether [_apps.hasOwnProperty] is no more the method: an own
    property of that name, a promise, hides it. *)
Definition hidden (m : gmap string ref) : bool :=
  match m !! "hasOwnProperty" with
  | Some _ => true
  | None => false
  end.

Section WithCurrentApp.
Variable currApp : App.

(** [if (! _apps.hasOwnProperty(currApp.id)) _apps[currApp.id] = $q.resolve(currApp)] *)
Definition set_current_app (c : Cache) : exn unit * Cache :=
  if hidden (apps c) then (Throw TypeError, c)
  else
    match apps c !! app_id currApp with
    | Some _ => (Val tt, c)
    | None =>
        let (r, c') := alloc (PResolved currApp) c in
        (Val tt, mkCache (store (app_id currApp) r (apps c')) (heap c') (opened c'))
    end.

(** [if (! _apps.hasOwnProperty(appId))]: [qlik.openApp(appId, ...)]
    followed by the promise that waits for the app to be opened; then
    [return _apps[appId]], which for [__proto__] is the prototype that
    was just set. *)
Definition load_app (k : string) (c : Cache) : exn ref * Cache :=
  if hidden (apps c) then (Throw TypeError, c)
  else
    match apps c !! k with
    | Some r => (Val r, c)
    | None =>
        let (r, c') := alloc (PPending (mkApp k)) c in
        (Val r, mkCache (store k r (apps c')) (heap c') (opened c' ++ [k]))
    end.

(** The part of [openApp] that goes through the cache. *)
Definition cached (k : string) (c : Cache) : exn ref * Cache :=
  match set_current_app c with
  | (Val _, c') => load_app k c'
  | (Throw e, c') => (Throw e, c')
  end.

Definition openApp (a : arg) (c : Cache) : exn ref * Cache :=
  let falsy := match a with
               | Missing => true
               | AppId s => negb (Js.truthy s)
               | AppObject _ => false
               end in
  if falsy then
    let (r, c') := alloc (PRejected ("App with id '" +:+
                     match a with AppId s => s | _ => "undefined" end
                     +:+ "' not found")) c in
    (Val r, c')
  else
    match a with
    | AppObject app =>
        if Js.truthy (app_id app)
        then let (r, c') := alloc (PResolved app) c in (Val r, c')
        else cached (key_of a) c
    | _ => cached (key_of a) c
    end.

(** What can happen between two calls: a pending promise settles, or
    [openApp] is called with some argument. *)
Inductive step : Cache -> Cache -> Prop :=
| step_resolve (c : Cache) (r : ref) (app : App) :
    heap c !! r = Some (PPending app) ->
    step c (mkCache (apps c) (<[r := PResolved app]> (heap c)) (opened c))
| step_reject (c : Cache) (r : ref) (app : App) (reason : string) :
    heap c !! r = Some (PPending app) ->
    step c (mkCache (apps c) (<[r := PRejected reason]> (heap c)) (opened c))
| step_open (c : Cache) (a : arg) :
    step c (snd (openApp a c)).

Inductive steps : Cache -> Cache -> Prop :=
| steps_refl (c : Cache) : steps c c
| steps_cons (c1 c2 c3 : Cache) : step c1 c2 -> steps c2 c3 -> steps c1 c3.

End WithCurrentApp.
End AppCache.

(** ** Values of a field in a set expression *)

Module SetAnalysis.

(** The regular expressions needed here. [Group n r] is the capturing
    group number [n]; [AnyChar] is [.], any character but a line end. *)
Inductive regex : Type :=
| Lit (s : string)
| Alt (r1 r2 : regex)
| Seq (r1 r2 : regex)
| PlusNot (c : ascii)
| Group (n : nat) (r : regex)
| AnyChar.

Definition is_line_end (c : ascii) : bool :=
  Ascii.eqb c (ascii_of_nat 10) || Ascii.eqb c (ascii_of_nat 13).

(** [s] without its first [n] characters. *)
Fixpoint drop_chars (n : nat) (s : string) : string :=
  match n, s with
  | O, _ => s
  | S n', String _ s' => drop_chars n' s'
  | S _, EmptyString => EmptyString
  end.

(** The first [n] characters of [s]. *)
Fixpoint take_chars (n : nat) (s : string) : string :=
  match n, s with
  | O, _ => EmptyString
  | S n', String c s' => String c (take_chars n' s')
  | S _, EmptyString => EmptyString
  end.

(** What was read between the input [s] and the rest [s']. *)
Definition consumed (s s' : string) : string :=
  take_chars (String.length s - String.length s') s.

Section Matcher.
Context {R : Type}.

(** [[^c]+], greedy: one character, then as many more as the rest of
    the match allows. *)
Fixpoint plus_not (c : ascii) (s : string) (k : string -> option R) : option R :=
  match s with
  | EmptyString => None
  | String a s' =>
      if Ascii.eqb a c then None
      else match plus_not c s' k with
           | Some r => Some r
           | None => k s'
           end
  end.

(** Backtracking match of [r] at the start of [s]; [k] continues with
    the rest of the input and the captures. *)
Fixpoint match_re (r : regex) (s : string) (caps : list (option string))
  (k : string -> list (option string) -> option R) : option R :=
  match r with
  | Lit l =>
      if Js.starts_with l s then k (drop_chars (String.length l) s) caps else None
  | Alt r1 r2 =>
      match match_re r1 s caps k with
      | Some x => Some x
      | None => match_re r2 s caps k
      end
  | Seq r1 r2 => match_re r1 s caps (fun s' caps' => match_re r2 s' caps' k)
  | PlusNot c => plus_not c s (fun s' => k s' caps)
  | Group n r1 =>
      match_re r1 s caps (fun s' caps' => k s' (<[n := Some (consumed s s')]> caps'))
  | AnyChar =>
      match s with
      | EmptyString => None
      | String a s' => if is_line_end a then None else k s' caps
      end
  end.

End Matcher.

(** [s.match(r)] without the [g] flag: the leftmost match, as the array
    of the whole match and the [groups] captures; [None] is [null]. *)
Fixpoint js_match (groups : nat) (r : regex) (s : string)
  : option (list (option string)) :=
  match match_re r s (replicate (S groups) None)
          (fun s' caps => Some (<[0 := Some (consumed s s')]> caps)) with
  | Some m => Some m
  | None =>
      match s with
      | EmptyString => None
      | String _ s' => js_match groups r s'
      end
  end.

(** The field name as the regular expression reads it, the name being
    put into the source of the expression as it is: a [.] of the name
    stands for any character but a line end, a character without a
    meaning of its own for itself. The model goes no further: any other
    character with a meaning of its own is read as itself, which is not
    what the code does with it. *)
Fixpoint name_regex (fieldName : string) : regex :=
  match fieldName with
  | EmptyString => Lit EmptyString
  | String c rest =>
      Seq (if Ascii.eqb c "." then AnyChar else Lit (String c EmptyString))
          (name_regex rest)
  end.

(** [new RegExp('(<|,)'.concat(fieldName, '={([^}]+)(}>|},)'))] *)
Definition pattern (fieldName : string) : regex :=
  Seq (Group 1 (Alt (Lit "<") (Lit ",")))
      (Seq (name_regex fieldName)
           (Seq (Lit "={")
                (Seq (Group 2 (PlusNot "}"))
                     (Group 3 (Alt (Lit "}>") (Lit "},")))))).

(** The characters with a meaning of their own in a regular expression. *)
Definition is_meta (c : ascii) : bool :=
  existsb (Ascii.eqb c)
    (list_ascii_of_string "\^$.|?*+()[]{}/").

(** A name that is plain text to the regular expression. *)
Fixpoint plain (s : string) : bool :=
  match s with
  | EmptyString => true
  | String c s' => negb (is_meta c) && plain s'
  end.

(** [inner] when the string is [inner] followed by a single quote and
    [inner] has no line end. *)
Fixpoint before_last_quote (s : string) : option string :=
  match s with
  | EmptyString => None
  | String c EmptyString => if Ascii.eqb c "'" then Some EmptyString else None
  | String c s' =>
      if is_line_end c then None
      else String c <$> before_last_quote s'
  end.

(** The [replace] that removes surrounding single quotes: a string that
    starts and ends with a quote and has no line end in between loses
    both quotes; any other string is kept. *)
Definition strip_quotes (a : string) : string :=
  match a with
  | String c rest =>
      if Ascii.eqb c "'"
      then match before_last_quote rest with
           | Some inner => inner
           | None => a
           end
      else a
  | EmptyString => a
  end.

Definition getValuesFromSetAnalysis (set fieldName : string) : exn (list string) :=
  match js_match 3 (pattern fieldName) set with
  | None => Throw TypeError
  | Some matches =>
      match matches !! 2 with
      | Some (Some values) => Val (map strip_quotes (Js.split "," values))
      | _ => Throw TypeError
      end
  end.

End SetAnalysis.

(** ** A small engine to run the importers on concrete inputs

    The properties below hold for every engine. This one keeps a script,
    the variables, the alternate states and the generic objects of a
    document in memory, and refuses a second variable of a name. *)

Module Demo.

Record World : Type := mkWorld {
  w_script : string;
  w_variables : list (list (string * json));
  w_states : list string;
  w_objects : list (string * json)
}.

Definition info_id (props : list (string * json)) : string :=
  match Json.assoc "qInfo" props with
  | Some (JObj qInfo) =>
      match Json.assoc "qId" qInfo with
      | Some (JStr s) => s
      | _ => EmptyString
      end
  | _ => EmptyString
  end.

Definition named (name : jsval) (props : list (string * json)) : bool :=
  Json.strict_eq (Json.assoc "qName" props) name.

Definition find_object (objectId : string) (w : World) : option json :=
  snd <$> find (fun o => String.eqb (fst o) objectId) (w_objects w).

Definition find_variable (p : list (string * json) -> bool) (w : World)
  : outcome handle :=
  match find p (w_variables w) with
  | Some v => Resolved (info_id v)
  | None => Rejected "Variable not found"
  end.

Definition store_object (objectId : string) (props : json) (w : World) : World :=
  mkWorld (w_script w) (w_variables w) (w_states w)
          (map (fun o => if String.eqb (fst o) objectId then (objectId, props) else o)
               (w_objects w)).

Definition store_variable (objectId : string) (props : json) (w : World) : World :=
  match props with
  | JObj kv =>
      mkWorld (w_script w)
              (map (fun v => if String.eqb (info_id v) objectId then kv else v)
                   (w_variables w))
              (w_states w) (w_objects w)
  | _ => w
  end.

Definition respond (c : Call) : World -> outcome (Resp c) * World :=
  match c return World -> outcome (Resp c) * World with
  | GetScript => fun w => (Resolved (w_script w), w)
  | SetScript s => fun w =>
      (Resolved tt, mkWorld s (w_variables w) (w_states w) (w_objects w))
  | OpenApp (Some a) => fun w => (Resolved a, w)
  | OpenApp None => fun w => (Rejected "App with id 'undefined' not found", w)
  | GetObject (Some (JStr o)) => fun w =>
      (match find_object o w with
       | Some _ => Resolved o
       | None => Rejected "Object not found"
       end, w)
  | GetObject _ => fun w => (Rejected "Object not found", w)
  | GetObjectProperties _ (Some name) => fun w =>
      (Resolved (None, JObj [("qInfo", JObj [("qId", name)])]), w)
  | GetObjectProperties _ None => fun w => (Rejected "Object not found", w)
  | OriginGetFullPropertyTree _ (Some objectId) => fun w =>
      (Resolved (JObj [("qProperty", JObj [("qInfo", JObj [("qId", objectId)])]);
                       ("qChildren", JArr [])]), w)
  | OriginGetFullPropertyTree _ None => fun w => (Rejected "Object not found", w)
  | AddAlternateState (Some (JStr n)) => fun w =>
      (Resolved tt,
       if Js.includes n (w_states w) then w
       else mkWorld (w_script w) (w_variables w) (w_states w ++ [n]) (w_objects w))
  | AddAlternateState _ => fun w => (Resolved tt, w)
  | CreateObject props => fun w =>
      let objectId := "object-" +:+ Js.string_of_nat (length (w_objects w)) in
      (Resolved objectId,
       mkWorld (w_script w) (w_variables w) (w_states w)
               (w_objects w ++ [(objectId, props)]))
  | CreateDimension _ => fun w => (Resolved tt, w)
  | CreateMeasure _ => fun w => (Resolved tt, w)
  | CreateVariableEx (JObj kv) => fun w =>
      if existsb (named (Json.assoc "qName" kv)) (w_variables w)
      then (Rejected "Variable already exists", w)
      else (Resolved tt,
            mkWorld (w_script w) (w_variables w ++ [kv]) (w_states w) (w_objects w))
  | CreateVariableEx _ => fun w => (Rejected "Invalid parameters", w)
  | GetDimension _ => fun w => (Rejected "Dimension not found", w)
  | GetMeasure _ => fun w => (Rejected "Measure not found", w)
  | GetVariableById o => fun w =>
      (find_variable (fun v => String.eqb (info_id v) o) w, w)
  | GetVariableByName name => fun w => (find_variable (named name) w, w)
  | GetProperties h => fun w =>
      (match find (fun v => String.eqb (info_id v) h) (w_variables w) with
       | Some v => Resolved (JObj v)
       | None =>
           match find_object h w with
           | Some props => Resolved props
           | None => Rejected "Object not found"
           end
       end, w)
  | SetProperties h props => fun w =>
      (Resolved tt, store_variable h props (store_object h props w))
  | GetFullPropertyTree h => fun w =>
      (match find_object h w with
       | Some props => Resolved (JObj [("qProperty", props); ("qChildren", JArr [])])
       | None => Rejected "Object not found"
       end, w)
  | SetFullPropertyTree _ _ => fun w => (Resolved tt, w)
  end.

#[global] Instance engine : Engine World := respond.

Definition start (w : World) : State World := mkState [] w.

End Demo.

(** ** Sample data *)

Module Samples.

Definition kpi_properties (objectId expression : string) (showTitles : bool)
  : props_t :=
  ObjectProps
    [("qInfo", JObj [("qId", JStr objectId); ("qType", JStr "masterobject")]);
     ("qMetaDef", JObj [("title", JStr "Sales KPI")]);
     ("visualization", JStr "kpi");
     ("showTitles", JBool showTitles);
     ("qHyperCubeDef",
      JObj [("qMeasures",
             JArr [JObj [("qDef", JObj [("qDef", JStr expression)])]])])].

(** A master visualization, as [getMasterObjectInfo] gives it: the
    search terms are the expressions of the object. *)
Definition kpi (objectId expression : string) (showTitles : bool) : Item :=
  {| id := objectId; type := TMasterObject; label := "Sales KPI";
     properties := kpi_properties objectId expression showTitles;
     searchTerms := Some (expression +:+ " ");
     code_script_value := None; tags := None |}.

(** A current app whose only master object is [a]. *)
Definition only_master_object (a : Item) : CurrAppObjects :=
  fun t => match t with
           | TMasterObject => Some [a]
           | TBookmark => None
           | _ => Some []
           end.

(** A script of two tabs, [Main] and [Main (1)]. *)
Definition two_tabs : string :=
  "///$tab Main" +:+ CRLF +:+ "LOAD 1;" +:+ CRLF +:+
  "///$tab Main (1)" +:+ CRLF +:+ "LOAD 2;" +:+ CRLF.

(** A script in which two tabs are titled [Data]. *)
Definition twice_data : string :=
  "///$tab Main" +:+ CRLF +:+ "SET x=1;" +:+ CRLF +:+
  "///$tab Data" +:+ CRLF +:+ "LOAD a;" +:+ CRLF +:+
  "///$tab Data" +:+ CRLF +:+ "LOAD b;" +:+ CRLF.

Definition document (qScript : string) : State Demo.World :=
  Demo.start (Demo.mkWorld qScript [] [] []).

Definition update_options (t : target_id) : Options :=
  {| appId := Some "source-app"; targetId := t; sheetsMaxRank := None;
     sheetObjects := None; importAlternateStates := None |}.

Definition vToday_fields : list (string * json) :=
  [("qInfo", JObj [("qId", JStr "source-var"); ("qType", JStr "variable")]);
   ("qName", JStr "vToday");
   ("qDefinition", JStr "=Today()");
   ("qIsScriptCreated", JBool true)].

Definition idle (doesExist isImportable isUpdatable : bool) : Status :=
  {| selected := false; exists_ := doesExist; importable := isImportable;
     importing := false; imported := false; importFailed := false;
     updatable := isUpdatable; updating := false; updated := false;
     updateFailed := false |}.

(** The variable [vToday] of the source app, marked for an update of the
    variable [stale-var], which the current app had when it was read. *)
Definition vToday : PreparedItem :=
  {| item := {| id := "source-var"; type := TVariable; label := "vToday";
                properties := ObjectProps vToday_fields;
                searchTerms := Some "=Today() ";
                code_script_value := None; tags := None |};
     updatableTargetId := "stale-var";
     status := idle true false true |}.

Definition sheet_fields (title : string) (rank : Z) : list (string * json) :=
  [("qInfo", JObj [("qId", JStr title); ("qType", JStr "sheet")]);
   ("qMetaDef", JObj [("title", JStr title); ("published", JBool true);
                      ("publishTime", JStr "2023-02-12T10:00:00.000Z")]);
   ("rank", JNum rank);
   ("cells", JArr [])].

Definition a_sheet (title : string) (rank : Z) : Item :=
  {| id := title; type := TSheet; label := title;
     properties := ObjectProps (sheet_fields title rank);
     searchTerms := None; code_script_value := None; tags := None |}.

(** A current app with the given sheets and nothing else. *)
Definition with_sheets (sheets : list Item) : CurrAppObjects :=
  fun t => match t with
           | TSheet => Some sheets
           | TBookmark => None
           | _ => Some []
           end.

(** A sheet of the source app, ready to be imported. *)
Definition new_sheet (title : string) (rank : Z) : PreparedItem :=
  {| item := a_sheet title rank; updatableTargetId := EmptyString;
     status := idle false true false |}.

End Samples.

(** ** Vocabulary of the properties *)

(** The titles the loop tests, in order: the title itself, then the
    numbered ones. *)
Definition tested_title (base : string) (i : nat) : string :=
  match i with
  | O => base
  | S _ => script.candidate base i
  end.

(** The items of a type in the current app; none when the type was not
    loaded. *)
Definition destination (cur : CurrAppObjects) (t : ItemType) : list Item :=
  default [] (cur t).

(** Two variables have the same name: [a.properties.qName === item.properties.qName]. *)
Definition same_name (a it : Item) : Prop := same_prop "qName" a it = true.

(** The title read from an item, [undefined] when reading it throws. *)
Definition title_or_undefined (a : Item) : jsval :=
  match title a with
  | Val t => t
  | Throw _ => None
  end.

(** [_.omit(a.properties, "qInfo")] *)
Definition without_info (a : Item) : json :=
  Json.omit (Some (props_json (properties a))) ["qInfo"].

(** The text that replaces the target section. *)
Definition replacement (t : string) (props : script.Props) : string :=
  TAB_MARKER +:+ t +:+ CRLF +:+ script.qScript props.

(** The engine call by which [variable.update] looks for its target. *)
Definition variable_lookup (it : PreparedItem) (kv : list (string * json)) : Call :=
  if Js.truthy (updatableTargetId it)
  then GetVariableById (updatableTargetId it)
  else GetVariableByName (Json.assoc "qName" kv).

(** The engine call of [variable.add]. *)
Definition variable_create (kv : list (string * json)) : Call :=
  CreateVariableEx (sanitizeObjectData (Json.delete_field "qIsScriptCreated" kv)).

(** A write of sheet properties carries the properties that were given:
    [createObject] those of [push_rank], [setProperties] the very ones. *)
Definition writes_as_given (props : list (string * json)) (options : Options)
  (c : Call) : Prop :=
  match c with
  | CreateObject p => p = JObj (sheet.push_rank options props)
  | SetProperties _ p => p = JObj props
  | _ => True
  end.

(** The call by which [sheet.write] hands the properties to the engine. *)
Definition write_call (props : list (string * json)) (options : Options)
  (targetObject : option handle) : Call :=
  match targetObject with
  | Some t => SetProperties t (JObj props)
  | None => CreateObject (JObj (sheet.push_rank options props))
  end.

(** The text of a selection of [fieldName] in a set expression:
    [<] or [,], the name, [={], at least one character other than [}],
    then [}>] or [},]. *)
Definition selection_block (fieldName opening values closing : string) : Prop :=
  (opening = "<" \/ opening = ",") /\
  (closing = "}>" \/ closing = "},") /\
  values <> EmptyString /\
  (forall x, In x (list_ascii_of_string values) -> x <> "}"%char).


(** A promise of the app of the identifier [k]: one that waits for that
    app or is resolved with it, or one that is rejected. *)
Definition promise_for (k : string) (p : AppCache.promise_state) : Prop :=
  match p with
  | AppCache.PPending app | AppCache.PResolved app => AppCache.app_id app = k
  | AppCache.PRejected _ => True
  end.

(** What holds of a cache that started empty: every entry is a promise
    of the app of its key, every identifier that was opened, but for
    [__proto__], has its entry and was opened once. *)
Definition cache_invariant (c : AppCache.Cache) : Prop :=
  (forall k r, AppCache.apps c !! k = Some r ->
               exists p, AppCache.heap c !! r = Some p /\ promise_for k p) /\
  (forall k, In k (AppCache.opened c) -> k <> "__proto__" ->
             is_Some (AppCache.apps c !! k)) /\
  (forall k, k <> "__proto__" ->
             count_occ string_dec (AppCache.opened c) k <= 1).


(** What [pattern] comes to for a field name that is plain text: the
    name is matched as it is. *)
Definition literal_pattern (fieldName : string) : SetAnalysis.regex :=
  SetAnalysis.Seq
    (SetAnalysis.Group 1 (SetAnalysis.Alt (SetAnalysis.Lit "<") (SetAnalysis.Lit ",")))
    (SetAnalysis.Seq (SetAnalysis.Lit fieldName)
       (SetAnalysis.Seq (SetAnalysis.Lit "={")
          (SetAnalysis.Seq (SetAnalysis.Group 2 (SetAnalysis.PlusNot "}"))
             (SetAnalysis.Group 3
                (SetAnalysis.Alt (SetAnalysis.Lit "}>") (SetAnalysis.Lit "},")))))).

(** The continuation that ends a match started at [s]. *)
Definition finish_match (s : string)
  : string -> list (option string) -> option (list (option string)) :=
  fun s' caps => Some (<[0 := Some (SetAnalysis.consumed s s')]> caps).

(** No text that starts with [sep] is found inside [a]. *)
Definition no_occurrence (sep a : string) : Prop :=
  forall x y, a = x +:+ y -> Js.starts_with sep y = false.

(** Whether some text that starts with [sep] is found inside [a]. *)
Fixpoint occurs (sep a : string) : bool :=
  Js.starts_with sep a ||
  match a with
  | EmptyString => false
  | String _ a' => occurs sep a'
  end.

(** A fragment of a script: not empty, and without tab marker inside. *)
Definition is_fragment (a : string) : Prop :=
  no_occurrence TAB_MARKER a /\ Js.truthy a = true.

(** The section the code makes of a fragment. *)
Definition section_of (a : string) : script.Section_ :=
  {| script.sec_tab := Js.first_piece CRLF a; script.section := TAB_MARKER +:+ a |}.

Section EngineVocabulary.
Context {World : Type} `{Engine World}.

(** What [setScript(written)] gives after [getScript] left the engine in [w]. *)
Definition script_written (s : State World) (w : World) (written : string)
  : outcome unit * State World :=
  (fst (engine_call (SetScript written) w),
   mkState (log s ++ [GetScript; SetScript written])
           (snd (engine_call (SetScript written) w))).

(** From [s] to [s'] only calls that satisfy [P] were issued. *)
Definition grows (P : Call -> Prop) (s s' : State World) : Prop :=
  exists l, log s' = log s ++ l /\ Forall P l.

(** From [s] to [s'] the call [c] was issued. *)
Definition issued_between (c : Call) (s s' : State World) : Prop :=
  exists l, log s' = log s ++ l /\ In c l.

End EngineVocabulary.

(** * Further functions and the vocabulary of their properties *)

(** ** Reconciliation: the target of an update *)

(** What makes [a] a target for an update of [it]: the same tab label,
    title or name, and another definition. *)
Definition update_candidate (a it : Item) : Prop :=
  match type it with
  | TScript =>
      label a = label it /\
      exists x y, script_value a = Val x /\ script_value it = Val y /\ x <> y
  | TSheet =>
      same_title a it = Val true /\
      exists _a _item,
        without_cell_names (properties a) = Val _a /\
        without_cell_names (properties it) = Val _item /\
        json_differs (Some _a) (Some _item) = true
  | TDimension =>
      same_title a it = Val true /\
      json_differs (prop a "qDim") (prop it "qDim") = true
  | TMeasure =>
      same_title a it = Val true /\
      json_differs (prop a "qMeasure") (prop it "qMeasure") = true
  | TMasterObject =>
      same_title a it = Val true /\
      json_differs (Some (without_info a)) (Some (without_info it)) = true
  | TVariable =>
      same_name a it /\
      json_differs
        (Some (Json.omit (Some (props_json (properties a)))
                 ["qInfo"; "qMeta"; "qIsScriptCreated"]))
        (Some (Json.omit (Some (props_json (properties it)))
                 ["qInfo"; "qMeta"; "qIsScriptCreated"])) = true
  | _ => False
  end.

(** What [getTargetIdIfItemIsUpdatableInCurrentApp] reads as the id of a
    target: the tab label of a script section, the id of any other item. *)
Definition target_key (t : ItemType) (a : Item) : string :=
  match t with
  | TScript => label a
  | _ => id a
  end.

(** ** Collecting the script sections of an app *)

Module AppInfo.

(** A script section as [getScript] lists it. *)
Record ScriptSection : Type := mkScriptSection {
  section_id : string;
  section_label : string;
  section_index : nat;
  section_script : string
}.

(** What [getScript] resolves with, [qScript] being the script the
    engine gave: one entry per non-empty fragment, its first line as the
    label and the lines after it as the script. *)
Definition getScript (qScript : string) : list ScriptSection :=
  imap (fun ix a =>
          {| section_id := "Section " +:+ Js.string_of_nat (ix + 1);
             section_label := Js.first_piece CRLF a;
             section_index := ix;
             section_script := Js.join CRLF (tail (Js.split CRLF a)) |})
       (script.fragments qScript).

End AppInfo.

(** [getScriptInfo], on the list [appInfo.script] resolved with: the
    sections as items of type [script], the script text as their code
    and [{tab, qScript}] as their properties. *)
Definition getScriptInfo (info : list AppInfo.ScriptSection) : list Item :=
  map (fun a =>
         {| id := AppInfo.section_id a;
            type := TScript;
            label := AppInfo.section_label a;
            properties := ScriptProps (AppInfo.section_label a) (AppInfo.section_script a);
            searchTerms := None;
            code_script_value := Some (AppInfo.section_script a);
            tags := None |}) info.

(** A title that is read back as it is written: it has no line end, and
    no tab marker even when a space follows it. *)
Definition clean_title (t : string) : Prop :=
  no_occurrence CRLF t /\ no_occurrence TAB_MARKER (t +:+ " ").

(** The engine call by which [variable.update] looks for its target:
    by id when a target id is given, by name otherwise. *)
Definition lookup_call (options : Options) (props : list (string * json)) : Call :=
  match target_given (targetId options) with
  | Some t => GetVariableById t
  | None => GetVariableByName (Json.assoc "qName" props)
  end.

(** [v.k1.k2], [undefined] when it cannot be read. *)
Definition path2 (v : jsval) (k1 k2 : string) : jsval :=
  match Json.get_prop v k1 with
  | Val inner =>
      match Json.get_prop inner k2 with
      | Val x => x
      | Throw _ => None
      end
  | Throw _ => None
  end.

(** [v.k1.k2.k3], [undefined] when it cannot be read. *)
Definition path3 (v : jsval) (k1 k2 k3 : string) : jsval :=
  match Json.get_prop (path2 v k1 k2) k3 with
  | Val x => x
  | Throw _ => None
  end.

Section VariableVocabulary.
Context {World : Type} `{Engine World}.

(** The engine's answer to the lookup of [variable.update]. *)
Definition lookup_variable (options : Options) (props : list (string * json))
  : World -> outcome handle * World :=
  match target_given (targetId options) with
  | Some t => engine_call (GetVariableById t)
  | None => engine_call (GetVariableByName (Json.assoc "qName" props))
  end.

End VariableVocabulary.

(** ** More sample data *)

Module MoreSamples.

(** The variable [vToday] as the current app has it, created in the
    load script. *)
Definition current_vToday : list (string * json) :=
  [("qInfo", JObj [("qId", JStr "current-var"); ("qType", JStr "variable")]);
   ("qName", JStr "vToday");
   ("qDefinition", JStr "=Today()-1");
   ("qIsScriptCreated", JBool true)].

(** A document whose only variable is [current_vToday]. *)
Definition with_vToday : Demo.World :=
  Demo.mkWorld EmptyString [current_vToday] [] [].

(** A document whose only object has the id [current-kpi]. *)
Definition with_kpi : Demo.World :=
  Demo.mkWorld EmptyString [] []
    [("current-kpi",
      JObj [("qInfo", JObj [("qId", JStr "current-kpi");
                            ("qType", JStr "masterobject")])])].

(** The properties of a master visualization of the source app. *)
Definition source_kpi : list (string * json) :=
  [("qInfo", JObj [("qId", JStr "source-kpi"); ("qType", JStr "masterobject")]);
   ("visualization", JStr "kpi")].

End MoreSamples.

(** ** Vocabulary for the sheet importer *)

(** The calls of the requirements of [sheet.add], issued before it
    creates the sheet or sets its properties. *)
Definition is_requirement (c : Call) : Prop :=
  match c with
  | GetObject _ | OpenApp _ | GetObjectProperties _ _ | AddAlternateState _ => True
  | _ => False
  end.

(** No object is created, and the object asked for is [t]. *)
Definition addresses_target (t : string) (c : Call) : Prop :=
  match c with
  | CreateObject _ => False
  | GetObject o => o = Some (JStr t)
  | _ => True
  end.

(** No existing object is asked for or given new properties. *)
Definition touches_no_object (c : Call) : Prop :=
  match c with
  | GetObject _ | SetProperties _ _ => False
  | _ => True
  end.


(** [cell.name], [undefined] when it cannot be read. *)
Definition cell_name (cell : json) : jsval :=
  match Json.get_prop (Some cell) "name" with
  | Val name => name
  | Throw _ => None
  end.

(** A sheet with a rank that the model reads and adds to as the code
    does: a number, an integer, of a size at which a double holds it and
    the next integer exactly. *)
Definition integer_rank (a : Item) : Prop :=
  exists r, prop a "rank" = Some (JNum r) /\ (- 2 ^ 53 < r < 2 ^ 53)%Z.

(** An object is created with rank [r] only. *)
Definition creates_with_rank (r : Z) (c : Call) : Prop :=
  match c with
  | CreateObject (JObj p) => Json.assoc "rank" p = Some (JNum r)
  | CreateObject _ => False
  | _ => True
  end.

(** ** Importing the items of an asset in one go *)

(** [$scope.status], the marks of the list that is shown. *)
Module Scope.
Record Status : Type := mkStatus {
  selected : bool;
  importing : bool;
  imported : bool;
  importFailed : bool
}.
End Scope.

(** What a call of [importMultipleItems] leaves: what it returned
    ([None] when it returned nothing, else its promise), [$scope.status],
    the items of [$scope.selected] and the engine. *)
Record BatchRun (World : Type) : Type := mkBatchRun {
  batch_returned : option (outcome unit);
  batch_status : Scope.Status;
  batch_items : list PreparedItem;
  batch_state : State World
}.
Arguments mkBatchRun {World} batch_returned batch_status batch_items batch_state.
Arguments batch_returned {World} b.
Arguments batch_status {World} b.
Arguments batch_items {World} b.
Arguments batch_state {World} b.

(** [$scope.getSelectedCount] *)
Definition getSelectedCount (selectedItems : list PreparedItem) : nat :=
  length (List.filter (fun it => selected (status it)) selectedItems).

Section Batch.
Context {World : Type} `{Engine World}.

(** The chain [reduce] builds over the chosen items: [importItem] is
    called for an item when the promise of the item before it is
    resolved; an exception thrown by the call rejects the chain, a
    promise that stays unsettled stops it. The items that are not chosen
    are passed over. *)
Fixpoint import_chain (cur : CurrAppObjects) (appDataId : string)
  (chosen : PreparedItem -> bool) (items : list PreparedItem) (s : State World)
  : outcome unit * list PreparedItem * State World :=
  match items with
  | [] => (Resolved tt, [], s)
  | it :: rest =>
      if chosen it then
        let r := importItem cur appDataId it s in
        match completed r with
        | Returned (Resolved _) =>
            let '(o, rest', s') := import_chain cur appDataId chosen rest (state_after r) in
            (o, item_after r :: rest', s')
        | Returned (Rejected e) => (Rejected e, item_after r :: rest, state_after r)
        | Returned Pending => (Pending, item_after r :: rest, state_after r)
        | Threw e => (Rejected e, item_after r :: rest, state_after r)
        end
      else
        let '(o, rest', s') := import_chain cur appDataId chosen rest s in
        (o, it :: rest', s')
  end.

(** [selectedCount ? item.status.selected : true] *)
Definition chosen_of (selectedCount : nat) (it : PreparedItem) : bool :=
  match selectedCount with
  | O => true
  | S _ => selected (status it)
  end.

(** [$scope.importMultipleItems] *)
Definition importMultipleItems (cur : CurrAppObjects) (appDataId : string)
  (st : Scope.Status) (selectedItems : list PreparedItem) (s : State World)
  : BatchRun World :=
  let selectedCount := getSelectedCount selectedItems in
  if Scope.imported st then mkBatchRun None st selectedItems s
  else
    let '(o, items', s') :=
      import_chain cur appDataId (chosen_of selectedCount) selectedItems s in
    match o with
    | Resolved _ =>
        mkBatchRun (Some (Resolved tt))
          (Scope.mkStatus (Scope.selected st) false true (Scope.importFailed st))
          items' s'
    | Rejected _ =>
        mkBatchRun (Some (Resolved tt))
          (Scope.mkStatus (Scope.selected st) false (Scope.imported st) true)
          items' s'
    | Pending =>
        mkBatchRun (Some Pending)
          (Scope.mkStatus (Scope.selected st) true (Scope.imported st)
             (Scope.importFailed st))
          items' s'
    end.

End Batch.

(** An item with which [importItem] is done: it is imported, or its
    import failed, or it is not importable. *)
Definition import_settled (it : PreparedItem) : bool :=
  imported (status it) || importFailed (status it) || negb (importable (status it)).

(** An item with which [updateItem] is done. *)
Definition update_settled (it : PreparedItem) : bool :=
  updated (status it) || updateFailed (status it) || negb (updatable (status it)).

(** What an import leaves of an item: all but the marks [exists],
    [importing], [imported] and [importFailed], and but the properties,
    which the importers write into and which are not compared. *)
Definition same_but_import_marks (it it' : PreparedItem) : Prop :=
  id (item it') = id (item it) /\
  type (item it') = type (item it) /\
  label (item it') = label (item it) /\
  searchTerms (item it') = searchTerms (item it) /\
  code_script_value (item it') = code_script_value (item it) /\
  tags (item it') = tags (item it) /\
  updatableTargetId it' = updatableTargetId it /\
  selected (status it') = selected (status it) /\
  importable (status it') = importable (status it) /\
  updatable (status it') = updatable (status it) /\
  updating (status it') = updating (status it) /\
  updated (status it') = updated (status it) /\
  updateFailed (status it') = updateFailed (status it).

(** ** Vocabulary for the values of a set expression *)

(** The text by which a selection of [fieldName] starts is read at the
    start of [s]: [<] or [,], the name, [={]. *)
Definition selection_starts (fieldName s : string) : bool :=
  Js.starts_with ("<" +:+ fieldName +:+ "={") s
  || Js.starts_with ("," +:+ fieldName +:+ "={") s.

(** Such a text starts at some character of [before], [rest] being what
    follows [before]. *)
Fixpoint starts_within (fieldName before rest : string) : bool :=
  match before with
  | EmptyString => false
  | String _ b =>
      selection_starts fieldName (before +:+ rest) || starts_within fieldName b rest
  end.

(** A value as a set expression lists it, between single quotes. *)
Definition quoted (v : string) : string := "'" +:+ v +:+ "'".

(** A value that can be listed: it has no comma, no closing brace and no
    line end. *)
Definition listable (v : string) : Prop :=
  forall x, In x (list_ascii_of_string v) ->
            x <> ","%char /\ x <> "}"%char /\ SetAnalysis.is_line_end x = false.

(* ================================================================== *)
(** * Properties *)
(* ================================================================== *)

(** ** Strings *)

#[local] Arguments String.append : simpl nomatch.

Lemma includes_In (x : string) (l : list string) :
  Js.includes x l = true <-> In x l.
Proof.
  unfold Js.includes. rewrite existsb_exists. split.
  - intros (y & Hy & E). apply String.eqb_eq in E. now subst.
  - intros Hx. exists x. split; [assumption | apply String.eqb_refl].
Qed.

Lemma includes_false (x : string) (l : list string) :
  Js.includes x l = false <-> ~ In x l.
Proof.
  rewrite <- includes_In. destruct (Js.includes x l); split; congruence.
Qed.

Lemma append_assoc (a b c : string) : (a +:+ b) +:+ c = a +:+ (b +:+ c).
Proof. induction a as [|x a IH]; simpl; [reflexivity | now rewrite IH]. Qed.

Lemma append_nil_r (a : string) : a +:+ "" = a.
Proof. induction a as [|x a IH]; simpl; [reflexivity | now rewrite IH]. Qed.

Lemma append_length (a b : string) :
  String.length (a +:+ b) = String.length a + String.length b.
Proof. induction a as [|x a IH]; simpl; [reflexivity | now rewrite IH]. Qed.

Lemma append_inj_l (a b c : string) : a +:+ b = a +:+ c -> b = c.
Proof. induction a as [|x a IH]; simpl; intros E; [assumption | injection E; auto]. Qed.

Lemma append_char_inj_r (a b : string) (c : ascii) :
  a +:+ String c "" = b +:+ String c "" -> a = b.
Proof.
  revert b. induction a as [|x a IH]; intros [|y b]; simpl; intros E.
  - reflexivity.
  - injection E as _ E. destruct b; discriminate.
  - injection E as _ E. destruct a; discriminate.
  - injection E as -> E. f_equal. now apply IH.
Qed.

Lemma string_of_nat_inj (n m : nat) :
  Js.string_of_nat n = Js.string_of_nat m -> n = m.
Proof.
  unfold Js.string_of_nat. intros E.
  apply (f_equal NilEmpty.uint_of_string) in E.
  rewrite !NilEmpty.usu in E. injection E as E.
  apply (f_equal Nat.of_uint) in E.
  now rewrite !DecimalNat.Unsigned.of_to in E.
Qed.

Lemma concat_all_acc (l : list string) (acc : string) :
  fold_left String.append l acc = acc +:+ Js.concat_all l.
Proof.
  unfold Js.concat_all. revert acc.
  induction l as [|x l IH]; intros acc; simpl.
  - now rewrite append_nil_r.
  - rewrite (IH (acc +:+ x)), (IH x). apply append_assoc.
Qed.

Lemma concat_all_cons (x : string) (l : list string) :
  Js.concat_all (x :: l) = x +:+ Js.concat_all l.
Proof. unfold Js.concat_all at 1. simpl. apply concat_all_acc. Qed.

Lemma concat_all_app (l1 l2 : list string) :
  Js.concat_all (l1 ++ l2) = Js.concat_all l1 +:+ Js.concat_all l2.
Proof.
  induction l1 as [|x l1 IH]; simpl; [reflexivity |].
  now rewrite !concat_all_cons, IH, append_assoc.
Qed.

Lemma starts_with_app (l rest : string) : Js.starts_with l (l +:+ rest) = true.
Proof.
  induction l as [|a l IH]; simpl; [reflexivity |].
  now rewrite Ascii.eqb_refl.
Qed.

Lemma starts_with_inv (l s : string) :
  Js.starts_with l s = true -> s = l +:+ SetAnalysis.drop_chars (String.length l) s.
Proof.
  revert s. induction l as [|a l IH]; intros s; simpl; [reflexivity |].
  destruct s as [|b s]; [discriminate |].
  destruct (Ascii.eqb a b) eqn:E; [| discriminate].
  apply Ascii.eqb_eq in E. subst b. intros Hs. f_equal. now apply IH.
Qed.

Lemma drop_chars_app (l rest : string) :
  SetAnalysis.drop_chars (String.length l) (l +:+ rest) = rest.
Proof. induction l as [|a l IH]; simpl; [reflexivity | assumption]. Qed.

(** ** Script sections: the renaming loop *)

Lemma candidate_inj (base : string) (i j : nat) :
  script.candidate base i = script.candidate base j -> i = j.
Proof.
  unfold script.candidate. intros E.
  apply append_inj_l in E. apply (append_inj_l " (") in E.
  apply append_char_inj_r in E. now apply string_of_nat_inj.
Qed.

Lemma candidate_longer (base : string) (i : nat) : script.candidate base i <> base.
Proof.
  unfold script.candidate. intros E.
  apply (f_equal String.length) in E.
  rewrite !append_length in E. simpl in E. lia.
Qed.

Lemma tested_title_inj (base : string) (i j : nat) :
  tested_title base i = tested_title base j -> i = j.
Proof.
  destruct i, j; simpl; intros E.
  - reflexivity.
  - symmetry in E. now apply candidate_longer in E.
  - now apply candidate_longer in E.
  - now apply candidate_inj in E.
Qed.

Lemma rename_loop_sound (tabs : list string) (base : string) (fuel i : nat) (t : string) :
  script.rename_loop fuel tabs base i (tested_title base i) = Some t ->
  exists n, i <= n /\ t = tested_title base n /\ ~ In t tabs /\
            forall m, i <= m < n -> In (tested_title base m) tabs.
Proof.
  revert i. induction fuel as [|fuel IH]; intros i; simpl; [discriminate |].
  destruct (Js.includes (tested_title base i) tabs) eqn:E.
  - intros Hl. apply (IH (S i)) in Hl as (n & Hn & -> & Hfree & Hbusy).
    exists n. repeat split; [lia | assumption |].
    intros m Hm. destruct (Nat.eq_dec m i) as [-> | Hne].
    + now apply includes_In.
    + apply Hbusy. lia.
  - intros [= <-]. exists i. repeat split; [lia | now apply includes_false | lia].
Qed.

Lemma rename_loop_complete (tabs : list string) (base : string) (fuel i n : nat) :
  i <= n < i + fuel -> ~ In (tested_title base n) tabs ->
  script.rename_loop fuel tabs base i (tested_title base i) <> None.
Proof.
  revert i. induction fuel as [|fuel IH]; intros i Hn Hfree; simpl; [lia |].
  destruct (Js.includes (tested_title base i) tabs) eqn:E; [| discriminate].
  apply (IH (S i)); [| assumption].
  destruct (Nat.eq_dec n i) as [-> | Hne]; [| lia].
  apply includes_In in E. contradiction.
Qed.

(** Among more titles than there are tabs, one is free. *)
Lemma free_title_exists (tabs : list string) (base : string) :
  exists n, n < S (length tabs) /\ ~ In (tested_title base n) tabs.
Proof.
  destruct (List.Exists_dec (fun n => ~ In (tested_title base n) tabs)
              (seq 0 (S (length tabs)))) as [Hex | Hall].
  - intros n. destruct (in_dec string_dec (tested_title base n) tabs); [right | left]; tauto.
  - apply List.Exists_exists in Hex as (n & Hn & Hfree).
    apply List.in_seq in Hn. exists n. split; [lia | assumption].
  - exfalso.
    assert (Hincl : incl (map (tested_title base) (seq 0 (S (length tabs)))) tabs).
    { intros t Ht. apply List.in_map_iff in Ht as (n & <- & Hn).
      destruct (in_dec string_dec (tested_title base n) tabs) as [|Hno]; [assumption |].
      exfalso. apply Hall. apply List.Exists_exists. eauto. }
    apply List.NoDup_incl_length in Hincl.
    + rewrite List.length_map, List.length_seq in Hincl. lia.
    + apply Finite.Injective_map_NoDup; [| apply List.seq_NoDup].
      intros a b. apply tested_title_inj.
Qed.

(** The loop always ends: [unique_tab] gives a title. *)
Lemma unique_tab_total (tabs : list string) (base : string) :
  exists t, script.unique_tab tabs base = Some t.
Proof.
  destruct (free_title_exists tabs base) as (n & Hn & Hfree).
  unfold script.unique_tab.
  destruct (script.rename_loop _ _ _ _ _) eqn:E; [eauto |].
  exfalso. revert E. apply (rename_loop_complete tabs base _ 0 n); [lia | assumption].
Qed.

(** ** Reconciliation *)

Lemma some_total {A} (p : A -> exn bool) (q : A -> bool) (l : list A) :
  (forall a, In a l -> p a = Val (q a)) ->
  Underscore.some p l = Val (existsb q l).
Proof.
  induction l as [|a l IH]; intros Hp; simpl; [reflexivity |].
  rewrite (Hp a) by now left. simpl.
  destruct (q a); [reflexivity |]. apply IH. intros b Hb. apply Hp. now right.
Qed.

Lemma every_total {A} (p : A -> exn bool) (q : A -> bool) (l : list A) :
  (forall a, In a l -> p a = Val (q a)) ->
  Underscore.every p l = Val (forallb q l).
Proof.
  induction l as [|a l IH]; intros Hp; simpl; [reflexivity |].
  rewrite (Hp a) by now left. simpl.
  destruct (q a); [| reflexivity]. apply IH. intros b Hb. apply Hp. now right.
Qed.

Lemma filter_e_total {A} (p : A -> exn bool) (q : A -> bool) (l : list A) :
  (forall a, In a l -> p a = Val (q a)) ->
  Underscore.filter_e p l = Val (List.filter q l).
Proof.
  induction l as [|a l IH]; intros Hp; simpl; [reflexivity |].
  rewrite (Hp a) by now left. simpl.
  rewrite IH by (intros b Hb; apply Hp; now right). simpl.
  now destruct (q a).
Qed.

Lemma forallb_negb_existsb {A} (q : A -> bool) (l : list A) :
  forallb (fun a => negb (q a)) l = negb (existsb q l).
Proof.
  induction l as [|a l IH]; simpl; [reflexivity |].
  rewrite IH. now destruct (q a).
Qed.

Lemma importable_value (cur : CurrAppObjects) (it : Item) :
  isItemImportableInCurrentApp cur it =
  Val (match type it with
       | TAlternateState =>
           negb (existsb (fun a => String.eqb (id a) (id it))
                   (destination cur TAlternateState))
       | TVariable =>
           negb (existsb (fun a => same_prop "qName" a it)
                   (destination cur TVariable))
       | _ => true
       end).
Proof.
  unfold isItemImportableInCurrentApp, destination.
  destruct (type it) eqn:Et; destruct (cur _) as [objs|]; simpl; try reflexivity.
  - rewrite (every_total _ (fun a => negb (String.eqb (id a) (id it)))) by reflexivity.
    now rewrite forallb_negb_existsb.
  - rewrite (every_total _ (fun a => negb (same_prop "qName" a it))) by reflexivity.
    now rewrite forallb_negb_existsb.
Qed.

Lemma prepareItem_importable (cur : CurrAppObjects) (it : Item) (p : PreparedItem) :
  prepareItem cur it = Val p ->
  isItemImportableInCurrentApp cur it = Val (importable (status p)).
Proof.
  unfold prepareItem, mbind, exn_mbind, exn_bind.
  destruct (getTargetIdIfItemIsUpdatableInCurrentApp cur it); [| discriminate].
  destruct (doesItemExistInCurrentApp cur it); [| discriminate].
  rewrite importable_value. now intros [= <-].
Qed.

(** Items that are addressed by name are always classified. *)
Lemma prepareItem_named_total (cur : CurrAppObjects) (it : Item) :
  type it = TAlternateState \/ type it = TVariable ->
  exists p, prepareItem cur it = Val p.
Proof.
  intros Et. unfold prepareItem. rewrite importable_value.
  assert (Htarget : exists t, getTargetIdIfItemIsUpdatableInCurrentApp cur it = Val t).
  { unfold getTargetIdIfItemIsUpdatableInCurrentApp.
    destruct Et as [-> | ->]; destruct (cur _) as [objs|]; simpl; eauto.
    rewrite (filter_e_total _
               (fun a => same_prop "qName" a it
                         && json_differs
                              (Some (Json.omit (Some (props_json (properties a)))
                                       ["qInfo"; "qMeta"; "qIsScriptCreated"]))
                              (Some (Json.omit (Some (props_json (properties it)))
                                       ["qInfo"; "qMeta"; "qIsScriptCreated"])))).
    - simpl. eauto.
    - intros a _. now destruct (same_prop "qName" a it). }
  assert (Hexists : exists e, doesItemExistInCurrentApp cur it = Val e).
  { unfold doesItemExistInCurrentApp.
    destruct Et as [-> | ->]; destruct (cur _) as [objs|]; eauto.
    - rewrite (some_total _ (fun a => String.eqb (id a) (id it))) by reflexivity. eauto.
    - rewrite (some_total _ (fun a => same_prop "qName" a it
                                       && same_prop "qDefinition" a it)) by reflexivity.
      eauto. }
  destruct Htarget as (t & ->). destruct Hexists as (e & ->). simpl. eauto.
Qed.

(** C1. An alternate state or a variable is importable exactly when no
    item of its type in the current app has its name (for a variable the
    [qName] decides, whatever the definition); an item of any other type
    is always importable. This is the value [prepareItem] puts in the
    [importable] flag, and for alternate states and variables
    [prepareItem] always gives a status. *)
Theorem importable_iff_name_is_free (cur : CurrAppObjects) (it : Item) :
  exists b,
    isItemImportableInCurrentApp cur it = Val b /\
    (forall p, prepareItem cur it = Val p -> importable (status p) = b) /\
    match type it with
    | TAlternateState =>
        (exists p, prepareItem cur it = Val p) /\
        (b = false <->
         exists a, In a (destination cur TAlternateState) /\ id a = id it)
    | TVariable =>
        (exists p, prepareItem cur it = Val p) /\
        (b = false <->
         exists a, In a (destination cur TVariable) /\ same_name a it) /\
        (forall it', type it' = TVariable ->
                     prop it' "qName" = prop it "qName" ->
                     isItemImportableInCurrentApp cur it' = Val b)
    | _ => b = true
    end.
Proof.
  eexists. split; [apply importable_value |]. split.
  { intros p Hp. apply prepareItem_importable in Hp.
    rewrite importable_value in Hp. now injection Hp. }
  destruct (type it) eqn:Et; try reflexivity.
  - split; [apply prepareItem_named_total; now left |].
    rewrite negb_false_iff, existsb_exists.
    split; intros (a & Ha & E); exists a; split; try assumption.
    + now apply String.eqb_eq.
    + now apply String.eqb_eq.
  - split; [apply prepareItem_named_total; now right |]. split.
    + rewrite negb_false_iff, existsb_exists. reflexivity.
    + intros it' Et' Hname. rewrite importable_value, Et'.
      unfold same_prop. now rewrite Hname.
Qed.

Lemma same_title_total (a it : Item) (ta ti : jsval) :
  title a = Val ta -> title it = Val ti ->
  same_title a it = Val (Json.strict_eq (title_or_undefined a) ti).
Proof.
  intros Ha Hi. unfold same_title, title_or_undefined. now rewrite Ha, Hi.
Qed.

(** C2, as stated, fails: a master object of the current app with the
    title and the visualization type of the item, other properties and
    therefore other search terms, does not make the item exist. *)
Lemma masterObject_same_title_not_existing :
  let a := Samples.kpi "dest-kpi" "Sum(Sales)" true in
  let it := Samples.kpi "src-kpi" "Sum(Amount)" true in
  same_title a it = Val true /\
  same_prop "visualization" a it = true /\
  json_differs (Some (props_json (properties a))) (Some (props_json (properties it))) = true /\
  exists p, prepareItem (Samples.only_master_object a) it = Val p /\
            exists_ (status p) = false /\
            updatable (status p) = true /\
            importable (status p) = true.
Proof.
  cbv zeta. repeat split; try reflexivity.
  eexists. split; [vm_compute; reflexivity |]. repeat split.
Qed.

(** C2, amended. When a master object [a] of the current app has the
    title, the visualization type and the search terms of the item,
    while their properties without [qInfo] are serialized differently,
    the item is marked as existing, updatable and importable at once.
    The titles of the master objects of the current app are readable
    and their ids are not empty. *)
Theorem masterObject_flags_independent
  (cur : CurrAppObjects) (objs : list Item) (a it : Item) (ti : jsval) :
  type it = TMasterObject ->
  cur TMasterObject = Some objs ->
  In a objs ->
  (forall b, In b objs -> exists tb, title b = Val tb) ->
  (forall b, In b objs -> id b <> EmptyString) ->
  title it = Val ti ->
  Json.strict_eq (title_or_undefined a) ti = true ->
  same_prop "visualization" a it = true ->
  searchTerms a = searchTerms it ->
  json_differs (Some (without_info a)) (Some (without_info it)) = true ->
  exists p, prepareItem cur it = Val p /\
            exists_ (status p) = true /\
            updatable (status p) = true /\
            importable (status p) = true.
Proof.
  intros Et Hcur Ha Htitles Hids Hti Htitle Hvis Hterms Hdiff.
  set (q := fun b => Json.strict_eq (title_or_undefined b) ti
                     && json_differs (Some (without_info b)) (Some (without_info it))).
  set (e := fun b => Json.strict_eq (title_or_undefined b) ti
                     && same_prop "visualization" b it
                     && option_string_eqb (searchTerms b) (searchTerms it)).
  assert (Htarget : getTargetIdIfItemIsUpdatableInCurrentApp cur it
                    = Val (match map id (List.filter q objs) with
                           | first :: _ => first
                           | [] => EmptyString
                           end)).
  { unfold getTargetIdIfItemIsUpdatableInCurrentApp. rewrite Et, Hcur.
    rewrite (filter_e_total _ q).
    - reflexivity.
    - intros b Hb. destruct (Htitles b Hb) as (tb & Htb).
      rewrite (same_title_total b it tb ti Htb Hti). unfold q.
      destruct (Json.strict_eq (title_or_undefined b) ti); reflexivity. }
  assert (Hexists : doesItemExistInCurrentApp cur it = Val (existsb e objs)).
  { unfold doesItemExistInCurrentApp. rewrite Et, Hcur.
    apply some_total. intros b Hb. destruct (Htitles b Hb) as (tb & Htb).
    rewrite (same_title_total b it tb ti Htb Hti). unfold e.
    destruct (Json.strict_eq (title_or_undefined b) ti); [| reflexivity].
    destruct (same_prop "visualization" b it); reflexivity. }
  unfold prepareItem. rewrite Htarget, Hexists, importable_value, Et.
  eexists. split; [reflexivity |]. simpl. repeat split.
  - apply existsb_exists. exists a. split; [assumption |].
    unfold e. rewrite Htitle, Hvis, Hterms. simpl.
    destruct (searchTerms it); simpl; [apply String.eqb_refl | reflexivity].
  - assert (Hqa : In a (List.filter q objs)).
    { apply filter_In. split; [assumption |]. unfold q. now rewrite Htitle, Hdiff. }
    destruct (List.filter q objs) as [|first rest] eqn:Ef; [contradiction |].
    assert (Hfirst : In first objs).
    { apply (proj1 (filter_In q first objs)). rewrite Ef. now left. }
    simpl. specialize (Hids first Hfirst). now destruct (id first).
Qed.

Lemma masterObject_flags_independent_witness :
  exists p,
    prepareItem (Samples.only_master_object (Samples.kpi "dest-kpi" "Sum(Sales)" true))
                (Samples.kpi "src-kpi" "Sum(Sales)" false) = Val p /\
    exists_ (status p) = true /\
    updatable (status p) = true /\
    importable (status p) = true.
Proof.
  apply (masterObject_flags_independent _
           [Samples.kpi "dest-kpi" "Sum(Sales)" true]
           (Samples.kpi "dest-kpi" "Sum(Sales)" true) _ (Some (JStr "Sales KPI"))).
  - reflexivity.
  - reflexivity.
  - now left.
  - intros b [<- | []]. eexists. reflexivity.
  - intros b [<- | []]. discriminate.
  - reflexivity.
  - reflexivity.
  - reflexivity.
  - reflexivity.
  - vm_compute. reflexivity.
Defined.

(** ** Reading back what was split *)

Lemma starts_with_more (sep y r : string) :
  Js.starts_with sep y = true -> Js.starts_with sep (y +:+ r) = true.
Proof.
  revert y. induction sep as [|a l IH]; intros y; simpl; [reflexivity |].
  destruct y as [|b y]; [discriminate |]. simpl.
  destruct (Ascii.eqb a b); [apply IH | discriminate].
Qed.

Lemma starts_with_long (sep y r : string) :
  String.length sep <= String.length y ->
  Js.starts_with sep (y +:+ r) = Js.starts_with sep y.
Proof.
  revert y. induction sep as [|a l IH]; intros y; simpl; [reflexivity |].
  destruct y as [|b y]; simpl; [lia |]. intros Hlen.
  destruct (Ascii.eqb a b); [apply IH; lia | reflexivity].
Qed.

Lemma starts_with_other_char (sep y r : string) (c : ascii) :
  (forall x, In x (list_ascii_of_string sep) -> x <> c) ->
  String.length y < String.length sep ->
  Js.starts_with sep (y +:+ String c r) = false.
Proof.
  revert y. induction sep as [|a l IH]; intros y Hc; simpl; [lia |].
  destruct y as [|b y]; simpl; intros Hlen.
  - destruct (Ascii.eqb a c) eqn:E; [| reflexivity].
    apply Ascii.eqb_eq in E. exfalso. apply (Hc a); [now left | assumption].
  - destruct (Ascii.eqb a b); [| reflexivity].
    apply IH; [| lia]. intros x Hx. apply Hc. now right.
Qed.

Lemma starts_with_empty (sep : string) :
  sep <> EmptyString -> Js.starts_with sep EmptyString = false.
Proof. now destruct sep. Qed.

Lemma split_go_skip (sep x cur rest : string) :
  Js.split_go sep (String.length x) cur (x +:+ rest) = Js.split_go sep 0 cur rest.
Proof. induction x as [|c x IH]; simpl; [reflexivity | exact IH]. Qed.

Lemma split_go_at_sep (sep cur rest : string) :
  sep <> EmptyString ->
  Js.split_go sep 0 cur (sep +:+ rest) = cur :: Js.split_go sep 0 EmptyString rest.
Proof.
  intros Hsep. pose proof (starts_with_app sep rest) as Hs.
  destruct sep as [|c l] eqn:E; [contradiction |].
  change (String c l +:+ rest) with (String c (l +:+ rest)) in *.
  cbn [Js.split_go]. rewrite Hs. f_equal.
  replace (String.length (String c l) - 1) with (String.length l) by (simpl; lia).
  apply split_go_skip.
Qed.

Section Splitting.
Variable sep : string.
Hypothesis sep_not_empty : sep <> EmptyString.
Hypothesis sep_border_free :
  forall y rest, y <> EmptyString -> String.length y < String.length sep ->
                 Js.starts_with sep (y +:+ sep +:+ rest) = false.

Lemma no_occurrence_suffix (x y : string) :
  no_occurrence sep (x +:+ y) -> no_occurrence sep y.
Proof.
  intros Hno x' y' E. apply (Hno (x +:+ x') y'). now rewrite E, append_assoc.
Qed.

Lemma no_occurrence_prefix (x y : string) :
  no_occurrence sep (x +:+ y) -> no_occurrence sep x.
Proof.
  intros Hno x' y' E.
  destruct (Js.starts_with sep y') eqn:Es; [| reflexivity].
  apply (starts_with_more sep y' y) in Es.
  rewrite <- (Hno x' (y' +:+ y)); [now symmetry |].
  now rewrite E, append_assoc.
Qed.

Lemma no_match_before_sep (a rest : string) :
  no_occurrence sep a -> a <> EmptyString ->
  Js.starts_with sep (a +:+ sep +:+ rest) = false.
Proof.
  intros Hno Ha.
  destruct (Nat.lt_ge_cases (String.length a) (String.length sep)) as [Hlt | Hge].
  - now apply sep_border_free.
  - rewrite starts_with_long by assumption. now apply (Hno EmptyString a).
Qed.

Lemma no_match_at_end (a : string) :
  no_occurrence sep a -> Js.starts_with sep (a +:+ EmptyString) = false.
Proof. intros Hno. rewrite append_nil_r. now apply (Hno EmptyString a). Qed.

(** A piece without separator, followed by nothing or by a separator,
    is read in one go. *)
Lemma split_go_piece (a cur rest : string) :
  no_occurrence sep a ->
  rest = EmptyString \/ (exists rest', rest = sep +:+ rest') ->
  Js.split_go sep 0 cur (a +:+ rest) = Js.split_go sep 0 (cur +:+ a) rest.
Proof.
  intros Hno Hrest. revert cur. induction a as [|c a IH]; intros cur.
  - now rewrite append_nil_r.
  - change (String c a +:+ rest) with (String c (a +:+ rest)).
    cbn [Js.split_go].
    assert (Hhere : Js.starts_with sep (String c (a +:+ rest)) = false).
    { change (String c (a +:+ rest)) with (String c a +:+ rest).
      destruct Hrest as [-> | (rest' & ->)].
      - now apply no_match_at_end.
      - now apply no_match_before_sep. }
    rewrite Hhere, IH.
    + now rewrite append_assoc.
    + now apply (no_occurrence_suffix (String c EmptyString) a).
Qed.

(** Pieces without separator, each written after a separator, are read
    back as they are. *)
Lemma split_go_pieces (pieces : list string) (cur : string) :
  Forall (no_occurrence sep) pieces ->
  Js.split_go sep 0 cur (Js.concat_all (map (String.append sep) pieces))
  = cur :: pieces.
Proof.
  intros Hall. revert cur. induction Hall as [|a pieces Ha _ IH]; intros cur.
  - reflexivity.
  - cbn [map]. rewrite concat_all_cons, append_assoc, split_go_at_sep by assumption.
    f_equal. rewrite split_go_piece; [apply IH | assumption |].
    destruct pieces as [|b pieces]; [now left | right].
    cbn [map]. rewrite concat_all_cons, append_assoc. eauto.
Qed.

Lemma suffix_after_char (cur x y : string) (c : ascii) :
  cur +:+ String c EmptyString = x +:+ y -> y <> EmptyString ->
  exists y', y = y' +:+ String c EmptyString /\ cur = x +:+ y'.
Proof.
  revert x. induction cur as [|d cur IH]; intros x E Hy.
  - destruct x as [|e x]; simpl in E.
    + exists EmptyString. now split.
    + injection E as _ E. destruct x; [| discriminate].
      simpl in E. subst y. contradiction.
  - destruct x as [|e x]; simpl in E.
    + exists (String d cur). now split.
    + injection E as <- E. destruct (IH x E Hy) as (y' & -> & ->).
      exists y'. now split.
Qed.

(** What [split] gives has no separator inside. *)
Lemma split_go_clean (s : string) (skip : nat) (cur : string) :
  (skip <> 0 -> cur = EmptyString) ->
  (forall x y, cur = x +:+ y -> y <> EmptyString ->
               Js.starts_with sep (y +:+ s) = false) ->
  Forall (no_occurrence sep) (Js.split_go sep skip cur s).
Proof.
  assert (Hdone : forall cur s,
    (forall x y, cur = x +:+ y -> y <> EmptyString ->
                 Js.starts_with sep (y +:+ s) = false) ->
    no_occurrence sep cur).
  { intros cur0 s0 Hinv x y E.
    destruct y as [|c y]; [now apply starts_with_empty |].
    destruct (Js.starts_with sep (String c y)) eqn:Es; [| reflexivity].
    apply (starts_with_more sep _ s0) in Es.
    rewrite (Hinv x (String c y) E) in Es; [discriminate | discriminate]. }
  revert skip cur. induction s as [|c s IH]; intros skip cur Hskip Hinv.
  - simpl. constructor; [| constructor]. now apply (Hdone cur EmptyString).
  - cbn [Js.split_go]. destruct skip as [|k].
    + destruct (Js.starts_with sep (String c s)) eqn:Es.
      * constructor; [now apply (Hdone cur (String c s)) |].
        apply IH; [reflexivity |].
        intros x y E Hy. symmetry in E. destruct x; [| discriminate].
        simpl in E. contradiction.
      * apply IH; [congruence |].
        intros x y E Hy. destruct (suffix_after_char cur x y c E Hy) as (y' & -> & ->).
        rewrite append_assoc.
        change (String c EmptyString +:+ s) with (String c s).
        destruct y' as [|d y']; [exact Es |].
        now apply (Hinv x (String d y')).
    + rewrite (Hskip ltac:(discriminate)).
      apply IH; [reflexivity |].
      intros x y E Hy. symmetry in E. destruct x; [| discriminate].
      simpl in E. contradiction.
Qed.

Lemma split_clean (s : string) : Forall (no_occurrence sep) (Js.split sep s).
Proof.
  apply split_go_clean; [reflexivity |].
  intros x y E Hy. symmetry in E. destruct x; [| discriminate].
  simpl in E. contradiction.
Qed.

(** The first piece is the start of the text. *)
Lemma split_go_first (s cur p : string) (l : list string) :
  Js.split_go sep 0 cur s = p :: l -> exists r, cur +:+ s = p +:+ r.
Proof.
  revert cur. induction s as [|c s IH]; intros cur; cbn [Js.split_go].
  - intros [= <- _]. now exists EmptyString.
  - destruct (Js.starts_with sep (String c s)).
    + intros [= <- _]. now exists (String c s).
    + intros E. destruct (IH _ E) as (r & Hr). exists r.
      rewrite <- Hr, append_assoc. reflexivity.
Qed.

End Splitting.

(** ** Script sections: reading back the script that was written *)

(** Decides a test [starts_with] on texts whose first characters are
    known or variables. *)
Ltac decide_prefix :=
  cbn [Js.starts_with String.append];
  repeat (match goal with
          | |- context [Ascii.eqb ?a ?b] =>
              first [ is_var b; destruct (Ascii.eqb a b)
                    | let v := eval vm_compute in (Ascii.eqb a b) in
                      change (Ascii.eqb a b) with v ]
          end; cbv iota);
  reflexivity.

Lemma tab_marker_border_free (y rest : string) :
  y <> EmptyString -> String.length y < String.length TAB_MARKER ->
  Js.starts_with TAB_MARKER (y +:+ TAB_MARKER +:+ rest) = false.
Proof.
  intros Hy Hlen. unfold TAB_MARKER in *.
  destruct y as [|c y]; [contradiction |].
  do 7 (destruct y as [|? y]; [decide_prefix |]).
  simpl in Hlen. lia.
Qed.

Lemma crlf_border_free (y rest : string) :
  y <> EmptyString -> String.length y < String.length CRLF ->
  Js.starts_with CRLF (y +:+ CRLF +:+ rest) = false.
Proof.
  intros Hy Hlen. unfold CRLF in *.
  destruct y as [|c y]; [contradiction |].
  destruct y as [|d y]; [| simpl in Hlen; lia].
  decide_prefix.
Qed.

Lemma tab_marker_not_empty : TAB_MARKER <> EmptyString.
Proof. discriminate. Qed.

Lemma crlf_not_empty : CRLF <> EmptyString.
Proof. discriminate. Qed.

Lemma no_occurrence_empty (sep : string) :
  sep <> EmptyString -> no_occurrence sep EmptyString.
Proof.
  intros Hsep x y E. destruct x; [| discriminate]. simpl in E. subst y.
  now apply starts_with_empty.
Qed.

Lemma occurs_false (sep a : string) :
  occurs sep a = false -> no_occurrence sep a.
Proof.
  induction a as [|c a IH]; simpl; intros Hocc x y E.
  - destruct x; [| discriminate]. simpl in E. subst y.
    now apply orb_false_iff in Hocc.
  - apply orb_false_iff in Hocc as (Hhere & Hlater).
    destruct x as [|d x]; simpl in E.
    + now subst y.
    + injection E as _ E. now apply (IH Hlater x y).
Qed.

Lemma append_eq_append (a b x y : string) :
  a +:+ b = x +:+ y ->
  (exists m, a = x +:+ m /\ y = m +:+ b) \/ (exists m, x = a +:+ m /\ b = m +:+ y).
Proof.
  revert x. induction a as [|c a IH]; intros x E.
  - right. exists x. now split.
  - destruct x as [|d x].
    + left. exists (String c a). now split.
    + simpl in E. injection E as <- E.
      destruct (IH x E) as [(m & -> & ->) | (m & -> & ->)]; [left | right];
        exists m; now split.
Qed.

Lemma fragments_are_fragments (qScript : string) :
  Forall is_fragment (script.fragments qScript).
Proof.
  unfold script.fragments. apply List.Forall_forall. intros a Ha.
  apply filter_In in Ha as (Ha & Hne). split; [| assumption].
  pose proof (split_clean TAB_MARKER tab_marker_not_empty qScript) as Hclean.
  now apply (proj1 (List.Forall_forall _ _) Hclean).
Qed.

Lemma fragments_read_back (pieces : list string) :
  Forall is_fragment pieces ->
  script.fragments (Js.concat_all (map (String.append TAB_MARKER) pieces)) = pieces.
Proof.
  intros Hall. unfold script.fragments, Js.split.
  rewrite (split_go_pieces TAB_MARKER tab_marker_not_empty tab_marker_border_free).
  - simpl. induction Hall as [|a pieces [_ Ha] _ IH]; simpl; [reflexivity |].
    now rewrite Ha, IH.
  - eapply List.Forall_impl; [| exact Hall]. now intros a [Ha _].
Qed.

(** The first line of a fragment has no line end and no tab marker. *)
Lemma first_line_clean (a : string) :
  no_occurrence TAB_MARKER a ->
  no_occurrence CRLF (Js.first_piece CRLF a) /\
  no_occurrence TAB_MARKER (Js.first_piece CRLF a).
Proof.
  intros Ha. unfold Js.first_piece.
  pose proof (split_clean CRLF crlf_not_empty a) as Hclean.
  destruct (Js.split CRLF a) as [|p l] eqn:E.
  - split; apply no_occurrence_empty; discriminate.
  - split; [now inversion Hclean |].
    apply split_go_first in E as (r & Hr). simpl in Hr. subst a.
    now apply no_occurrence_prefix in Ha.
Qed.

Lemma first_line_read_back (t q : string) :
  no_occurrence CRLF t -> Js.first_piece CRLF (t +:+ CRLF +:+ q) = t.
Proof.
  intros Ht. unfold Js.first_piece, Js.split.
  rewrite (split_go_piece CRLF crlf_border_free) by eauto.
  now rewrite split_go_at_sep by discriminate.
Qed.

Lemma replacement_is_fragment (t q : string) :
  no_occurrence TAB_MARKER t -> no_occurrence TAB_MARKER q ->
  is_fragment (t +:+ CRLF +:+ q).
Proof.
  intros Ht Hq. split; [| destruct t; reflexivity].
  intros x y E. apply append_eq_append in E as [(m & -> & ->) | (m & -> & E)].
  - destruct (Nat.lt_ge_cases (String.length m) (String.length TAB_MARKER)) as [Hlt | Hge].
    + apply starts_with_other_char; [| assumption].
      intros c Hc. unfold TAB_MARKER in Hc. simpl in Hc.
      intuition (subst c; discriminate).
    + rewrite starts_with_long by assumption. now apply (Ht x m).
  - unfold CRLF in E.
    destruct m as [|c1 [|c2 m]]; simpl in E.
    + now subst y.
    + injection E as _ <-. reflexivity.
    + injection E as _ _ E. now apply (Hq m y).
Qed.

(** Reading the written script back gives the sections as they were,
    with the replacement in the place of the target. *)
Lemma update_read_back
  (props : script.Props) (data t : string)
  (pre post : list script.Section_) (a : script.Section_) :
  script.sections data = pre ++ a :: post ->
  script.sec_tab a = t ->
  no_occurrence TAB_MARKER (script.qScript props) ->
  script.sections
    (Js.concat_all (map script.section pre) +:+ replacement t props
       +:+ Js.concat_all (map script.section post))
  = pre ++ {| script.sec_tab := t; script.section := replacement t props |} :: post.
Proof.
  intros Hsec Ht Hq. unfold script.sections in Hsec.
  fold section_of in Hsec.
  apply List.map_eq_app in Hsec as (Fpre & Frest & Hfrag & <- & Hrest).
  apply List.map_eq_cons in Hrest as (fa & Fpost & -> & <- & <-).
  pose proof (fragments_are_fragments data) as Hall. rewrite Hfrag in Hall.
  apply Forall_app in Hall as (Hpre & Hrest). inversion Hrest as [|? ? [Hfa _] Hpost]; subst.
  destruct (first_line_clean fa Hfa) as (Hline & Hmark).
  cbn [script.sec_tab section_of].
  set (line := Js.first_piece CRLF fa) in *.
  assert (Hwritten :
    Js.concat_all (map script.section (map section_of Fpre))
      +:+ replacement line props
      +:+ Js.concat_all (map script.section (map section_of Fpost))
    = Js.concat_all (map (String.append TAB_MARKER)
                       (Fpre ++ (line +:+ CRLF +:+ script.qScript props) :: Fpost))).
  { rewrite !map_map. cbn [script.section section_of].
    now rewrite map_app, concat_all_app, map_cons, concat_all_cons. }
  rewrite Hwritten. unfold script.sections. fold section_of.
  rewrite fragments_read_back.
  - rewrite map_app, map_cons. f_equal. f_equal.
    unfold section_of. now rewrite first_line_read_back.
  - apply Forall_app. split; [assumption |].
    constructor; [now apply replacement_is_fragment | assumption].
Qed.

(** ** Script sections: add *)

Section ScriptImporter.
Context {World : Type} `{Engine World}.

Lemma call_resolved (c : Call) (s : State World) (r : outcome (Resp c)) (w : World) :
  engine_call c (world s) = (r, w) ->
  call c s = (r, mkState (log s ++ [c]) w).
Proof. intros E. unfold call. now rewrite E. Qed.


Lemma get_then_set (s : State World) (w : World) (written : string) :
  call (SetScript written) (mkState (log s ++ [GetScript]) w)
  = script_written s w written.
Proof.
  unfold call, script_written. simpl.
  destruct (engine_call (SetScript written) w) as [r w'].
  simpl. now rewrite <- app_assoc.
Qed.

(** C3. When the title of the section to add is the title of an existing
    tab, [script.add] writes the script followed by the new section under
    the title with [" (n)"] appended, [n] being the first of 1, 2, ...
    that gives a title no tab has. With the tabs [Main] and [Main (1)],
    a section [Main] becomes [Main (2)]. *)
Theorem script_add_renames_colliding_tab
  (props : script.Props) (s : State World) (data : string) (w : World) :
  engine_call GetScript (world s) = (Resolved data, w) ->
  In (script.tab props) (script.tabs data) ->
  (exists n,
      1 <= n /\
      ~ In (script.candidate (script.tab props) n) (script.tabs data) /\
      (forall m, 1 <= m < n ->
                 In (script.candidate (script.tab props) m) (script.tabs data)) /\
      script.add props s =
      script_written s w
        (data +:+ TAB_MARKER +:+ script.candidate (script.tab props) n
              +:+ CRLF +:+ script.qScript props))
  /\ script.unique_tab ["Main"; "Main (1)"] "Main" = Some "Main (2)".
Proof.
  intros Hget Hin. split; [| reflexivity].
  destruct (unique_tab_total (script.tabs data) (script.tab props)) as (t & Ht).
  pose proof Ht as Hloop. unfold script.unique_tab in Hloop.
  apply (rename_loop_sound _ _ _ 0) in Hloop as (n & _ & -> & Hfree & Hbusy).
  destruct n as [|n]; [contradiction |].
  exists (S n). repeat split.
  - lia.
  - assumption.
  - intros m Hm. specialize (Hbusy m). destruct m; [lia |]. apply Hbusy. lia.
  - unfold script.add, mbind, promise_mbind, and_then_p.
    rewrite (call_resolved _ _ _ _ Hget), Ht.
    apply get_then_set.
Qed.

(** ** Script sections: update *)

Lemma findIndex_Some {A} (p : A -> bool) (l : list A) (i : nat) :
  script.findIndex p l = Some i ->
  exists pre a post,
    l = pre ++ a :: post /\ length pre = i /\ p a = true /\
    Forall (fun x => p x = false) pre.
Proof.
  revert i. induction l as [|x l IH]; intros i; simpl; [discriminate |].
  destruct (p x) eqn:Ex.
  - intros [= <-]. exists [], x, l. repeat split; [assumption | constructor].
  - destruct (script.findIndex p l) as [j|]; simpl; [| discriminate].
    intros [= <-]. destruct (IH j eq_refl) as (pre & a & post & -> & <- & Ha & Hpre).
    exists (x :: pre), a, post. repeat split; [assumption | now constructor].
Qed.

Lemma findIndex_first {A} (p : A -> bool) (pre post : list A) (a : A) :
  Forall (fun x => p x = false) pre -> p a = true ->
  script.findIndex p (pre ++ a :: post) = Some (length pre).
Proof.
  induction 1 as [|x pre Hx _ IH]; intros Ha; simpl.
  - now rewrite Ha.
  - rewrite Hx, (IH Ha). reflexivity.
Qed.

Lemma findIndex_None {A} (p : A -> bool) (l : list A) :
  Forall (fun x => p x = false) l -> script.findIndex p l = None.
Proof.
  induction 1 as [|x l Hx _ IH]; simpl; [reflexivity |].
  now rewrite Hx, IH.
Qed.

Lemma alter_first_match {A} (f : A -> A) (pre post : list A) (a : A) :
  alter f (length pre) (pre ++ a :: post) = pre ++ f a :: post.
Proof. induction pre as [|x pre IH]; simpl; [reflexivity | now f_equal]. Qed.


Lemma update_first_match
  (props : script.Props) (options : Options) (s : State World)
  (data t : string) (w : World) (pre post : list script.Section_) (a : script.Section_) :
  engine_call GetScript (world s) = (Resolved data, w) ->
  targetId options = Target t ->
  script.sections data = pre ++ a :: post ->
  script.sec_tab a = t ->
  Forall (fun x => script.sec_tab x <> t) pre ->
  script.update props options s =
  script_written s w
    (Js.concat_all (map script.section pre) +:+ replacement t props
       +:+ Js.concat_all (map script.section post)).
Proof.
  intros Hget Ht Hsec Ha Hpre.
  unfold script.update, mbind, promise_mbind, and_then_p.
  rewrite (call_resolved _ _ _ _ Hget), Hsec, Ht.
  rewrite findIndex_first.
  - rewrite alter_first_match, map_app. simpl map.
    rewrite concat_all_app, concat_all_cons. simpl script.section.
    apply get_then_set.
  - eapply List.Forall_impl; [| exact Hpre]. simpl. intros x Hx.
    now apply String.eqb_neq.
  - simpl. now apply String.eqb_eq.
Qed.

(** C4. [script.update] rewrites the first section whose tab title is
    the target title and writes the other sections back as they are, in
    their order: read again, the written script has the sections it had,
    with the new text in the place of the target (the new text having no
    tab marker of its own). When no section has that title, the promise
    is rejected and [setScript] is not called. *)
Theorem script_update_rewrites_target_only
  (props : script.Props) (options : Options) (s : State World)
  (data : string) (w : World) :
  engine_call GetScript (world s) = (Resolved data, w) ->
  (forall t pre a post,
      targetId options = Target t ->
      script.sections data = pre ++ a :: post ->
      script.sec_tab a = t ->
      Forall (fun x => script.sec_tab x <> t) pre ->
      let written :=
        Js.concat_all (map script.section pre) +:+ replacement t props
          +:+ Js.concat_all (map script.section post) in
      script.update props options s = script_written s w written /\
      (no_occurrence TAB_MARKER (script.qScript props) ->
       script.sections written
       = pre ++ {| script.sec_tab := t; script.section := replacement t props |}
             :: post))
  /\ ((forall a, In a (script.sections data) ->
                 targetId options <> Target (script.sec_tab a)) ->
      exists reason,
        script.update props options s =
        (Rejected reason, mkState (log s ++ [GetScript]) w)).
Proof.
  intros Hget. split.
  - intros t pre a post Ht Hsec Ha Hpre written. split.
    + eapply update_first_match; eassumption.
    + intros Hq. now apply update_read_back with (data := data) (a := a).
  - intros Hnone. eexists.
    unfold script.update, mbind, promise_mbind, and_then_p.
    rewrite (call_resolved _ _ _ _ Hget), findIndex_None; [reflexivity |].
    apply List.Forall_forall. intros a Ha. specialize (Hnone a Ha).
    unfold script.is_target. destruct (targetId options) as [| |t]; try reflexivity.
    apply String.eqb_neq. congruence.
Qed.

(** C10. When several sections carry the target title, [script.update]
    rewrites the first of them only: every section after it, with the
    same title or not, is written back as it is and is found again when
    the written script is read. *)
Theorem script_update_rewrites_first_duplicate_only
  (props : script.Props) (options : Options) (s : State World)
  (data t : string) (w : World)
  (pre between post : list script.Section_) (first later : script.Section_) :
  engine_call GetScript (world s) = (Resolved data, w) ->
  targetId options = Target t ->
  script.sections data = pre ++ first :: between ++ later :: post ->
  Forall (fun x => script.sec_tab x <> t) pre ->
  script.sec_tab first = t ->
  script.sec_tab later = t ->
  let written :=
    Js.concat_all (map script.section pre) +:+ replacement t props
      +:+ Js.concat_all (map script.section between)
      +:+ script.section later
      +:+ Js.concat_all (map script.section post) in
  script.update props options s = script_written s w written /\
  (no_occurrence TAB_MARKER (script.qScript props) ->
   script.sections written
   = pre ++ {| script.sec_tab := t; script.section := replacement t props |}
         :: between ++ later :: post).
Proof.
  intros Hget Ht Hsec Hpre Hfirst _ written.
  assert (Hwritten :
    written = Js.concat_all (map script.section pre) +:+ replacement t props
                +:+ Js.concat_all (map script.section (between ++ later :: post))).
  { unfold written. now rewrite map_app, concat_all_app, map_cons, concat_all_cons. }
  rewrite Hwritten. split.
  - eapply update_first_match; eassumption.
  - intros Hq. now apply update_read_back with (data := data) (a := first).
Qed.

End ScriptImporter.

Lemma script_add_renames_colliding_tab_witness :
  ((exists n,
       1 <= n /\
       ~ In (script.candidate "Main" n) (script.tabs Samples.two_tabs) /\
       (forall m, 1 <= m < n ->
                  In (script.candidate "Main" m) (script.tabs Samples.two_tabs)) /\
       script.add (script.mkProps "Main" "LOAD 3;") (Samples.document Samples.two_tabs) =
       script_written (Samples.document Samples.two_tabs)
         (Demo.mkWorld Samples.two_tabs [] [] [])
         (Samples.two_tabs +:+ TAB_MARKER +:+ script.candidate "Main" n
            +:+ CRLF +:+ "LOAD 3;"))
   /\ script.unique_tab ["Main"; "Main (1)"] "Main" = Some "Main (2)")
  /\ Demo.w_script
       (world (snd (script.add (script.mkProps "Main" "LOAD 3;")
                      (Samples.document Samples.two_tabs))))
     = Samples.two_tabs +:+ "///$tab Main (2)" +:+ CRLF +:+ "LOAD 3;".
Proof.
  split.
  - apply (script_add_renames_colliding_tab
             (script.mkProps "Main" "LOAD 3;") (Samples.document Samples.two_tabs)
             Samples.two_tabs (Demo.mkWorld Samples.two_tabs [] [] [])).
    + reflexivity.
    + vm_compute. left. reflexivity.
  - vm_compute. reflexivity.
Defined.

Lemma script_update_rewrites_target_only_witness :
  let main1 := script.mkSection "Main (1)"
                 ("///$tab Main (1)" +:+ CRLF +:+ "LOAD 2;" +:+ CRLF) in
  let props := script.mkProps "Main" "LOAD 9;" in
  let written := Js.concat_all (map script.section [])
                   +:+ replacement "Main" props
                   +:+ Js.concat_all (map script.section [main1]) in
  script.update props (Samples.update_options (Target "Main"))
    (Samples.document Samples.two_tabs)
  = script_written (Samples.document Samples.two_tabs)
      (Demo.mkWorld Samples.two_tabs [] [] []) written
  /\ script.sections written
     = [script.mkSection "Main" (replacement "Main" props); main1]
  /\ script.update (script.mkProps "Other" "LOAD 9;")
       (Samples.update_options (Target "Other")) (Samples.document Samples.two_tabs)
     = (Rejected "Script section not updated: could not find section with title 'Other'",
        mkState [GetScript] (Demo.mkWorld Samples.two_tabs [] [] [])).
Proof.
  cbv zeta.
  destruct (script_update_rewrites_target_only
              (script.mkProps "Main" "LOAD 9;") (Samples.update_options (Target "Main"))
              (Samples.document Samples.two_tabs) Samples.two_tabs
              (Demo.mkWorld Samples.two_tabs [] [] []) eq_refl) as [Hfound _].
  destruct (Hfound "Main" []
              (script.mkSection "Main" ("///$tab Main" +:+ CRLF +:+ "LOAD 1;" +:+ CRLF))
              [script.mkSection "Main (1)"
                 ("///$tab Main (1)" +:+ CRLF +:+ "LOAD 2;" +:+ CRLF)]
              eq_refl eq_refl eq_refl (List.Forall_nil _)) as [Hupdate Hread].
  split; [exact Hupdate | split].
  - apply Hread. apply occurs_false. reflexivity.
  - vm_compute. reflexivity.
Defined.

Lemma script_update_rewrites_first_duplicate_only_witness :
  let main := script.mkSection "Main"
                ("///$tab Main" +:+ CRLF +:+ "SET x=1;" +:+ CRLF) in
  let data2 := script.mkSection "Data"
                 ("///$tab Data" +:+ CRLF +:+ "LOAD b;" +:+ CRLF) in
  let props := script.mkProps "Data" "LOAD c;" in
  let written := Js.concat_all (map script.section [main])
                   +:+ replacement "Data" props
                   +:+ Js.concat_all (map script.section [])
                   +:+ script.section data2
                   +:+ Js.concat_all (map script.section []) in
  script.update props (Samples.update_options (Target "Data"))
    (Samples.document Samples.twice_data)
  = script_written (Samples.document Samples.twice_data)
      (Demo.mkWorld Samples.twice_data [] [] []) written
  /\ script.sections written
     = [main; script.mkSection "Data" (replacement "Data" props); data2].
Proof.
  cbv zeta.
  assert (Hpre : Forall (fun x => script.sec_tab x <> "Data")
                   [script.mkSection "Main"
                      ("///$tab Main" +:+ CRLF +:+ "SET x=1;" +:+ CRLF)])
    by (repeat constructor; discriminate).
  destruct (script_update_rewrites_first_duplicate_only
              (script.mkProps "Data" "LOAD c;") (Samples.update_options (Target "Data"))
              (Samples.document Samples.twice_data) Samples.twice_data "Data"
              (Demo.mkWorld Samples.twice_data [] [] [])
              [script.mkSection "Main" ("///$tab Main" +:+ CRLF +:+ "SET x=1;" +:+ CRLF)]
              [] []
              (script.mkSection "Data" ("///$tab Data" +:+ CRLF +:+ "LOAD a;" +:+ CRLF))
              (script.mkSection "Data" ("///$tab Data" +:+ CRLF +:+ "LOAD b;" +:+ CRLF))
              eq_refl eq_refl eq_refl Hpre eq_refl eq_refl) as [Hupdate Hread].
  split; [exact Hupdate |].
  apply Hread. apply occurs_false. reflexivity.
Defined.

(** ** Variables: the update that falls back to an add *)

Section VariableImporter.
Context {World : Type} `{Engine World}.

(** C5, amended. When the engine does not find the variable to update,
    [variable.update] creates it by [variable.add]; when that succeeds
    for an item marked as updatable, [updateItem] leaves the item with
    [updated] and [exists] set, [updatable] cleared and no failure flag,
    and does not touch [imported]. *)
Theorem variable_update_falls_back_to_add
  (appDataId : string) (it : PreparedItem) (kv : list (string * json))
  (s : State World) (reason : string) (w1 w2 : World) :
  type (item it) = TVariable ->
  properties (item it) = ObjectProps kv ->
  updatable (status it) = true ->
  updated (status it) = false ->
  updateFailed (status it) = false ->
  engine_call (variable_lookup it kv) (world s) = (Rejected reason, w1) ->
  engine_call (variable_create kv) w1 = (Resolved tt, w2) ->
  let r := updateItem appDataId it s in
  completed r = Returned (Resolved tt) /\
  state_after r = mkState (log s ++ [variable_lookup it kv; variable_create kv]) w2 /\
  updated (status (item_after r)) = true /\
  exists_ (status (item_after r)) = true /\
  updatable (status (item_after r)) = false /\
  updating (status (item_after r)) = false /\
  updateFailed (status (item_after r)) = false /\
  imported (status (item_after r)) = imported (status it) /\
  importFailed (status (item_after r)) = importFailed (status it).
Proof.
  intros Et Ep Hu Hd Hf Hlookup Hcreate.
  assert (Hrun : variable.update kv
                   {| appId := Some appDataId;
                      targetId := if Js.truthy (updatableTargetId it)
                                  then Target (updatableTargetId it) else FalseTarget;
                      sheetsMaxRank := None; sheetObjects := None;
                      importAlternateStates := None |} s
                 = (Resolved tt,
                    mkState (log s ++ [variable_lookup it kv; variable_create kv]) w2)).
  { unfold variable.update, variable_lookup in *.
    destruct (Js.truthy (updatableTargetId it)) eqn:Etid;
      unfold target_given; cbn [targetId].
    - rewrite Etid. rewrite (call_resolved _ _ _ _ Hlookup).
      unfold variable.add. fold (variable_create kv).
      erewrite call_resolved by (simpl; exact Hcreate).
      simpl. now rewrite <- app_assoc.
    - rewrite (call_resolved _ _ _ _ Hlookup).
      unfold variable.add. fold (variable_create kv).
      erewrite call_resolved by (simpl; exact Hcreate).
      simpl. now rewrite <- app_assoc. }
  unfold updateItem, updateSingleItem, importer_update.
  rewrite Et, Ep, Hu, Hd, Hf. simpl fields_of. cbv iota. simpl negb. simpl andb.
  cbv iota. rewrite Hrun. simpl. repeat split. exact Hf.
Qed.

End VariableImporter.

(** C5, as stated, fails: after the update that fell back to creating
    [vToday], the item is marked [updated], not [imported]. *)
Lemma variable_update_fallback_marks_updated :
  let r := updateItem "source-app" Samples.vToday (Samples.document EmptyString) in
  completed r = Returned (Resolved tt) /\
  log (state_after r) =
    [GetVariableById "stale-var";
     variable_create Samples.vToday_fields] /\
  length (Demo.w_variables (world (state_after r))) = 1 /\
  imported (status (item_after r)) = false /\
  updated (status (item_after r)) = true.
Proof. cbv zeta. vm_compute. repeat split. Qed.

Lemma variable_update_falls_back_to_add_witness :
  let r := updateItem "source-app" Samples.vToday (Samples.document EmptyString) in
  completed r = Returned (Resolved tt) /\
  state_after r =
    mkState ([] ++ [variable_lookup Samples.vToday Samples.vToday_fields;
                    variable_create Samples.vToday_fields])
            (Demo.mkWorld EmptyString
               [[("qInfo", JObj [("qId", JStr "source-var"); ("qType", JStr "variable")]);
                 ("qName", JStr "vToday");
                 ("qDefinition", JStr "=Today()");
                 ("qMetaDef", JObj [])]] [] []) /\
  updated (status (item_after r)) = true /\
  exists_ (status (item_after r)) = true /\
  updatable (status (item_after r)) = false /\
  updating (status (item_after r)) = false /\
  updateFailed (status (item_after r)) = false /\
  imported (status (item_after r)) = false /\
  importFailed (status (item_after r)) = false.
Proof.
  apply (variable_update_falls_back_to_add "source-app" Samples.vToday
           Samples.vToday_fields (Samples.document EmptyString)
           "Variable not found" (Demo.mkWorld EmptyString [] [] [])).
  - reflexivity.
  - reflexivity.
  - reflexivity.
  - reflexivity.
  - reflexivity.
  - reflexivity.
  - reflexivity.
Defined.

(** ** Sheets: what the engine is asked to write *)

Section SheetImporter.
Context {World : Type} `{Engine World}.

Lemma grows_refl (P : Call -> Prop) (s : State World) : grows P s s.
Proof. exists []. split; [now rewrite app_nil_r | constructor]. Qed.

Lemma grows_trans (P : Call -> Prop) (s1 s2 s3 : State World) :
  grows P s1 s2 -> grows P s2 s3 -> grows P s1 s3.
Proof.
  intros (l1 & E1 & F1) (l2 & E2 & F2). exists (l1 ++ l2). split.
  - now rewrite E2, E1, <- app_assoc.
  - apply Forall_app. now split.
Qed.

Lemma grows_call (P : Call -> Prop) (c : Call) (s : State World) :
  P c -> grows P s (snd (call c s)).
Proof.
  intros Hc. unfold call. destruct (engine_call c (world s)) as [r w]. simpl.
  exists [c]. split; [reflexivity | now constructor].
Qed.

Ltac next_call P :=
  match goal with
  | |- context [call ?c ?s] =>
      let G := fresh "G" in
      assert (G : grows P s (snd (call c s))) by (apply grows_call; simpl; auto);
      destruct (call c s) as [[?|?|] ?]; cbv beta iota delta [snd] in G
  end.

Ltac chain :=
  repeat match goal with
         | |- grows _ ?a ?a => apply grows_refl
         | H : grows ?P ?a ?b |- grows ?P ?a ?b => exact H
         | H : grows ?P ?a ?b |- grows ?P ?a ?c => apply (grows_trans P a b c H); clear H
         end.

Ltac grown := cbv beta iota delta [snd fst]; try solve [chain].

Lemma load_cells_grows (P : Call -> Prop) (app : handle) (cells : list json) :
  (forall name, P (GetObjectProperties app name)) ->
  forall (acc : Promise World (list json)),
    (forall s, grows P s (snd (acc s))) ->
    forall s,
      grows P s
        (snd (fold_left (fun promise cell =>
                           loaded ← promise;
                           name ← of_exn (Json.get_prop (Some cell) "name");
                           a ← call (GetObjectProperties app name);
                           resolve (loaded ++ [sheet.tree_of a]))
                        cells acc s)).
Proof.
  intros HP. induction cells as [|cell cells IH]; intros acc Hacc s; cbn [fold_left].
  - apply Hacc.
  - apply IH. clear s. intros s.
    unfold mbind, promise_mbind, and_then_p.
    specialize (Hacc s).
    destruct (acc s) as [[loaded| |] s1]; cbv beta iota delta [snd] in Hacc; grown.
    destruct (Json.get_prop (Some cell) "name") as [name|e];
      unfold of_exn, resolve, reject; grown.
    assert (G : grows P s1 (snd (call (GetObjectProperties app name) s1)))
      by (apply grows_call, HP).
    destruct (call (GetObjectProperties app name) s1) as [[a| |] s2];
      cbv beta iota delta [snd] in G; grown.
Qed.

Lemma write_grows (props : list (string * json)) (options : Options)
  (targetObject : option handle) (sheetObjects : option (list json)) (s : State World) :
  grows (writes_as_given props options) s
    (snd (sheet.write props options targetObject sheetObjects s)).
Proof.
  unfold sheet.write.
  destruct targetObject as [t|]; unfold mbind, promise_mbind, and_then_p.
  - next_call (writes_as_given props options); unfold resolve; grown.
    next_call (writes_as_given props options); grown.
    destruct (sheet.with_children _ _); grown.
    next_call (writes_as_given props options); grown.
  - next_call (writes_as_given props options); grown.
    next_call (writes_as_given props options); grown.
    destruct (sheet.with_children _ _); grown.
    next_call (writes_as_given props options); grown.
Qed.

(** The requirements issue their own calls only, and give a target
    object exactly when a target id is given. *)
Lemma requirements_run (P : Call -> Prop)
  (props : list (string * json)) (options : Options) (s : State World) :
  (forall t, target_given (targetId options) = Some t -> P (GetObject (Some (JStr t)))) ->
  (forall a, P (OpenApp a)) ->
  (forall a n, P (GetObjectProperties a n)) ->
  (forall n, P (AddAlternateState n)) ->
  grows P s (snd (sheet.requirements props options s)) /\
  forall targetObject objects,
    fst (sheet.requirements props options s) = Resolved (targetObject, objects) ->
    (targetObject = None <-> target_given (targetId options) = None).
Proof.
  intros Hget Hopen Hprops Hstate.
  assert (Hstarted : forall (rTarget : outcome handle)
                            (load : Promise World (option (list json))) s2,
    (forall s0, grows P s0 (snd (load s0))) ->
    let r : outcome (option handle * option (list json)) * State World :=
             (let (rStates, s3) :=
                if default true (importAlternateStates options)
                then alternateState.add (Json.assoc "qStateName" props) s2
                else (Resolved tt, s2) in
              let (rObjects, s4) := load s3 in
              (match sheet.all3 rTarget rStates rObjects with
               | Resolved (t, _, objects) =>
                   Resolved (_ ← target_given (targetId options); Some t, objects)
               | Rejected e => Rejected e
               | Pending => Pending
               end, s4)) in
    grows P s2 (snd r) /\
    forall targetObject objects,
      fst r = Resolved (targetObject, objects) ->
      (targetObject = None <-> target_given (targetId options) = None)).
  { intros rTarget load s2 Hload. cbv zeta.
    assert (Hstates : grows P s2
              (snd (if default true (importAlternateStates options)
                    then alternateState.add (Json.assoc "qStateName" props) s2
                    else (Resolved tt, s2)))).
    { destruct (default true (importAlternateStates options)).
      - unfold alternateState.add.
        exact (grows_call P (AddAlternateState (Json.assoc "qStateName" props)) s2
                 (Hstate _)).
      - apply grows_refl. }
    destruct (if default true (importAlternateStates options) then _ else _)
      as [rStates s3]. simpl in Hstates.
    specialize (Hload s3). destruct (load s3) as [rObjects s4]. simpl in Hload.
    split; [eapply grows_trans; eassumption |].
    intros targetObject objects. cbv beta iota delta [fst].
    destruct (sheet.all3 rTarget rStates rObjects) as [[[t u] objs]| |];
      try discriminate.
    intros [= <- _].
    destruct (target_given (targetId options)); simpl; split; congruence. }
  assert (Hdone : forall s1 s2 (r : outcome (option handle * option (list json))
                                    * State World),
            grows P s s1 -> grows P s1 s2 ->
            (grows P s2 (snd r) /\
             forall targetObject objects,
               fst r = Resolved (targetObject, objects) ->
               (targetObject = None <-> target_given (targetId options) = None)) ->
            grows P s (snd r) /\
            forall targetObject objects,
              fst r = Resolved (targetObject, objects) ->
              (targetObject = None <-> target_given (targetId options) = None)).
  { intros s1 s2 r H1 H2 (H3 & H4). split; [| exact H4].
    eapply grows_trans; [exact H1 |]. eapply grows_trans; eassumption. }
  unfold sheet.requirements. cbv zeta.
  assert (Htarget : grows P s
            (snd (match target_given (targetId options) with
                  | Some t => call (GetObject (Some (JStr t))) s
                  | None => (Resolved EmptyString, s)
                  end))).
  { destruct (target_given (targetId options)) as [t|] eqn:Et.
    - exact (grows_call P (GetObject (Some (JStr t))) s (Hget t eq_refl)).
    - apply grows_refl. }
  destruct (match target_given (targetId options) with
            | Some t => call (GetObject (Some (JStr t))) s
            | None => (Resolved EmptyString, s)
            end) as [rTarget s1]. simpl in Htarget.
  assert (Hnone : forall e (s2 : State World),
            grows P s1 s2 ->
            grows P s s2 /\
            forall (targetObject : option handle) (objects : option (list json)),
              Rejected e = Resolved (targetObject, objects) ->
              (targetObject = None <-> target_given (targetId options) = None)).
  { intros e s2 H2. split; [eapply grows_trans; eassumption | discriminate]. }
  destruct (sheetObjects options) as [given|].
  - apply (Hdone s1 s1); [assumption | apply grows_refl |].
    apply Hstarted. intros s0. apply grows_refl.
  - destruct (appId options) as [app|].
    + destruct (Js.truthy app).
      * assert (G : grows P s1 (snd (call (OpenApp (Some app)) s1)))
          by exact (grows_call P (OpenApp (Some app)) s1 (Hopen _)).
        destruct (call (OpenApp (Some app)) s1) as [[h|e|] s2];
          cbv beta iota delta [snd fst] in *.
        -- destruct (Json.assoc "cells" props) as [[| | | |cells|]|];
             try (apply (Hnone TypeError s2 G)).
           apply (Hdone s1 s2); [assumption | assumption |].
           apply Hstarted. intros s0.
           unfold mbind, promise_mbind, and_then_p.
           assert (Hcells : grows P s0 (snd (sheet.load_cells h cells s0))).
           { apply load_cells_grows; [intros name; apply Hprops |].
             intros s'; apply grows_refl. }
           destruct (sheet.load_cells h cells s0) as [[l| |] s3]; exact Hcells.
        -- apply (Hnone e s2 G).
        -- split; [eapply grows_trans; eassumption | discriminate].
      * apply (Hdone s1 s1); [assumption | apply grows_refl |].
        apply Hstarted. intros s0. apply grows_refl.
    + apply (Hdone s1 s1); [assumption | apply grows_refl |].
      apply Hstarted. intros s0. apply grows_refl.
Qed.

Lemma add_grows (props : list (string * json)) (options : Options) (s : State World) :
  grows (writes_as_given props options) s (snd (sheet.add props options s)).
Proof.
  destruct (requirements_run (writes_as_given props options) props options s)
    as (Hreq & _); try (intros; exact I).
  unfold sheet.add.
  destruct (sheet.requirements props options s) as [[[targetObject objects]| |] s'];
    cbv beta iota delta [snd] in *; try exact Hreq.
  eapply grows_trans; [exact Hreq | apply write_grows].
Qed.

End SheetImporter.

(** ** Sheets: rank and publish metadata *)

Lemma assoc_set_field_eq (k : string) (v : json) (kv : list (string * json)) :
  Json.assoc k (Json.set_field k v kv) = Some v.
Proof.
  induction kv as [|[k' v'] kv IH]; simpl.
  - now rewrite String.eqb_refl.
  - destruct (String.eqb k k') eqn:E; simpl; rewrite ?String.eqb_refl, ?E; auto.
Qed.

Lemma assoc_set_field_ne (k k' : string) (v : json) (kv : list (string * json)) :
  k <> k' -> Json.assoc k (Json.set_field k' v kv) = Json.assoc k kv.
Proof.
  intros Hne. apply String.eqb_neq in Hne.
  induction kv as [|[k2 v2] kv IH]; simpl.
  - now rewrite Hne.
  - destruct (String.eqb k' k2) eqn:E; simpl.
    + apply String.eqb_eq in E. subst k2. now rewrite Hne.
    + now rewrite IH.
Qed.

Lemma assoc_without (k : string) (keys : list string) (kv : list (string * json)) :
  Json.assoc k (List.filter (fun p => negb (Js.includes (fst p) keys)) kv)
  = if Js.includes k keys then None else Json.assoc k kv.
Proof.
  induction kv as [|[k' v'] kv IH]; simpl.
  - now destruct (Js.includes k keys).
  - destruct (Js.includes k' keys) eqn:Ek'; simpl.
    + rewrite IH. destruct (String.eqb k k') eqn:E; [| reflexivity].
      apply String.eqb_eq in E. subst k'. now rewrite Ek'.
    + rewrite IH. destruct (String.eqb k k') eqn:E; [| reflexivity].
      apply String.eqb_eq in E. subst k'. now rewrite Ek'.
Qed.

(** What [sanitizeObjectData] gives: no [qMeta], and a [qMetaDef]
    without the publish fields and with every other field it had. *)
Lemma sanitizeObjectData_strips (qData : list (string * json)) :
  exists fields meta,
    sanitizeObjectData qData = JObj fields /\
    Json.assoc "qMeta" fields = None /\
    Json.assoc "qMetaDef" fields = Some (JObj meta) /\
    (forall k, In k PUBLISH_META_FIELDS -> Json.assoc k meta = None) /\
    (forall k old, ~ In k PUBLISH_META_FIELDS ->
                   Json.assoc "qMetaDef" qData = Some (JObj old) ->
                   Json.assoc k meta = Json.assoc k old).
Proof.
  unfold sanitizeObjectData, Json.omit at 1.
  set (meta := Json.omit (Json.assoc "qMetaDef" qData) PUBLISH_META_FIELDS).
  assert (Hmeta : exists m, meta = JObj m /\
            (forall k, In k PUBLISH_META_FIELDS -> Json.assoc k m = None) /\
            (forall k old, ~ In k PUBLISH_META_FIELDS ->
                           Json.assoc "qMetaDef" qData = Some (JObj old) ->
                           Json.assoc k m = Json.assoc k old)).
  { unfold meta, Json.omit.
    destruct (Json.assoc "qMetaDef" qData) as [[| | | | |old]|];
      try (exists []; split; [reflexivity | split; [reflexivity | discriminate]]).
    exists (List.filter (fun p => negb (Js.includes (fst p) PUBLISH_META_FIELDS)) old).
    split; [reflexivity | split].
    - intros k Hk. rewrite assoc_without.
      apply includes_In in Hk. now rewrite Hk.
    - intros k old' Hk [= <-]. rewrite assoc_without.
      apply includes_false in Hk. now rewrite Hk. }
  destruct Hmeta as (m & Em & Hstripped & Hkept).
  eexists. exists m. repeat split.
  - now rewrite assoc_without.
  - rewrite assoc_without. simpl Js.includes. cbv iota.
    rewrite assoc_set_field_eq. now f_equal.
  - assumption.
  - assumption.
Qed.

Section SheetProperties.
Context {World : Type} `{Engine World}.

Ltac next_call P :=
  match goal with
  | |- context [call ?c ?s] =>
      let G := fresh "G" in
      assert (G : grows P s (snd (call c s))) by (apply grows_call; exact I);
      destruct (call c s) as [[?|?|] ?]; cbv beta iota delta [snd] in G
  end.

Ltac chain :=
  repeat match goal with
         | |- grows _ ?a ?a => apply grows_refl
         | H : grows ?P ?a ?b |- grows ?P ?a ?b => exact H
         | H : grows ?P ?a ?b |- grows ?P ?a ?c => apply (grows_trans P a b c H); clear H
         end.

Lemma issued_after (P : Call -> Prop) (c : Call) (s1 s2 s3 : State World) :
  grows P s1 s2 -> issued_between c s2 s3 -> issued_between c s1 s3.
Proof.
  intros (l1 & E1 & _) (l2 & E2 & Hin). exists (l1 ++ l2). split.
  - now rewrite E2, E1, <- app_assoc.
  - apply in_or_app. now right.
Qed.

Lemma issued_before (P : Call -> Prop) (c : Call) (s1 s2 s3 : State World) :
  issued_between c s1 s2 -> grows P s2 s3 -> issued_between c s1 s3.
Proof.
  intros (l1 & E1 & Hin) (l2 & E2 & _). exists (l1 ++ l2). split.
  - now rewrite E2, E1, <- app_assoc.
  - apply in_or_app. now left.
Qed.

Lemma issued_call (c : Call) (s : State World) : issued_between c s (snd (call c s)).
Proof.
  unfold call. destruct (engine_call c (world s)) as [r w]. simpl.
  exists [c]. split; [reflexivity | now left].
Qed.

Lemma write_resolved (props : list (string * json)) (options : Options)
  (targetObject : option handle) (sheetObjects : option (list json)) (s : State World) :
  fst (sheet.write props options targetObject sheetObjects s) = Resolved tt ->
  issued_between (write_call props options targetObject) s
    (snd (sheet.write props options targetObject sheetObjects s)).
Proof.
  set (P := fun _ : Call => True).
  unfold sheet.write, write_call.
  destruct targetObject as [t|]; unfold mbind, promise_mbind, and_then_p.
  - pose proof (issued_call (SetProperties t (JObj props)) s) as Hfirst.
    destruct (call (SetProperties t (JObj props)) s) as [[u| |] s1];
      unfold resolve; cbv beta iota delta [snd fst] in *;
      try (intros Hd; discriminate Hd).
    assert (Hrest : grows P s1
              (snd (match call (GetFullPropertyTree t) s1 with
                    | (Resolved propertyTree, s2) =>
                        match sheet.with_children propertyTree sheetObjects with
                        | Val tree =>
                            match call (SetFullPropertyTree t tree) s2 with
                            | (Resolved _, s3) => (Resolved tt, s3)
                            | (_, s3) => (Pending, s3)
                            end
                        | Throw _ => (Pending, s2)
                        end
                    | (_, s2) => (Pending, s2)
                    end))).
    { next_call P; cbv beta iota delta [snd]; try solve [chain].
      destruct (sheet.with_children _ _); cbv beta iota delta [snd]; try solve [chain].
      next_call P; cbv beta iota delta [snd]; chain. }
    intros _. eapply issued_before; eassumption.
  - pose proof (issued_call (CreateObject (JObj (sheet.push_rank options props))) s)
      as Hfirst.
    destruct (call (CreateObject (JObj (sheet.push_rank options props))) s)
      as [[sheet| |] s1]; cbv beta iota delta [snd fst] in *;
      try (intros Hd; discriminate Hd).
    assert (Hrest : grows P s1
              (snd (match call (GetFullPropertyTree sheet) s1 with
                    | (Resolved propertyTree, s2) =>
                        match sheet.with_children propertyTree sheetObjects with
                        | Val tree =>
                            match call (SetFullPropertyTree sheet tree) s2 with
                            | (Resolved _, s3) => (Resolved tt, s3)
                            | (_, s3) => (Pending, s3)
                            end
                        | Throw _ => (Pending, s2)
                        end
                    | (_, s2) => (Pending, s2)
                    end))).
    { next_call P; cbv beta iota delta [snd]; try solve [chain].
      destruct (sheet.with_children _ _); cbv beta iota delta [snd]; try solve [chain].
      next_call P; cbv beta iota delta [snd]; chain. }
    intros _. eapply issued_before; eassumption.
Qed.

(** When [sheet.add] is resolved, it went through [write]. *)
Lemma add_resolved (props : list (string * json)) (options : Options) (s : State World) :
  fst (sheet.add props options s) = Resolved tt ->
  exists targetObject,
    (targetObject = None <-> target_given (targetId options) = None) /\
    issued_between (write_call props options targetObject) s
      (snd (sheet.add props options s)).
Proof.
  set (P := fun _ : Call => True).
  destruct (requirements_run P props options s) as (Hreq & Htarget);
    try (intros; exact I).
  unfold sheet.add.
  destruct (sheet.requirements props options s) as [[[targetObject objects]| |] s'];
    cbv beta iota delta [snd fst] in *; try discriminate.
  intros Hres. exists targetObject.
  split; [now apply (Htarget targetObject objects) |].
  eapply issued_after; [exact Hreq | now apply write_resolved].
Qed.

(** C7, amended. [sheet.add] hands the properties of the sheet to the
    engine as they are given, but for the rank, and strips nothing from
    them: every [createObject] and [setProperties] it issues carries
    them; when it is resolved it has issued the one of the two,
    [createObject] without a target and [setProperties] with one; and
    what [createObject] receives has every property but [rank] as it was
    given, [qMetaDef] with its publish fields and [qMeta] among them. *)
Theorem sheet_add_writes_properties_as_given
  (props : list (string * json)) (options : Options) (s : State World) :
  exists issued,
    log (snd (sheet.add props options s)) = log s ++ issued /\
    Forall (writes_as_given props options) issued /\
    (fst (sheet.add props options s) = Resolved tt ->
     match target_given (targetId options) with
     | None => In (CreateObject (JObj (sheet.push_rank options props))) issued
     | Some _ => exists target, In (SetProperties target (JObj props)) issued
     end) /\
    (forall k, k <> "rank" ->
               Json.assoc k (sheet.push_rank options props) = Json.assoc k props).
Proof.
  destruct (add_grows props options s) as (issued & Hlog & Hall).
  exists issued. split; [assumption |]. split; [assumption |]. split.
  - intros Hres.
    destruct (add_resolved props options s Hres)
      as (targetObject & Hnone & l & Hl & Hin).
    assert (l = issued) as ->.
    { rewrite Hlog in Hl. now apply app_inv_head in Hl. }
    destruct (target_given (targetId options)) as [t|].
    + destruct targetObject as [target|].
      * exists target. exact Hin.
      * destruct Hnone as [Hnone _]. now specialize (Hnone eq_refl).
    + destruct targetObject as [target|]; [| exact Hin].
      destruct Hnone as [_ Hnone]. now specialize (Hnone eq_refl).
  - intros k Hk. unfold sheet.push_rank.
    destruct (sheetsMaxRank options) as [m|]; [| reflexivity].
    destruct (Z.eqb m 0); [reflexivity |].
    now apply assoc_set_field_ne.
Qed.

(** When the greatest rank of the current sheets is not 0, the new sheet
    gets that rank plus one. *)
Lemma push_rank_after_last (props : list (string * json)) (options : Options) (m : Z) :
  sheetsMaxRank options = Some m -> m <> 0%Z ->
  Json.assoc "rank" (sheet.push_rank options props) = Some (JNum (m + 1)).
Proof.
  intros Em Hm. unfold sheet.push_rank. rewrite Em.
  apply Z.eqb_neq in Hm. rewrite Hm. apply assoc_set_field_eq.
Qed.

End SheetProperties.

(** With sheets of ranks 0, 1 and 2 in the current app, the imported
    sheet is created with rank 3. *)
Example sheet_rank_after_three_sheets :
  currentSheetsMaxRank
    (Samples.with_sheets [Samples.a_sheet "A" 0; Samples.a_sheet "B" 1;
                          Samples.a_sheet "C" 2]) = Val (Some 2%Z) /\
  In (CreateObject (JObj (Json.set_field "rank" (JNum 3)
                            (Samples.sheet_fields "Overview" 0))))
     (log (state_after
             (importItem
                (Samples.with_sheets [Samples.a_sheet "A" 0; Samples.a_sheet "B" 1;
                                      Samples.a_sheet "C" 2])
                "source-app" (Samples.new_sheet "Overview" 0)
                (Samples.document EmptyString)))).
Proof. split; [reflexivity |]. vm_compute. right. right. left. reflexivity. Qed.

(** C6 fails on the code: with a single sheet of rank 0 in the current
    app, the greatest rank is 0, the test [if (options.sheetsMaxRank)]
    fails, and the imported sheet is created with the rank it has in the
    source app, here 0, not 1. *)
Lemma sheet_rank_kept_when_max_rank_is_zero :
  currentSheetsMaxRank (Samples.with_sheets [Samples.a_sheet "Intro" 0])
  = Val (Some 0%Z) /\
  let r := importItem (Samples.with_sheets [Samples.a_sheet "Intro" 0])
             "source-app" (Samples.new_sheet "Overview" 0)
             (Samples.document EmptyString) in
  imported (status (item_after r)) = true /\
  Demo.w_objects (world (state_after r))
  = [("object-0", JObj (Samples.sheet_fields "Overview" 0))] /\
  Json.assoc "rank" (Samples.sheet_fields "Overview" 0) = Some (JNum 0).
Proof. split; [reflexivity |]. cbv zeta. vm_compute. repeat split. Qed.

(** C7, as stated, fails: the sheet object created by the import still
    has the publish fields in its [qMetaDef]. *)
Lemma sheet_add_keeps_publish_metadata :
  let r := importItem (Samples.with_sheets [Samples.a_sheet "Intro" 1])
             "source-app" (Samples.new_sheet "Overview" 0)
             (Samples.document EmptyString) in
  exists created meta,
    In (CreateObject (JObj created)) (log (state_after r)) /\
    Json.assoc "qMetaDef" created = Some (JObj meta) /\
    Json.assoc "published" meta = Some (JBool true) /\
    Json.assoc "publishTime" meta = Some (JStr "2023-02-12T10:00:00.000Z").
Proof.
  cbv zeta. eexists. eexists. split.
  - vm_compute. right. right. left. reflexivity.
  - repeat split.
Qed.

(** ** The cache of opened apps *)

Section AppCacheProperties.
Import AppCache.
Variable currApp : App.

Lemma store_keeps (k k' : string) (r r' : ref) (m : gmap string ref) :
  m !! k' = None -> m !! k = Some r -> store k' r' m !! k = Some r.
Proof.
  intros Hnew Hk. unfold store. destruct (String.eqb k' "__proto__"); [assumption |].
  rewrite lookup_insert_ne; [assumption | congruence].
Qed.

Lemma store_new (k : string) (r : ref) (m : gmap string ref) :
  k <> "__proto__" -> store k r m !! k = Some r.
Proof.
  intros Hk. unfold store. apply String.eqb_neq in Hk. rewrite Hk.
  apply lookup_insert_eq.
Qed.

Lemma store_inv (k k' : string) (r r' : ref) (m : gmap string ref) :
  store k' r' m !! k = Some r ->
  (k = k' /\ r = r' /\ k' <> "__proto__") \/ m !! k = Some r.
Proof.
  unfold store. destruct (String.eqb k' "__proto__") eqn:E; [now right |].
  apply String.eqb_neq in E.
  destruct (decide (k = k')) as [-> | Hne].
  - rewrite lookup_insert_eq. intros [= <-]. now left.
  - rewrite lookup_insert_ne by congruence. now right.
Qed.

(** A new promise is stored under a name the cache does not have. *)
Lemma stored_invariant (c : Cache) (k : string) (p : promise_state) (calls : list string) :
  cache_invariant c ->
  apps c !! k = None ->
  promise_for k p ->
  calls = [] \/ calls = [k] ->
  cache_invariant (mkCache (store k (length (heap c)) (apps c)) (heap c ++ [p])
                           (opened c ++ calls)).
Proof.
  intros (Hentries & Hopened & Honce) Hnew Hp Hcalls. repeat split; simpl.
  - intros x r Hx. apply store_inv in Hx as [(-> & -> & _) | Hx].
    + exists p. split; [| assumption].
      rewrite lookup_app_r by lia. now rewrite Nat.sub_diag.
    + destruct (Hentries x r Hx) as (q & Hq & Hfor).
      exists q. split; [now apply lookup_app_l_Some | assumption].
  - intros x Hx Hproto. apply in_app_or in Hx as [Hx | Hx].
    + destruct (Hopened x Hx Hproto) as [r Hr]. exists r. now apply store_keeps.
    + destruct Hcalls as [-> | ->]; [destruct Hx |].
      destruct Hx as [<- | []]. rewrite store_new by assumption. eauto.
  - intros x Hproto. rewrite count_occ_app.
    specialize (Honce x Hproto).
    destruct Hcalls as [-> | ->]; simpl; [lia |].
    destruct (string_dec k x) as [-> | Hne]; [| lia].
    assert (Hnot : ~ In x (opened c)).
    { intros Hx. destruct (Hopened x Hx Hproto) as [r Hr]. congruence. }
    apply (count_occ_not_In string_dec) in Hnot. lia.
Qed.

Lemma alloc_invariant (c : Cache) (p : promise_state) :
  cache_invariant c -> cache_invariant (snd (alloc p c)).
Proof.
  intros (Hentries & Hopened & Honce). repeat split; simpl; try assumption.
  intros x r Hx. destruct (Hentries x r Hx) as (q & Hq & Hfor).
  exists q. split; [now apply lookup_app_l_Some | assumption].
Qed.

Lemma set_current_app_invariant (c : Cache) :
  cache_invariant c -> cache_invariant (snd (set_current_app currApp c)).
Proof.
  intros Hinv. unfold set_current_app.
  destruct (hidden (apps c)); [assumption |].
  destruct (apps c !! app_id currApp) eqn:E; [assumption |]. simpl.
  rewrite <- (app_nil_r (opened c)).
  apply stored_invariant; [assumption | assumption | reflexivity | now left].
Qed.

Lemma load_app_invariant (c : Cache) (k : string) :
  cache_invariant c -> cache_invariant (snd (load_app k c)).
Proof.
  intros Hinv. unfold load_app.
  destruct (hidden (apps c)); [assumption |].
  destruct (apps c !! k) eqn:E; [assumption |]. simpl.
  apply stored_invariant; [assumption | assumption | reflexivity | now right].
Qed.

Lemma cached_invariant (c : Cache) (k : string) :
  cache_invariant c -> cache_invariant (snd (cached currApp k c)).
Proof.
  intros Hinv. unfold cached.
  pose proof (set_current_app_invariant c Hinv) as Hset.
  destruct (set_current_app currApp c) as [[u|e] c']; [| exact Hset].
  now apply load_app_invariant.
Qed.

Lemma openApp_invariant (a : arg) (c : Cache) :
  cache_invariant c -> cache_invariant (snd (openApp currApp a c)).
Proof.
  intros Hinv. unfold openApp.
  destruct a as [|x|app]; simpl.
  - exact (alloc_invariant c _ Hinv).
  - destruct (Js.truthy x); simpl;
      [now apply cached_invariant | exact (alloc_invariant c _ Hinv)].
  - destruct (Js.truthy (app_id app)); simpl;
      [exact (alloc_invariant c _ Hinv) | now apply cached_invariant].
Qed.

Lemma settle_invariant (c : Cache) (r : ref) (app : App) (p : promise_state) :
  cache_invariant c ->
  heap c !! r = Some (PPending app) ->
  (forall k, promise_for k (PPending app) -> promise_for k p) ->
  cache_invariant (mkCache (apps c) (<[r := p]> (heap c)) (opened c)).
Proof.
  intros (Hentries & Hopened & Honce) Hr Hp. repeat split; simpl; try assumption.
  intros x r' Hx. destruct (Hentries x r' Hx) as (q & Hq & Hfor).
  destruct (decide (r' = r)) as [-> | Hne].
  - exists p. split.
    + apply list_lookup_insert_eq. now apply lookup_lt_Some in Hr.
    + apply Hp. rewrite Hr in Hq. injection Hq as <-. exact Hfor.
  - exists q. split; [| assumption].
    rewrite list_lookup_insert_ne; [assumption | congruence].
Qed.

Lemma step_invariant (c c' : Cache) :
  step currApp c c' -> cache_invariant c -> cache_invariant c'.
Proof.
  intros [c0 r0 app Hr0 | c0 r0 app reason Hr0 | c0 a] Hinv.
  - now apply (settle_invariant c0 r0 app).
  - apply (settle_invariant c0 r0 app); [assumption | assumption | now intros k _].
  - now apply openApp_invariant.
Qed.

Lemma steps_invariant (c c' : Cache) :
  steps currApp c c' -> cache_invariant c -> cache_invariant c'.
Proof.
  induction 1 as [|c1 c2 c3 Hstep _ IH]; intros Hinv; [assumption |].
  apply IH. eapply step_invariant; eassumption.
Qed.

Lemma empty_invariant : cache_invariant empty.
Proof.
  repeat split; simpl.
  - intros k r Hk. now rewrite lookup_empty in Hk.
  - now intros k [].
  - intros k _. lia.
Qed.




















End AppCacheProperties.



(** After [openApp] was called with the identifier [hasOwnProperty], the
    cache cannot be read any more: every later call throws. *)
Example openApp_hidden_method :
  let currApp := AppCache.mkApp "current-app" in
  let first := AppCache.openApp currApp (AppCache.AppId "hasOwnProperty") AppCache.empty in
  fst first = Val 1 /\
  fst (AppCache.openApp currApp (AppCache.AppId "source-app") (snd first))
  = Throw TypeError /\
  fst (AppCache.openApp currApp (AppCache.AppId "hasOwnProperty") (snd first))
  = Throw TypeError.
Proof. cbv zeta. vm_compute. repeat split. Qed.

Example openApp_opens_once :
  let currApp := AppCache.mkApp "current-app" in
  let c1 := snd (AppCache.openApp currApp (AppCache.AppId "source-app") AppCache.empty) in
  AppCache.opened c1 = ["source-app"] /\
  AppCache.opened (snd (AppCache.openApp currApp (AppCache.AppId "source-app") c1))
  = ["source-app"].
Proof. split; reflexivity. Qed.

(** ** Values of a field in a set expression *)

Section SetAnalysisProperties.
Import SetAnalysis.

Section Continuations.
Context {R : Type}.
Implicit Types k : string -> list (option string) -> option R.

Lemma lit_sound (l s : string) (caps : list (option string)) k (r : R) :
  match_re (Lit l) s caps k = Some r ->
  exists rest, s = l +:+ rest /\ k rest caps = Some r.
Proof.
  simpl. destruct (Js.starts_with l s) eqn:E; [| discriminate].
  intros Hk. eexists. split; [now apply starts_with_inv | exact Hk].
Qed.

Lemma lit_complete (l rest : string) (caps : list (option string)) k :
  match_re (Lit l) (l +:+ rest) caps k = k rest caps.
Proof. simpl. now rewrite starts_with_app, drop_chars_app. Qed.

Lemma alt_lit_sound (l1 l2 s : string) (caps : list (option string)) k (r : R) :
  match_re (Alt (Lit l1) (Lit l2)) s caps k = Some r ->
  exists l rest, (l = l1 \/ l = l2) /\ s = l +:+ rest /\ k rest caps = Some r.
Proof.
  cbn [match_re]. fold (match_re (Lit l1) s caps k). fold (match_re (Lit l2) s caps k).
  destruct (match_re (Lit l1) s caps k) as [x|] eqn:E1.
  - intros [= ->]. apply lit_sound in E1 as (rest & -> & Hk). eauto 6.
  - intros E2. apply lit_sound in E2 as (rest & -> & Hk). eauto 6.
Qed.


Lemma plus_not_sound (c : ascii) (s : string) (k1 : string -> option R) (r : R) :
  plus_not c s k1 = Some r ->
  exists values rest,
    s = values +:+ rest /\ values <> EmptyString /\
    (forall x, In x (list_ascii_of_string values) -> x <> c) /\
    k1 rest = Some r.
Proof.
  revert r. induction s as [|a s IH]; intros r; simpl; [discriminate |].
  destruct (Ascii.eqb a c) eqn:Ea; [discriminate |].
  apply Ascii.eqb_neq in Ea.
  destruct (plus_not c s k1) as [x|] eqn:E.
  - intros [= ->]. destruct (IH r eq_refl) as (values & rest & -> & _ & Hno & Hk).
    exists (String a values), rest. repeat split; [discriminate | | assumption].
    intros x [<- | Hx]; [assumption | now apply Hno].
  - intros Hk. exists (String a EmptyString), s. repeat split; [discriminate | | assumption].
    intros x [<- | []]. assumption.
Qed.


Lemma seq_eq (r1 r2 : regex) (s : string) (caps : list (option string)) k :
  match_re (Seq r1 r2) s caps k
  = match_re r1 s caps (fun s' caps' => match_re r2 s' caps' k).
Proof. reflexivity. Qed.

Lemma group_eq (n : nat) (r : regex) (s : string) (caps : list (option string)) k :
  match_re (Group n r) s caps k
  = match_re r s caps (fun s' caps' => k s' (<[n := Some (consumed s s')]> caps')).
Proof. reflexivity. Qed.

Lemma plus_eq (c : ascii) (s : string) (caps : list (option string)) k :
  match_re (PlusNot c) s caps k = plus_not c s (fun s' => k s' caps).
Proof. reflexivity. Qed.

(** For a field name that is plain text the name is matched as it is. *)
Lemma name_regex_plain (fieldName s : string) (caps : list (option string)) k :
  plain fieldName = true ->
  match_re (name_regex fieldName) s caps k = match_re (Lit fieldName) s caps k.
Proof.
  revert s. induction fieldName as [|c rest IH]; intros s Hplain; [reflexivity |].
  cbn [plain] in Hplain. apply andb_true_iff in Hplain as (Hc & Hrest).
  assert (Hdot : Ascii.eqb c "." = false).
  { destruct (Ascii.eqb c ".") eqn:E; [| reflexivity].
    apply Ascii.eqb_eq in E. subst c. discriminate. }
  cbn [name_regex]. rewrite Hdot, seq_eq.
  cbn [match_re Js.starts_with String.length drop_chars].
  destruct s as [|a s']; [reflexivity |].
  destruct (Ascii.eqb c a); [| reflexivity].
  rewrite (IH s' Hrest). reflexivity.
Qed.

Lemma pattern_plain (fieldName s : string) (caps : list (option string)) k :
  plain fieldName = true ->
  match_re (pattern fieldName) s caps k = match_re (literal_pattern fieldName) s caps k.
Proof.
  intros Hplain. unfold pattern, literal_pattern.
  rewrite !seq_eq, !group_eq. cbn [match_re].
  rewrite !name_regex_plain by exact Hplain. reflexivity.
Qed.

End Continuations.

Lemma js_match_plain (fieldName set : string) :
  plain fieldName = true ->
  js_match 3 (pattern fieldName) set = js_match 3 (literal_pattern fieldName) set.
Proof.
  intros Hplain. induction set as [|a set IH]; cbn [js_match];
    rewrite (pattern_plain _ _ _ _ Hplain); [reflexivity |].
  now rewrite IH.
Qed.

Lemma match_here_sound (fieldName s s0 : string) (m : list (option string)) :
  match_re (literal_pattern fieldName) s (replicate 4 None) (finish_match s0) = Some m ->
  (exists opening values closing after,
      s = opening +:+ fieldName +:+ "={" +:+ values +:+ closing +:+ after /\
      selection_block fieldName opening values closing) /\
  exists values, m !! 2 = Some (Some values).
Proof.
  unfold literal_pattern. rewrite seq_eq, group_eq. intros Hm.
  apply alt_lit_sound in Hm as (opening & rest1 & Hopen & -> & Hm).
  rewrite seq_eq in Hm. apply lit_sound in Hm as (rest2 & -> & Hm).
  rewrite seq_eq in Hm. apply lit_sound in Hm as (rest3 & -> & Hm).
  rewrite seq_eq, group_eq, plus_eq in Hm.
  apply plus_not_sound in Hm as (values & rest4 & -> & Hne & Hno & Hm).
  rewrite group_eq in Hm.
  apply alt_lit_sound in Hm as (closing & after & Hclose & -> & Hm).
  split.
  - exists opening, values, closing, after. split; [reflexivity |].
    repeat split; assumption.
  - unfold finish_match in Hm. injection Hm as <-. eexists. reflexivity.
Qed.





End SetAnalysisProperties.




(* ================================================================== *)
(** * Further properties *)
(* ================================================================== *)

(** ** Reconciliation: how the status flags depend on each other *)

Lemma filter_e_Val {A} (p : A -> exn bool) (l r : list A) :
  Underscore.filter_e p l = Val r ->
  exists q, (forall a, In a l -> p a = Val (q a)) /\ r = List.filter q l.
Proof.
  intros E.
  exists (fun a => match p a with Val b => b | Throw _ => false end).
  revert r E. induction l as [|a l IH]; intros r; simpl.
  - intros [= <-]. split; [intros a [] | reflexivity].
  - unfold mbind, exn_mbind, exn_bind.
    destruct (p a) as [b|e] eqn:Ea; [| discriminate].
    destruct (Underscore.filter_e p l) as [rest|e] eqn:El; [| discriminate].
    intros [= <-]. destruct (IH rest eq_refl) as (Hall & ->). split.
    + intros x [<- | Hx]; [now rewrite Ea | now apply Hall].
    + now destruct b.
Qed.

Lemma and_then_Val (x y : exn bool) (b : bool) :
  and_then x y = Val b ->
  exists bx, x = Val bx /\ (bx = true -> y = Val b) /\ (bx = false -> b = false).
Proof.
  destruct x as [[|]|e]; simpl; intros E; try discriminate.
  - exists true. repeat split; [now intros _ | discriminate].
  - injection E as <-. exists false. repeat split; discriminate.
Qed.

Lemma filter_first {A} (q : A -> bool) (l r : list A) (a : A) :
  List.filter q l = a :: r ->
  exists pre post, l = pre ++ a :: post /\ q a = true /\
                   Forall (fun b => q b = false) pre.
Proof.
  induction l as [|x l IH]; simpl; [discriminate |].
  destruct (q x) eqn:Ex.
  - intros [= -> <-]. exists [], l. repeat split; [assumption | constructor].
  - intros E. destruct (IH E) as (pre & post & -> & Ha & Hpre).
    exists (x :: pre), post. repeat split; [assumption | now constructor].
Qed.

Lemma first_target (cur : CurrAppObjects) (it : Item) (objs : list Item)
  (q : Item -> bool) (t : string) :
  cur (type it) = Some objs ->
  match map (target_key (type it)) (List.filter q objs) with
  | first :: _ => first
  | [] => EmptyString
  end = t ->
  t <> EmptyString ->
  (forall b, In b objs -> q b = true <-> update_candidate b it) ->
  exists pre a post,
    destination cur (type it) = pre ++ a :: post /\
    target_key (type it) a = t /\
    update_candidate a it /\
    Forall (fun b => ~ update_candidate b it) pre.
Proof.
  intros Hcur E Ht Hq. unfold destination. rewrite Hcur. simpl.
  destruct (List.filter q objs) as [|a r] eqn:Ef; simpl in E; [congruence |].
  apply filter_first in Ef as (pre & post & -> & Ha & Hpre).
  exists pre, a, post. repeat split; [assumption | |].
  - apply Hq; [| assumption]. apply in_or_app. right. now left.
  - apply List.Forall_forall. intros b Hb Hcand.
    apply (proj1 (List.Forall_forall _ _) Hpre) in Hb as Hfalse.
    apply Hq in Hcand; [congruence |]. apply in_or_app. now left.
Qed.

Lemma target_is_first_candidate
  (cur : CurrAppObjects) (it : Item) (t : string) :
  getTargetIdIfItemIsUpdatableInCurrentApp cur it = Val t ->
  t <> EmptyString ->
  exists pre a post,
    destination cur (type it) = pre ++ a :: post /\
    target_key (type it) a = t /\
    update_candidate a it /\
    Forall (fun b => ~ update_candidate b it) pre.
Proof.
  pose proof (first_target cur it) as Hfirst.
  unfold getTargetIdIfItemIsUpdatableInCurrentApp.
  destruct (cur (type it)) as [objs|] eqn:Hcur;
    [| simpl; intros [= <-] Ht; congruence].
  destruct (type it) eqn:Et;
    unfold mbind, exn_mbind, exn_bind; cbv beta iota zeta;
    try (intros [= <-] Ht; congruence).
  - (* script *)
    destruct (Underscore.filter_e _ objs) as [l|e] eqn:El; [| discriminate].
    apply filter_e_Val in El as (q & Hq & ->).
    intros [= E] Ht. apply (Hfirst objs q t eq_refl E Ht).
    intros b Hb. specialize (Hq b Hb). unfold update_candidate. rewrite Et.
    destruct (String.eqb (label b) (label it)) eqn:El; simpl in Hq.
    + apply String.eqb_eq in El.
      unfold mbind, exn_mbind, exn_bind in Hq.
      destruct (script_value b) as [x|] eqn:Ex; [| discriminate].
      destruct (script_value it) as [y|] eqn:Ey; [| discriminate].
      injection Hq as <-. split.
      * intros Hne. split; [assumption |]. exists x, y. repeat split.
        now apply negb_true_iff, String.eqb_neq in Hne.
      * intros (_ & x' & y' & [= <-] & [= <-] & Hne).
        now apply negb_true_iff, String.eqb_neq.
    + injection Hq as <-. apply String.eqb_neq in El. split; [discriminate |].
      now intros (Hl & _).
  - (* sheet *)
    destruct (without_cell_names (properties it)) as [_item|e] eqn:Ei; [| discriminate].
    destruct (Underscore.filter_e _ objs) as [l|e] eqn:El; [| discriminate].
    apply filter_e_Val in El as (q & Hq & ->).
    intros [= E] Ht. apply (Hfirst objs q t eq_refl E Ht).
    intros b Hb. specialize (Hq b Hb). unfold update_candidate. rewrite Et, Ei.
    unfold mbind, exn_mbind, exn_bind in Hq.
    destruct (without_cell_names (properties b)) as [_a|] eqn:Eb; [| discriminate].
    apply and_then_Val in Hq as (bx & Hx & Ht1 & Hf1). rewrite Hx. split.
    + intros Hqb. destruct bx.
      * split; [reflexivity |]. exists _a, _item. repeat split.
        specialize (Ht1 eq_refl). congruence.
      * specialize (Hf1 eq_refl). congruence.
    + intros ([= ->] & _a' & _item' & [= <-] & [= <-] & Hd).
      specialize (Ht1 eq_refl). congruence.
  - (* dimension *)
    destruct (Underscore.filter_e _ objs) as [l|e] eqn:El; [| discriminate].
    apply filter_e_Val in El as (q & Hq & ->).
    intros [= E] Ht. apply (Hfirst objs q t eq_refl E Ht).
    intros b Hb. specialize (Hq b Hb). unfold update_candidate. rewrite Et.
    apply and_then_Val in Hq as (bx & Hx & Ht1 & Hf1). rewrite Hx. split.
    + intros Hqb. destruct bx.
      * split; [reflexivity |]. specialize (Ht1 eq_refl). congruence.
      * specialize (Hf1 eq_refl). congruence.
    + intros ([= ->] & Hd). specialize (Ht1 eq_refl). congruence.
  - (* measure *)
    destruct (Underscore.filter_e _ objs) as [l|e] eqn:El; [| discriminate].
    apply filter_e_Val in El as (q & Hq & ->).
    intros [= E] Ht. apply (Hfirst objs q t eq_refl E Ht).
    intros b Hb. specialize (Hq b Hb). unfold update_candidate. rewrite Et.
    apply and_then_Val in Hq as (bx & Hx & Ht1 & Hf1). rewrite Hx. split.
    + intros Hqb. destruct bx.
      * split; [reflexivity |]. specialize (Ht1 eq_refl). congruence.
      * specialize (Hf1 eq_refl). congruence.
    + intros ([= ->] & Hd). specialize (Ht1 eq_refl). congruence.
  - (* master object *)
    destruct (Underscore.filter_e _ objs) as [l|e] eqn:El; [| discriminate].
    apply filter_e_Val in El as (q & Hq & ->).
    intros [= E] Ht. apply (Hfirst objs q t eq_refl E Ht).
    intros b Hb. specialize (Hq b Hb). unfold update_candidate, without_info. rewrite Et.
    apply and_then_Val in Hq as (bx & Hx & Ht1 & Hf1). rewrite Hx. split.
    + intros Hqb. destruct bx.
      * split; [reflexivity |]. specialize (Ht1 eq_refl). congruence.
      * specialize (Hf1 eq_refl). congruence.
    + intros ([= ->] & Hd). specialize (Ht1 eq_refl). congruence.
  - (* variable *)
    destruct (Underscore.filter_e _ objs) as [l|e] eqn:El; [| discriminate].
    apply filter_e_Val in El as (q & Hq & ->).
    intros [= E] Ht. apply (Hfirst objs q t eq_refl E Ht).
    intros b Hb. specialize (Hq b Hb). unfold update_candidate, same_name. rewrite Et.
    destruct (same_prop "qName" b it); unfold and_then in Hq; injection Hq as <-.
    + split; [intros Hd; split; [reflexivity | exact Hd] | intros (_ & Hd); exact Hd].
    + split; [discriminate | now intros (Hf & _)].
Qed.

(** X1. The id an update is addressed to is that of the first item of the
    current app, of the type of the item, that has its tab label, title
    or name and another definition. *)
Theorem updatable_target_is_first_candidate
  (cur : CurrAppObjects) (it : Item) (t : string) :
  getTargetIdIfItemIsUpdatableInCurrentApp cur it = Val t ->
  t <> EmptyString ->
  exists pre a post,
    destination cur (type it) = pre ++ a :: post /\
    target_key (type it) a = t /\
    update_candidate a it /\
    Forall (fun b => ~ update_candidate b it) pre.
Proof. apply target_is_first_candidate. Qed.

Lemma updatable_target_is_first_candidate_witness :
  exists pre a post,
    destination (Samples.only_master_object (Samples.kpi "dest-kpi" "Sum(Sales)" true))
                TMasterObject = pre ++ a :: post /\
    target_key TMasterObject a = "dest-kpi" /\
    update_candidate a (Samples.kpi "src-kpi" "Sum(Sales)" false) /\
    Forall (fun b => ~ update_candidate b (Samples.kpi "src-kpi" "Sum(Sales)" false)) pre.
Proof.
  apply (updatable_target_is_first_candidate
           (Samples.only_master_object (Samples.kpi "dest-kpi" "Sum(Sales)" true))
           (Samples.kpi "src-kpi" "Sum(Sales)" false) "dest-kpi").
  - vm_compute. reflexivity.
  - discriminate.
Defined.

Lemma prepareItem_Val (cur : CurrAppObjects) (it : Item) (p : PreparedItem) :
  prepareItem cur it = Val p ->
  exists t e i,
    getTargetIdIfItemIsUpdatableInCurrentApp cur it = Val t /\
    doesItemExistInCurrentApp cur it = Val e /\
    isItemImportableInCurrentApp cur it = Val i /\
    updatableTargetId p = t /\
    exists_ (status p) = e /\
    importable (status p) = i /\
    updatable (status p) = Js.truthy t.
Proof.
  unfold prepareItem, mbind, exn_mbind, exn_bind.
  destruct (getTargetIdIfItemIsUpdatableInCurrentApp cur it) as [t|]; [| discriminate].
  destruct (doesItemExistInCurrentApp cur it) as [e|]; [| discriminate].
  destruct (isItemImportableInCurrentApp cur it) as [i|]; [| discriminate].
  intros [= <-]. exists t, e, i. repeat split.
Qed.

Lemma truthy_not_empty (t : string) : Js.truthy t = true -> t <> EmptyString.
Proof. now destruct t. Qed.

Lemma some_Val_true {A} (p : A -> exn bool) (l : list A) (a : A) (e : bool) :
  Underscore.some p l = Val e -> In a l -> p a = Val true -> e = true.
Proof.
  induction l as [|x l IH]; simpl; [now intros _ [] |].
  unfold mbind, exn_mbind, exn_bind.
  destruct (p x) as [[|]|] eqn:Ex; try discriminate.
  - now intros [= <-].
  - intros E [<- | Ha] Hp; [congruence | now apply IH].
Qed.

(** X2. A sheet, a master dimension or a master measure that is marked
    as updatable is marked as existing too: both marks ask for an item of
    the current app with the title of the item. *)
Theorem updatable_implies_exists (cur : CurrAppObjects) (it : Item) (p : PreparedItem) :
  type it = TSheet \/ type it = TDimension \/ type it = TMeasure ->
  prepareItem cur it = Val p ->
  updatable (status p) = true ->
  exists_ (status p) = true.
Proof.
  intros Et Hp Hu.
  apply prepareItem_Val in Hp as (t & e & i & Ht & He & _ & _ & Ee & _ & Eu).
  rewrite Eu in Hu. apply truthy_not_empty in Hu. rewrite Ee. clear Ee Eu.
  destruct (target_is_first_candidate cur it t Ht Hu)
    as (pre & a & post & Hdest & _ & Hcand & _).
  assert (Ha : In a (destination cur (type it)))
    by (rewrite Hdest; apply in_or_app; right; now left).
  unfold destination in Ha. unfold doesItemExistInCurrentApp in He.
  destruct (cur (type it)) as [objs|]; [| contradiction]. simpl in Ha.
  unfold update_candidate in Hcand.
  destruct Et as [Et | [Et | Et]]; rewrite Et in *;
    destruct Hcand as (Htitle & _);
    exact (some_Val_true _ objs a e He Ha Htitle).
Qed.

Lemma updatable_implies_exists_witness :
  exists p,
    prepareItem (Samples.with_sheets [Samples.a_sheet "Intro" 1])
                (Samples.a_sheet "Intro" 2) = Val p /\
    updatable (status p) = true /\
    exists_ (status p) = true.
Proof.
  eexists. split; [reflexivity |]. split; [reflexivity |].
  apply (updatable_implies_exists
           (Samples.with_sheets [Samples.a_sheet "Intro" 1])
           (Samples.a_sheet "Intro" 2)).
  - left. reflexivity.
  - reflexivity.
  - reflexivity.
Defined.

Lemma exists_value_named (cur : CurrAppObjects) (it : Item) :
  type it = TAlternateState \/ type it = TVariable ->
  doesItemExistInCurrentApp cur it =
  Val (match type it with
       | TAlternateState =>
           existsb (fun a => String.eqb (id a) (id it)) (destination cur (type it))
       | _ =>
           existsb (fun a => same_prop "qName" a it && same_prop "qDefinition" a it)
             (destination cur (type it))
       end).
Proof.
  unfold doesItemExistInCurrentApp, destination.
  intros [Et | Et]; rewrite Et; destruct (cur _) as [objs|]; try reflexivity.
  - now apply some_total.
  - now apply some_total.
Qed.

Lemma target_value_state (cur : CurrAppObjects) (it : Item) :
  type it = TAlternateState ->
  getTargetIdIfItemIsUpdatableInCurrentApp cur it = Val EmptyString.
Proof.
  intros Et. unfold getTargetIdIfItemIsUpdatableInCurrentApp. rewrite Et.
  now destruct (cur TAlternateState).
Qed.

(** X3. An alternate state is importable exactly when it is not marked
    as existing, and it is never updatable: it has no update target. *)
Theorem alternate_state_importable_iff_missing (cur : CurrAppObjects) (it : Item) :
  type it = TAlternateState ->
  exists p,
    prepareItem cur it = Val p /\
    importable (status p) = negb (exists_ (status p)) /\
    updatable (status p) = false /\
    updatableTargetId p = EmptyString.
Proof.
  intros Et. unfold prepareItem.
  rewrite (target_value_state cur it Et), importable_value,
    (exists_value_named cur it (or_introl Et)), Et.
  eexists. split; [reflexivity |]. repeat split.
Qed.

Lemma alternate_state_importable_iff_missing_witness :
  exists p,
    prepareItem (fun t => match t with
                          | TAlternateState =>
                              Some [mkItem "Budget" TAlternateState "Budget"
                                      (StateName "Budget") None None None]
                          | _ => Some []
                          end)
                (mkItem "Budget" TAlternateState "Budget" (StateName "Budget")
                   None None None) = Val p /\
    importable (status p) = negb (exists_ (status p)) /\
    updatable (status p) = false /\
    updatableTargetId p = EmptyString.
Proof.
  apply (alternate_state_importable_iff_missing _
           (mkItem "Budget" TAlternateState "Budget" (StateName "Budget")
              None None None)).
  reflexivity.
Defined.

Lemma existsb_weaken {A} (f g : A -> bool) (l : list A) :
  existsb (fun a => f a && g a) l = true -> existsb f l = true.
Proof.
  rewrite !existsb_exists. intros (a & Ha & Hfg).
  apply andb_true_iff in Hfg as (Hf & _). eauto.
Qed.

(** X4. A variable that is marked as existing, or as updatable, is not
    importable: each of the two marks needs a variable of the current app
    with the name of the item, and such a variable forbids the import. *)
Theorem variable_flags_exclude_import (cur : CurrAppObjects) (it : Item) :
  type it = TVariable ->
  exists p,
    prepareItem cur it = Val p /\
    (exists_ (status p) = true -> importable (status p) = false) /\
    (updatable (status p) = true -> importable (status p) = false).
Proof.
  intros Et.
  destruct (prepareItem_named_total cur it (or_intror Et)) as (p & Hp).
  exists p. split; [assumption |].
  apply prepareItem_Val in Hp as (t & e & i & Ht & He & Hi & _ & Ee & Ei & Eu).
  rewrite Ee, Ei, Eu. clear Ee Ei Eu.
  rewrite importable_value, Et in Hi. injection Hi as <-.
  rewrite (exists_value_named cur it (or_intror Et)), Et in He. injection He as <-.
  split.
  - intros Hex. apply existsb_weaken in Hex. now rewrite Hex.
  - intros Hu. apply truthy_not_empty in Hu.
    destruct (target_is_first_candidate cur it t Ht Hu)
      as (pre & a & post & Hdest & _ & Hcand & _).
    unfold update_candidate in Hcand. rewrite Et in Hcand, Hdest.
    destruct Hcand as (Hname & _).
    apply negb_false_iff, existsb_exists. exists a. split; [| exact Hname].
    rewrite Hdest. apply in_or_app. right. now left.
Qed.

Lemma variable_flags_exclude_import_witness :
  exists p,
    prepareItem (fun t => match t with
                          | TVariable => Some [item Samples.vToday]
                          | _ => Some []
                          end)
                (mkItem "other-var" TVariable "vToday"
                   (ObjectProps [("qInfo", JObj [("qId", JStr "other-var")]);
                                 ("qName", JStr "vToday");
                                 ("qDefinition", JStr "=Today()-1")])
                   None None None) = Val p /\
    (exists_ (status p) = true -> importable (status p) = false) /\
    (updatable (status p) = true -> importable (status p) = false).
Proof.
  apply (variable_flags_exclude_import _
           (mkItem "other-var" TVariable "vToday"
              (ObjectProps [("qInfo", JObj [("qId", JStr "other-var")]);
                            ("qName", JStr "vToday");
                            ("qDefinition", JStr "=Today()-1")])
              None None None)).
  reflexivity.
Defined.

(** ** Strings: joining what was split *)

Lemma split_go_not_nil (sep : string) (s : string) (k : nat) (cur : string) :
  Js.split_go sep k cur s <> [].
Proof.
  revert k cur. induction s as [|c s IH]; intros k cur; cbn [Js.split_go]; [discriminate |].
  destruct k; [| apply IH].
  destruct (Js.starts_with sep (String c s)); [discriminate | apply IH].
Qed.

Lemma join_cons (sep x : string) (l : list string) :
  l <> [] -> Js.join sep (x :: l) = x +:+ sep +:+ Js.join sep l.
Proof. destruct l; [contradiction | reflexivity]. Qed.

Lemma join_split_go (sep : string) :
  sep <> EmptyString ->
  forall n s, String.length s <= n ->
    forall cur, Js.join sep (Js.split_go sep 0 cur s) = cur +:+ s.
Proof.
  intros Hsep. induction n as [|n IH]; intros s Hn cur.
  - destruct s; [| simpl in Hn; lia]. simpl. now rewrite append_nil_r.
  - destruct s as [|c s]; [simpl; now rewrite append_nil_r |].
    destruct (Js.starts_with sep (String c s)) eqn:Es.
    + apply starts_with_inv in Es.
      set (rest := SetAnalysis.drop_chars (String.length sep) (String c s)) in *.
      rewrite Es, split_go_at_sep by assumption.
      rewrite join_cons by apply split_go_not_nil.
      rewrite IH; [reflexivity |].
      apply (f_equal String.length) in Es. rewrite append_length in Es.
      simpl in Es, Hn. destruct sep; [contradiction |]. simpl in Es. lia.
    + cbn [Js.split_go]. rewrite Es, IH by (simpl in Hn; lia).
      now rewrite append_assoc.
Qed.

(** [s.split(sep).join(sep)] gives [s] back. *)
Lemma join_split (sep s : string) :
  sep <> EmptyString -> Js.join sep (Js.split sep s) = s.
Proof.
  intros Hsep. unfold Js.split.
  now rewrite (join_split_go sep Hsep (String.length s) s (le_n _) EmptyString).
Qed.

Lemma starts_with_short (sep y : string) :
  String.length y < String.length sep -> Js.starts_with sep y = false.
Proof.
  revert y. induction sep as [|a sep IH]; intros y; simpl; [lia |].
  destruct y as [|b y]; [reflexivity |]. simpl. intros Hlen.
  destruct (Ascii.eqb a b); [apply IH; lia | reflexivity].
Qed.

Section SplittingBefore.
Variable sep : string.
Hypothesis sep_not_empty : sep <> EmptyString.
Hypothesis sep_border_free :
  forall y rest, y <> EmptyString -> String.length y < String.length sep ->
                 Js.starts_with sep (y +:+ sep +:+ rest) = false.

(** Text written after a separator does not change how the text before
    the separator is split. *)
Lemma split_go_before_sep (x rest : string) :
  forall k cur, k <= String.length x ->
    exists l p,
      Js.split_go sep k cur x = l ++ [p] /\
      Js.split_go sep k cur (x +:+ sep +:+ rest)
      = l ++ p :: Js.split_go sep 0 EmptyString rest.
Proof.
  induction x as [|c x IH]; intros k cur Hk.
  - simpl in Hk. assert (k = 0) as -> by lia.
    exists [], cur. split; [reflexivity |].
    change (EmptyString +:+ sep +:+ rest) with (sep +:+ rest).
    now apply split_go_at_sep.
  - change (String c x +:+ sep +:+ rest) with (String c (x +:+ sep +:+ rest)).
    cbn [Js.split_go]. destruct k as [|k].
    + assert (Hsame : Js.starts_with sep (String c (x +:+ sep +:+ rest))
                      = Js.starts_with sep (String c x)).
      { change (String c (x +:+ sep +:+ rest)) with (String c x +:+ sep +:+ rest).
        destruct (Nat.lt_ge_cases (String.length (String c x)) (String.length sep))
          as [Hlt | Hge].
        - rewrite sep_border_free by (assumption || discriminate).
          symmetry. now apply starts_with_short.
        - now apply starts_with_long. }
      rewrite Hsame. destruct (Js.starts_with sep (String c x)) eqn:Es.
      * assert (Hlen : String.length sep - 1 <= String.length x).
        { destruct (Nat.lt_ge_cases (String.length (String c x)) (String.length sep))
            as [Hlt | Hge].
          - apply starts_with_short in Hlt. congruence.
          - simpl in Hge. lia. }
        destruct (IH (String.length sep - 1) EmptyString Hlen) as (l & p & E1 & E2).
        exists (cur :: l), p. rewrite E1, E2. now split.
      * apply IH. lia.
    + apply IH. simpl in Hk. lia.
Qed.

End SplittingBefore.

Lemma filter_truthy_app (l1 l2 : list string) :
  List.filter Js.truthy (l1 ++ l2) = List.filter Js.truthy l1 ++ List.filter Js.truthy l2.
Proof. apply List.filter_app. Qed.

(** A fragment written after a tab marker at the end of a script is read
    as one more fragment. *)
Lemma fragments_after (data a : string) :
  is_fragment a ->
  script.fragments (data +:+ TAB_MARKER +:+ a) = script.fragments data ++ [a].
Proof.
  intros (Hno & Hne). unfold script.fragments, Js.split.
  destruct (split_go_before_sep TAB_MARKER tab_marker_not_empty tab_marker_border_free
              data a 0 EmptyString (Nat.le_0_l _)) as (l & p & E1 & E2).
  rewrite E1, E2.
  assert (Ha : Js.split_go TAB_MARKER 0 EmptyString a = [a]).
  { rewrite <- (append_nil_r a) at 1.
    rewrite (split_go_piece TAB_MARKER tab_marker_border_free a EmptyString EmptyString Hno)
      by now left.
    reflexivity. }
  rewrite Ha.
  replace (l ++ [p; a]) with ((l ++ [p]) ++ [a]) by now rewrite <- app_assoc.
  rewrite filter_truthy_app. simpl. now rewrite Hne.
Qed.

(** ** Script sections: titles that are read back *)

Lemma uint_chars (d : Decimal.uint) (c : ascii) :
  In c (list_ascii_of_string (NilEmpty.string_of_uint d)) ->
  In c (list_ascii_of_string "0123456789").
Proof.
  induction d as [|d IH|d IH|d IH|d IH|d IH|d IH|d IH|d IH|d IH|d IH];
    simpl; [tauto | | | | | | | | | |];
    (intros [<- | Hc]; [tauto | specialize (IH Hc); simpl in IH; tauto]).
Qed.

Lemma no_occurrence_other_chars (sep : string) (a : ascii) (sep' s : string) :
  sep = String a sep' ->
  (forall x, In x (list_ascii_of_string s) -> x <> a) ->
  no_occurrence sep s.
Proof.
  intros -> Hs x y E. destruct y as [|c y]; [reflexivity |]. simpl.
  destruct (Ascii.eqb a c) eqn:Ec; [| reflexivity].
  apply Ascii.eqb_eq in Ec. subst c. exfalso. apply (Hs a); [| reflexivity].
  rewrite E. clear. induction x as [|b x IH]; simpl; [now left | now right].
Qed.

(** A text without [sep] stays without it when followed by characters
    that cannot start [sep], the first of them not being in [sep]. *)
Lemma no_occurrence_extend (sep : string) (a : ascii) (sep' t r : string) (c : ascii) :
  sep = String a sep' ->
  no_occurrence sep t ->
  (forall x, In x (list_ascii_of_string sep) -> x <> c) ->
  (forall x, In x (list_ascii_of_string (String c r)) -> x <> a) ->
  no_occurrence sep (t +:+ String c r).
Proof.
  intros Hsep Ht Hc Htail x y E.
  apply append_eq_append in E as [(m & -> & ->) | (m & -> & E)].
  - destruct (Nat.lt_ge_cases (String.length m) (String.length sep)) as [Hlt | Hge].
    + now apply starts_with_other_char.
    + rewrite starts_with_long by assumption. now apply (Ht x m).
  - now apply (no_occurrence_other_chars sep a sep' (String c r) Hsep Htail m y).
Qed.

Lemma candidate_tail (base : string) (n : nat) :
  script.candidate base n
  = (base +:+ " ") +:+ String "(" (Js.string_of_nat n +:+ ")").
Proof. unfold script.candidate. now rewrite append_assoc. Qed.

Lemma candidate_tail_chars (n : nat) (x : ascii) :
  In x (list_ascii_of_string (" (" +:+ Js.string_of_nat n +:+ ")")) ->
  In x (list_ascii_of_string " ()0123456789").
Proof.
  simpl. intros [<- | [<- | Hx]]; [tauto | tauto |].
  right. right.
  assert (Hin : In x (list_ascii_of_string (Js.string_of_nat n)) \/ x = ")"%char).
  { revert Hx. generalize (Js.string_of_nat n). clear.
    induction s as [|b s IH]; simpl.
    - intros [<- | []]. now right.
    - intros [<- | Hx]; [left; now left |].
      destruct (IH Hx) as [H1 | H1]; [left; now right | now right]. }
  destruct Hin as [Hd | ->].
  - apply uint_chars in Hd. simpl in Hd. simpl. tauto.
  - simpl. tauto.
Qed.

Lemma clean_title_tested (base : string) (n : nat) :
  clean_title base ->
  no_occurrence CRLF (tested_title base n) /\
  no_occurrence TAB_MARKER (tested_title base n).
Proof.
  intros (Hline & Hmark). destruct n as [|n]; cbn [tested_title].
  - split; [assumption |]. intros x y E.
    destruct (Js.starts_with TAB_MARKER y) eqn:Es; [| reflexivity].
    apply (starts_with_more _ _ " ") in Es.
    rewrite <- (Hmark x (y +:+ " ")); [now symmetry |].
    now rewrite E, append_assoc.
  - split.
    + unfold script.candidate.
      change (" (" +:+ Js.string_of_nat (S n) +:+ ")")
        with (String " " ("(" +:+ Js.string_of_nat (S n) +:+ ")")).
      apply (no_occurrence_extend CRLF (ascii_of_nat 13) (String (ascii_of_nat 10) ""));
        [reflexivity | assumption | |].
      * simpl. intros x [<- | [<- | []]]; discriminate.
      * intros x Hx. apply (candidate_tail_chars (S n)) in Hx. simpl in Hx.
        intuition (subst x; discriminate).
    + rewrite candidate_tail.
      apply (no_occurrence_extend TAB_MARKER "/" "//$tab "); [reflexivity | assumption | |].
      * simpl. intros x Hx. intuition (subst x; discriminate).
      * intros x Hx.
        assert (Hin : In x (list_ascii_of_string (" (" +:+ Js.string_of_nat (S n) +:+ ")")))
          by now right.
        apply candidate_tail_chars in Hin. simpl in Hin.
        intuition (subst x; discriminate).
Qed.

Lemma split_title_body (t q : string) :
  no_occurrence CRLF t ->
  Js.split CRLF (t +:+ CRLF +:+ q) = t :: Js.split CRLF q.
Proof.
  intros Ht. unfold Js.split.
  rewrite (split_go_piece CRLF crlf_border_free) by eauto.
  now rewrite split_go_at_sep by discriminate.
Qed.

Lemma getScript_length (qScript : string) :
  length (AppInfo.getScript qScript) = length (script.fragments qScript).
Proof. unfold AppInfo.getScript. apply length_imap. Qed.

(** The script [script.add] writes, read as [getScript] reads it: the
    sections there were, and the new one under the title it was given. *)
Lemma getScript_after_add (data t q : string) :
  no_occurrence CRLF t -> no_occurrence TAB_MARKER t -> no_occurrence TAB_MARKER q ->
  AppInfo.getScript (data +:+ TAB_MARKER +:+ t +:+ CRLF +:+ q)
  = AppInfo.getScript data ++
    [{| AppInfo.section_id :=
          "Section " +:+ Js.string_of_nat (length (AppInfo.getScript data) + 1);
        AppInfo.section_label := t;
        AppInfo.section_index := length (AppInfo.getScript data);
        AppInfo.section_script := q |}].
Proof.
  intros Hline Hmark Hq. rewrite getScript_length. unfold AppInfo.getScript.
  rewrite fragments_after by now apply replacement_is_fragment.
  rewrite imap_app. f_equal. cbn [imap]. rewrite Nat.add_0_r.
  rewrite first_line_read_back, split_title_body by assumption.
  cbn [tail]. now rewrite join_split by discriminate.
Qed.

(** ** Script sections: what the collector reads *)

(** X5. [getScript] lists one section per non-empty fragment of the
    script, numbered in order; the label of a section is the first line
    of its fragment, its script the text after that line: a fragment with
    a line end is the label, the line end and the script, a fragment
    without one is the label alone, with an empty script. *)
Theorem getScript_splits_title_from_body (qScript : string) :
  length (AppInfo.getScript qScript) = length (script.fragments qScript) /\
  forall ix a,
    script.fragments qScript !! ix = Some a ->
    exists s,
      AppInfo.getScript qScript !! ix = Some s /\
      AppInfo.section_index s = ix /\
      AppInfo.section_id s = "Section " +:+ Js.string_of_nat (ix + 1) /\
      no_occurrence CRLF (AppInfo.section_label s) /\
      ((a = AppInfo.section_label s /\ AppInfo.section_script s = EmptyString /\
        no_occurrence CRLF a)
       \/ a = AppInfo.section_label s +:+ CRLF +:+ AppInfo.section_script s).
Proof.
  split; [apply getScript_length |].
  intros ix a Ha. unfold AppInfo.getScript.
  rewrite list_lookup_imap, Ha. simpl. eexists. split; [reflexivity |].
  cbn [AppInfo.section_index AppInfo.section_id AppInfo.section_label
       AppInfo.section_script].
  repeat split.
  - apply first_line_clean.
    pose proof (fragments_are_fragments qScript) as Hall.
    apply (proj1 (List.Forall_forall _ _) Hall a).
    apply list_elem_of_In. now apply list_elem_of_lookup_2 in Ha.
  - pose proof (join_split CRLF a crlf_not_empty) as Hjoin.
    pose proof (split_clean CRLF crlf_not_empty a) as Hclean.
    unfold Js.first_piece.
    destruct (Js.split CRLF a) as [|p [|p' rest]] eqn:Es.
    + exfalso. revert Es. apply split_go_not_nil.
    + left. simpl in Hjoin. subst p. repeat split. now inversion Hclean.
    + right. cbn [tail]. rewrite <- Hjoin. reflexivity.
Qed.

Section ScriptCollector.
Context {World : Type} `{Engine World}.

Lemma add_writes (props : script.Props) (s : State World) (data : string) (w : World) :
  engine_call GetScript (world s) = (Resolved data, w) ->
  exists n,
    script.unique_tab (script.tabs data) (script.tab props)
    = Some (tested_title (script.tab props) n) /\
    script.add props s =
    script_written s w
      (data +:+ TAB_MARKER +:+ tested_title (script.tab props) n
         +:+ CRLF +:+ script.qScript props).
Proof.
  intros Hget.
  destruct (unique_tab_total (script.tabs data) (script.tab props)) as (t & Ht).
  pose proof Ht as Hloop. unfold script.unique_tab in Hloop.
  apply (rename_loop_sound _ _ _ 0) in Hloop as (n & _ & -> & _).
  exists n. split; [assumption |].
  unfold script.add, mbind, promise_mbind, and_then_p.
  rewrite (call_resolved _ _ _ _ Hget), Ht. apply get_then_set.
Qed.

(** X6. The section [script.add] appends is read back by [getScript] as
    the last section, under the title the renaming gave it and with the
    script text that was added; the sections before it are read as they
    were. The title has no line end and no tab marker, the text no tab
    marker. *)
Theorem script_add_is_read_back
  (props : script.Props) (s : State World) (data : string) (w : World) :
  engine_call GetScript (world s) = (Resolved data, w) ->
  clean_title (script.tab props) ->
  no_occurrence TAB_MARKER (script.qScript props) ->
  exists title written,
    script.unique_tab (script.tabs data) (script.tab props) = Some title /\
    script.add props s = script_written s w written /\
    AppInfo.getScript written
    = AppInfo.getScript data ++
      [{| AppInfo.section_id :=
            "Section " +:+ Js.string_of_nat (length (AppInfo.getScript data) + 1);
          AppInfo.section_label := title;
          AppInfo.section_index := length (AppInfo.getScript data);
          AppInfo.section_script := script.qScript props |}].
Proof.
  intros Hget Htitle Hq.
  destruct (add_writes props s data w Hget) as (n & Ht & Hadd).
  destruct (clean_title_tested (script.tab props) n Htitle) as (Hline & Hmark).
  eexists. eexists. split; [exact Ht |]. split; [exact Hadd |].
  now apply getScript_after_add.
Qed.

(** X7. After [script.add] wrote the script, an item with the script
    text that was added is found to exist in the current app, once the
    sections of the current app are collected again. *)
Theorem added_section_exists_afterwards
  (props : script.Props) (s : State World) (data : string) (w : World)
  (cur : CurrAppObjects) (it : Item) :
  engine_call GetScript (world s) = (Resolved data, w) ->
  clean_title (script.tab props) ->
  no_occurrence TAB_MARKER (script.qScript props) ->
  type it = TScript ->
  code_script_value it = Some (script.qScript props) ->
  exists written,
    script.add props s = script_written s w written /\
    (cur TScript = Some (getScriptInfo (AppInfo.getScript written)) ->
     doesItemExistInCurrentApp cur it = Val true).
Proof.
  intros Hget Htitle Hq Et Hcode.
  destruct (add_writes props s data w Hget) as (n & Ht & Hadd).
  destruct (clean_title_tested (script.tab props) n Htitle) as (Hline & Hmark).
  eexists. split; [exact Hadd |]. intros Hcur.
  unfold doesItemExistInCurrentApp. rewrite Et, Hcur.
  rewrite (some_total _ (fun a => match code_script_value a with
                                  | Some x => String.eqb x (script.qScript props)
                                  | None => false
                                  end)).
  - f_equal. apply existsb_exists.
    rewrite getScript_after_add by assumption.
    unfold getScriptInfo. rewrite map_app. eexists. split.
    + apply in_or_app. right. left. reflexivity.
    + simpl. apply String.eqb_refl.
  - intros a Ha. unfold getScriptInfo in Ha.
    apply List.in_map_iff in Ha as (sec & <- & _).
    unfold script_value. simpl. now rewrite Hcode.
Qed.

End ScriptCollector.

(** ** Script sections: updating twice *)

Lemma findIndex_found {A} (p : A -> bool) (l : list A) (a : A) :
  In a l -> p a = true -> exists i, script.findIndex p l = Some i.
Proof.
  induction l as [|x l IH]; simpl; [now intros [] |].
  intros Ha Hp. destruct (p x) eqn:Ex; [eauto |].
  destruct Ha as [-> | Ha]; [congruence |].
  destruct (IH Ha Hp) as (i & ->). simpl. eauto.
Qed.

Lemma first_section_titled (data t : string) :
  In t (script.tabs data) ->
  exists pre a post,
    script.sections data = pre ++ a :: post /\
    script.sec_tab a = t /\
    Forall (fun x => script.sec_tab x <> t) pre.
Proof.
  intros Hin. unfold script.tabs in Hin.
  apply List.in_map_iff in Hin as (f & Hf & Hin).
  assert (Hsec : In (section_of f) (script.sections data)).
  { unfold script.sections. fold section_of. now apply in_map. }
  destruct (findIndex_found (script.is_target (Target t)) _ _ Hsec) as (i & Hi).
  { simpl. apply String.eqb_eq. exact Hf. }
  apply findIndex_Some in Hi as (pre & a & post & E & _ & Ha & Hpre).
  exists pre, a, post. repeat split; [assumption | |].
  - simpl in Ha. now apply String.eqb_eq.
  - eapply List.Forall_impl; [| exact Hpre]. simpl. intros x Hx.
    now apply String.eqb_neq.
Qed.

Section ScriptUpdateTwice.
Context {World : Type} `{Engine World}.

(** X8. Updating a section a second time with the same text writes the
    script the first update wrote: [script.update] finds the section it
    rewrote and puts the same text in its place. The text has no tab
    marker. *)
Theorem script_update_twice_writes_the_same
  (props : script.Props) (options : Options) (s : State World)
  (data t : string) (w : World) :
  engine_call GetScript (world s) = (Resolved data, w) ->
  targetId options = Target t ->
  In t (script.tabs data) ->
  no_occurrence TAB_MARKER (script.qScript props) ->
  exists written,
    script.update props options s = script_written s w written /\
    forall (s' : State World) (w' : World),
      engine_call GetScript (world s') = (Resolved written, w') ->
      script.update props options s' = script_written s' w' written.
Proof.
  intros Hget Ht Hin Hq.
  destruct (first_section_titled data t Hin) as (pre & a & post & Hsec & Ha & Hpre).
  eexists. split.
  - eapply update_first_match; eassumption.
  - intros s' w' Hget'.
    apply (update_first_match props options s'
             (Js.concat_all (map script.section pre) +:+ replacement t props
                +:+ Js.concat_all (map script.section post))
             t w' pre post
             {| script.sec_tab := t; script.section := replacement t props |});
      try assumption; try reflexivity.
    now apply update_read_back with (data := data) (a := a).
Qed.

End ScriptUpdateTwice.

Lemma script_update_twice_writes_the_same_witness :
  exists written,
    script.update (script.mkProps "Main" "LOAD 9;")
      (Samples.update_options (Target "Main")) (Samples.document Samples.two_tabs)
    = script_written (Samples.document Samples.two_tabs)
        (Demo.mkWorld Samples.two_tabs [] [] []) written /\
    forall (s' : State Demo.World) (w' : Demo.World),
      engine_call GetScript (world s') = (Resolved written, w') ->
      script.update (script.mkProps "Main" "LOAD 9;")
        (Samples.update_options (Target "Main")) s'
      = script_written s' w' written.
Proof.
  apply (script_update_twice_writes_the_same
           (script.mkProps "Main" "LOAD 9;") (Samples.update_options (Target "Main"))
           (Samples.document Samples.two_tabs) Samples.two_tabs "Main"
           (Demo.mkWorld Samples.two_tabs [] [] [])).
  - reflexivity.
  - reflexivity.
  - vm_compute. left. reflexivity.
  - apply occurs_false. reflexivity.
Defined.

Lemma clean_title_decide (t : string) :
  occurs CRLF t = false -> occurs TAB_MARKER (t +:+ " ") = false -> clean_title t.
Proof. intros H1 H2. split; now apply occurs_false. Qed.

Lemma script_add_is_read_back_witness :
  exists title written,
    script.unique_tab (script.tabs Samples.two_tabs) "Main" = Some title /\
    script.add (script.mkProps "Main" "LOAD 3;") (Samples.document Samples.two_tabs)
    = script_written (Samples.document Samples.two_tabs)
        (Demo.mkWorld Samples.two_tabs [] [] []) written /\
    AppInfo.getScript written
    = AppInfo.getScript Samples.two_tabs ++
      [{| AppInfo.section_id :=
            "Section " +:+ Js.string_of_nat (length (AppInfo.getScript Samples.two_tabs) + 1);
          AppInfo.section_label := title;
          AppInfo.section_index := length (AppInfo.getScript Samples.two_tabs);
          AppInfo.section_script := "LOAD 3;" |}].
Proof.
  apply (script_add_is_read_back (script.mkProps "Main" "LOAD 3;")
           (Samples.document Samples.two_tabs) Samples.two_tabs
           (Demo.mkWorld Samples.two_tabs [] [] [])).
  - reflexivity.
  - apply clean_title_decide; reflexivity.
  - apply occurs_false. reflexivity.
Defined.

Lemma added_section_exists_afterwards_witness :
  let written := Samples.two_tabs +:+ TAB_MARKER +:+ "Main (2)" +:+ CRLF +:+ "LOAD 3;" in
  let cur := fun t => match t with
                      | TScript => Some (getScriptInfo (AppInfo.getScript written))
                      | _ => None
                      end in
  let it := mkItem "Section 1" TScript "Main" (ScriptProps "Main" "LOAD 3;") None
              (Some "LOAD 3;") None in
  (exists written',
      script.add (script.mkProps "Main" "LOAD 3;") (Samples.document Samples.two_tabs)
      = script_written (Samples.document Samples.two_tabs)
          (Demo.mkWorld Samples.two_tabs [] [] []) written' /\
      (cur TScript = Some (getScriptInfo (AppInfo.getScript written')) ->
       doesItemExistInCurrentApp cur it = Val true)) /\
  Demo.w_script (world (snd (script.add (script.mkProps "Main" "LOAD 3;")
                               (Samples.document Samples.two_tabs)))) = written /\
  doesItemExistInCurrentApp cur it = Val true.
Proof.
  cbv zeta. split; [| split; vm_compute; reflexivity].
  apply (added_section_exists_afterwards
           (script.mkProps "Main" "LOAD 3;") (Samples.document Samples.two_tabs)
           Samples.two_tabs (Demo.mkWorld Samples.two_tabs [] [] [])
           (fun t => match t with
                     | TScript =>
                         Some (getScriptInfo
                                 (AppInfo.getScript
                                    (Samples.two_tabs +:+ TAB_MARKER +:+ "Main (2)"
                                       +:+ CRLF +:+ "LOAD 3;")))
                     | _ => None
                     end)
           (mkItem "Section 1" TScript "Main" (ScriptProps "Main" "LOAD 3;") None
              (Some "LOAD 3;") None)).
  - reflexivity.
  - apply clean_title_decide; reflexivity.
  - apply occurs_false. reflexivity.
  - reflexivity.
  - reflexivity.
Defined.

(** ** Variables: what is sent to the engine *)

Lemma assoc_delete_field (k k' : string) (kv : list (string * json)) :
  Json.assoc k (Json.delete_field k' kv)
  = if String.eqb k' k then None else Json.assoc k kv.
Proof.
  unfold Json.delete_field.
  induction kv as [|[k2 v2] kv IH]; simpl.
  - now destruct (String.eqb k' k).
  - destruct (String.eqb k' k2) eqn:E2; simpl.
    + rewrite IH. apply String.eqb_eq in E2. subst k2.
      destruct (String.eqb k' k) eqn:E; [reflexivity |].
      rewrite String.eqb_sym in E. now rewrite E.
    + rewrite IH. destruct (String.eqb k k2) eqn:E; [| reflexivity].
      apply String.eqb_eq in E. subst k2. now rewrite E2.
Qed.

Lemma set_field_same (k : string) (v : json) (kv : list (string * json)) :
  Json.assoc k kv = Some v -> Json.set_field k v kv = kv.
Proof.
  induction kv as [|[k2 v2] kv IH]; simpl; [discriminate |].
  destruct (String.eqb k k2) eqn:E.
  - apply String.eqb_eq in E. subst k2. now intros [= ->].
  - intros Hk. now rewrite IH.
Qed.

Lemma filter_idem {A} (q : A -> bool) (l : list A) :
  List.filter q (List.filter q l) = List.filter q l.
Proof.
  induction l as [|a l IH]; simpl; [reflexivity |].
  destruct (q a) eqn:E; simpl; [now rewrite E, IH | assumption].
Qed.

Lemma omit_idem (v : jsval) (keys : list string) :
  Json.omit (Some (Json.omit v keys)) keys = Json.omit v keys.
Proof.
  destruct v as [[| | | | |kv]|]; simpl; try reflexivity.
  now rewrite filter_idem.
Qed.

(** Sanitizing what was sanitized changes nothing. *)
Lemma sanitizeObjectData_idem (qData fields : list (string * json)) :
  sanitizeObjectData qData = JObj fields ->
  sanitizeObjectData fields = JObj fields.
Proof.
  unfold sanitizeObjectData. unfold Json.omit at 1 3.
  set (meta := Json.omit (Json.assoc "qMetaDef" qData) PUBLISH_META_FIELDS).
  set (q := fun p : string * json => negb (Js.includes (fst p) ["qMeta"])).
  intros E.
  assert (fields = List.filter q (Json.set_field "qMetaDef" meta qData)) as ->
    by congruence.
  clear E.
  assert (Hmeta : Json.assoc "qMetaDef" (List.filter q (Json.set_field "qMetaDef" meta qData))
                  = Some meta).
  { unfold q. rewrite assoc_without. simpl Js.includes. cbv iota.
    apply assoc_set_field_eq. }
  rewrite Hmeta. unfold meta at 1. rewrite omit_idem. fold meta.
  rewrite (set_field_same _ _ _ Hmeta). now rewrite filter_idem.
Qed.

Section VariableAdd.
Context {World : Type} `{Engine World}.

(** X9. [variable.add] sends the properties it is given without
    [qMeta] and without [qIsScriptCreated], with a [qMetaDef] object that
    has no publish field, and with every other property as it is; what
    it sends is left as it is when sanitized again. *)
Theorem variable_add_sends_other_fields_unchanged
  (props : list (string * json)) (s : State World) :
  exists fields meta,
    variable.add props s = call (CreateVariableEx (JObj fields)) s /\
    Json.assoc "qMeta" fields = None /\
    Json.assoc "qIsScriptCreated" fields = None /\
    Json.assoc "qMetaDef" fields = Some (JObj meta) /\
    (forall k, In k PUBLISH_META_FIELDS -> Json.assoc k meta = None) /\
    (forall k, k <> "qMeta" -> k <> "qIsScriptCreated" -> k <> "qMetaDef" ->
               Json.assoc k fields = Json.assoc k props) /\
    sanitizeObjectData fields = JObj fields.
Proof.
  destruct (sanitizeObjectData_strips (Json.delete_field "qIsScriptCreated" props))
    as (fields & meta & E & Hmeta & Hdef & Hstripped & _).
  exists fields, meta. unfold variable.add. rewrite E.
  assert (Hother : forall k, k <> "qMeta" -> k <> "qMetaDef" ->
            Json.assoc k fields
            = Json.assoc k (Json.delete_field "qIsScriptCreated" props)).
  { intros k H1 H2. unfold sanitizeObjectData, Json.omit at 1 in E.
    assert (fields = List.filter
                       (fun p : string * json => negb (Js.includes (fst p) ["qMeta"]))
                       (Json.set_field "qMetaDef"
                          (Json.omit (Json.assoc "qMetaDef"
                                        (Json.delete_field "qIsScriptCreated" props))
                             PUBLISH_META_FIELDS)
                          (Json.delete_field "qIsScriptCreated" props))) as ->
      by congruence.
    rewrite assoc_without. simpl Js.includes.
    apply String.eqb_neq in H1. rewrite H1. simpl.
    now apply assoc_set_field_ne. }
  repeat split; try assumption.
  - rewrite Hother by discriminate. now rewrite assoc_delete_field.
  - intros k H1 H2 H3. rewrite Hother by assumption.
    rewrite assoc_delete_field.
    apply not_eq_sym, String.eqb_neq in H2. now rewrite H2.
  - eapply sanitizeObjectData_idem. exact E.
Qed.

End VariableAdd.

(** ** Variables: the update *)

Lemma get_prop_obj (kv : list (string * json)) (k : string) :
  Json.get_prop (Some (JObj kv)) k = Val (Json.assoc k kv).
Proof. reflexivity. Qed.

Lemma assoc_assign_eq (k : string) (v : jsval) (kv : list (string * json)) :
  Json.assoc k (assign k v kv) = v.
Proof.
  destruct v as [j|]; simpl.
  - apply assoc_set_field_eq.
  - rewrite assoc_delete_field. now rewrite String.eqb_refl.
Qed.

Lemma assoc_assign_ne (k k' : string) (v : jsval) (kv : list (string * json)) :
  k <> k' -> Json.assoc k (assign k' v kv) = Json.assoc k kv.
Proof.
  intros Hne. destruct v as [j|]; simpl.
  - now apply assoc_set_field_ne.
  - rewrite assoc_delete_field.
    apply not_eq_sym, String.eqb_neq in Hne. now rewrite Hne.
Qed.

Section VariableUpdate.
Context {World : Type} `{Engine World}.

Lemma add_rejected (props : list (string * json)) (s : State World) (e : string) :
  fst (variable.add props s) = Rejected e ->
  log (snd (variable.add props s)) = log s ++ [variable_create props] /\
  fst (engine_call (variable_create props) (world s)) = Rejected e.
Proof.
  unfold variable.add, call. fold (variable_create props).
  destruct (engine_call (variable_create props) (world s)) as [r w]. simpl.
  now intros ->.
Qed.

Ltac close_with_add E :=
  match type of E with
  | variable.add ?P ?S = (Rejected ?e, ?s') =>
      let Hrej := fresh "Hrej" in
      let Hlog := fresh "Hlog" in
      assert (Hrej : fst (variable.add P S) = Rejected e) by (now rewrite E);
      apply add_rejected in Hrej as (Hlog & Hrej);
      rewrite E in Hlog; simpl in Hlog, Hrej;
      rewrite <- ?app_assoc in Hlog; simpl in Hlog;
      match type of Hlog with
      | _ = _ ++ ?l => exists (removelast l)
      end;
      eexists; eexists;
      split; [rewrite Hlog; simpl; reflexivity | split; [reflexivity | exact Hrej]]
  end.

(** X10. [variable.update] is rejected only when the creation it falls
    back to is rejected: whatever fails before (the lookup, the reading
    of the target, its writing), the last call issued is that of
    [variable.add], and the reason of the rejection is the engine's
    answer to it. *)
Theorem variable_update_fails_only_with_add
  (props : list (string * json)) (options : Options) (s : State World) (e : string) :
  fst (variable.update props options s) = Rejected e ->
  exists issued sent w0,
    log (snd (variable.update props options s))
    = log s ++ issued ++ [variable_create sent] /\
    hd_error issued = Some (lookup_call options props) /\
    fst (engine_call (variable_create sent) w0) = Rejected e.
Proof.
  destruct (variable.update props options s) as [r s'] eqn:E. simpl. intros ->.
  unfold variable.update, lookup_call in *.
  destruct (target_given (targetId options)) as [t|];
    unfold call at 1 in E;
    (destruct (engine_call _ (world s)) as [[h|e1|] w1]; simpl in E;
     [ unfold call at 1 in E; simpl in E;
       destruct (engine_call (GetProperties h) w1) as [[targetProps|e2|] w2]; simpl in E;
       [ destruct (variable.inherit props targetProps) as [props'|e3];
         [ unfold catch, call at 1 in E; simpl in E;
           destruct (engine_call (SetProperties h (JObj props')) w2) as [[u|e4|] w3];
           simpl in E; [ discriminate | close_with_add E | discriminate ]
         | close_with_add E ]
       | close_with_add E
       | discriminate ]
     | close_with_add E
     | discriminate ]).
Qed.

(** X11. When the target is found, read and written, [variable.update]
    issues the lookup, [getProperties] and [setProperties] and creates
    nothing; the properties it writes are those it was given, with the
    id of the target in [qInfo.qId] and the script flag of the target,
    as a boolean, in [qIsScriptCreated]. *)
Theorem variable_update_keeps_target_identity
  (props : list (string * json)) (options : Options) (s : State World)
  (h : handle) (qInfo target : list (string * json)) (w1 w2 : World) :
  Json.assoc "qInfo" props = Some (JObj qInfo) ->
  Json.assoc "qInfo" target <> None ->
  Json.assoc "qInfo" target <> Some JNull ->
  lookup_variable options props (world s) = (Resolved h, w1) ->
  engine_call (GetProperties h) w1 = (Resolved (JObj target), w2) ->
  exists written,
    (forall w3,
        engine_call (SetProperties h (JObj written)) w2 = (Resolved tt, w3) ->
        variable.update props options s
        = (Resolved tt,
           mkState (log s ++ [lookup_call options props; GetProperties h;
                              SetProperties h (JObj written)]) w3)) /\
    path2 (Some (JObj written)) "qInfo" "qId" = path2 (Some (JObj target)) "qInfo" "qId" /\
    Json.assoc "qIsScriptCreated" written
    = Some (JBool (truthy_val (Json.assoc "qIsScriptCreated" target))) /\
    (forall k, k <> "qInfo" -> k <> "qIsScriptCreated" ->
               Json.assoc k written = Json.assoc k props) /\
    (forall k, k <> "qId" ->
               path2 (Some (JObj written)) "qInfo" k
               = path2 (Some (JObj props)) "qInfo" k).
Proof.
  intros Hinfo Htinfo Htnull Hlookup Hread.
  assert (Hinherit : exists targetQId,
            Json.get_prop (Json.assoc "qInfo" target) "qId" = Val targetQId /\
            variable.inherit props (JObj target)
            = Val (Json.set_field "qIsScriptCreated"
                     (JBool (truthy_val (Json.assoc "qIsScriptCreated" target)))
                     (Json.set_field "qInfo" (JObj (assign "qId" targetQId qInfo)) props))).
  { unfold variable.inherit. unfold mbind, exn_mbind, exn_bind.
    change (Json.get_prop (Some (JObj target)) "qInfo")
      with (Val (A:=jsval) (Json.assoc "qInfo" target)).
    change (Json.get_prop (Some (JObj target)) "qIsScriptCreated")
      with (Val (A:=jsval) (Json.assoc "qIsScriptCreated" target)).
    cbv beta iota.
    destruct (Json.get_prop (Json.assoc "qInfo" target) "qId") as [targetQId|] eqn:Eq.
    - exists targetQId. split; [reflexivity |]. now rewrite Hinfo.
    - exfalso. unfold Json.get_prop in Eq.
      destruct (Json.assoc "qInfo" target) as [[| | | | |]|]; congruence. }
  destruct Hinherit as (targetQId & HqId & Hinherit).
  eexists. split; [| split; [| split; [| split]]].
  - intros w3 Hwrite. unfold variable.update. unfold lookup_call, lookup_variable in *.
    destruct (target_given (targetId options)) as [t|];
      [rewrite (call_resolved (GetVariableById t) s _ _ Hlookup)
      |rewrite (call_resolved (GetVariableByName (Json.assoc "qName" props)) s _ _ Hlookup)];
      cbv beta iota;
      (erewrite (call_resolved (GetProperties h)) by (simpl; exact Hread));
      cbv beta iota; rewrite Hinherit; unfold catch;
      (erewrite (call_resolved (SetProperties h _)) by (simpl; exact Hwrite));
      simpl; now rewrite <- !app_assoc.
  - unfold path2. rewrite !get_prop_obj.
    rewrite assoc_set_field_ne by discriminate. rewrite assoc_set_field_eq.
    rewrite HqId, get_prop_obj. apply assoc_assign_eq.
  - apply assoc_set_field_eq.
  - intros k H1 H2. now rewrite !assoc_set_field_ne by assumption.
  - intros k Hk. unfold path2. rewrite !get_prop_obj.
    rewrite assoc_set_field_ne by discriminate. rewrite assoc_set_field_eq, Hinfo.
    rewrite !get_prop_obj. now apply assoc_assign_ne.
Qed.

End VariableUpdate.

Lemma variable_update_fails_only_with_add_witness :
  exists issued sent w0,
    log (snd (variable.update Samples.vToday_fields
                (Samples.update_options (Target "stale-var"))
                (Demo.start MoreSamples.with_vToday)))
    = log (Demo.start MoreSamples.with_vToday) ++ issued ++ [variable_create sent] /\
    hd_error issued
    = Some (lookup_call (Samples.update_options (Target "stale-var"))
              Samples.vToday_fields) /\
    fst (engine_call (variable_create sent) w0) = Rejected "Variable already exists".
Proof.
  apply (variable_update_fails_only_with_add Samples.vToday_fields
           (Samples.update_options (Target "stale-var"))
           (Demo.start MoreSamples.with_vToday) "Variable already exists").
  reflexivity.
Defined.

Lemma variable_update_keeps_target_identity_witness :
  exists written,
    (forall w3,
        engine_call (SetProperties "current-var" (JObj written)) MoreSamples.with_vToday
        = (Resolved tt, w3) ->
        variable.update Samples.vToday_fields
          (Samples.update_options (Target "current-var"))
          (Demo.start MoreSamples.with_vToday)
        = (Resolved tt,
           mkState (log (Demo.start MoreSamples.with_vToday) ++
                    [lookup_call (Samples.update_options (Target "current-var"))
                       Samples.vToday_fields;
                     GetProperties "current-var";
                     SetProperties "current-var" (JObj written)]) w3)) /\
    path2 (Some (JObj written)) "qInfo" "qId"
    = path2 (Some (JObj MoreSamples.current_vToday)) "qInfo" "qId" /\
    Json.assoc "qIsScriptCreated" written
    = Some (JBool (truthy_val (Json.assoc "qIsScriptCreated" MoreSamples.current_vToday))) /\
    (forall k, k <> "qInfo" -> k <> "qIsScriptCreated" ->
               Json.assoc k written = Json.assoc k Samples.vToday_fields) /\
    (forall k, k <> "qId" ->
               path2 (Some (JObj written)) "qInfo" k
               = path2 (Some (JObj Samples.vToday_fields)) "qInfo" k).
Proof.
  apply (variable_update_keeps_target_identity Samples.vToday_fields
           (Samples.update_options (Target "current-var"))
           (Demo.start MoreSamples.with_vToday) "current-var"
           [("qId", JStr "source-var"); ("qType", JStr "variable")]
           MoreSamples.current_vToday
           MoreSamples.with_vToday MoreSamples.with_vToday).
  - reflexivity.
  - discriminate.
  - discriminate.
  - reflexivity.
  - reflexivity.
Defined.

(** ** Sheets: requirements first, then one write *)

Section SheetCalls.
Context {World : Type} `{Engine World}.

Ltac next_call P :=
  match goal with
  | |- context [call ?c ?s] =>
      let G := fresh "G" in
      assert (G : grows P s (snd (call c s))) by (apply grows_call; simpl; auto);
      destruct (call c s) as [[?|?|] ?]; cbv beta iota delta [snd] in G
  end.

Ltac chain :=
  repeat match goal with
         | |- grows _ ?a ?a => apply grows_refl
         | H : grows ?P ?a ?b |- grows ?P ?a ?b => exact H
         | H : grows ?P ?a ?b |- grows ?P ?a ?c => apply (grows_trans P a b c H); clear H
         end.

Ltac grown := cbv beta iota delta [snd fst]; try solve [chain].

(** The promise [write] returns is resolved by [setFullPropertyTree]
    or stays unsettled. *)
Lemma write_never_rejects (props : list (string * json)) (options : Options)
  (targetObject : option handle) (sheetObjects : option (list json))
  (s : State World) (e : string) :
  fst (sheet.write props options targetObject sheetObjects s) <> Rejected e.
Proof.
  unfold sheet.write.
  destruct targetObject as [t|]; unfold mbind, promise_mbind, and_then_p, resolve.
  - destruct (call (SetProperties t (JObj props)) s) as [[u| |] s1]; try discriminate.
    destruct (call (GetFullPropertyTree t) s1) as [[tree| |] s2]; try discriminate.
    destruct (sheet.with_children tree sheetObjects) as [tree'|]; try discriminate.
    destruct (call (SetFullPropertyTree t tree') s2) as [[u2| |] s3]; discriminate.
  - destruct (call (CreateObject (JObj (sheet.push_rank options props))) s)
      as [[sheet| |] s1]; try discriminate.
    destruct (call (GetFullPropertyTree sheet) s1) as [[tree| |] s2]; try discriminate.
    destruct (sheet.with_children tree sheetObjects) as [tree'|]; try discriminate.
    destruct (call (SetFullPropertyTree sheet tree') s2) as [[u2| |] s3]; discriminate.
Qed.

(** X12. When [sheet.add] is rejected, no sheet was created and no
    properties or property tree were set: only the calls of its
    requirements were issued (the target object, the app imported from,
    the objects of its cells, the adding of the alternate state). A
    failure after the requirements does not reject the promise. *)
Theorem sheet_add_rejected_wrote_nothing
  (props : list (string * json)) (options : Options) (s : State World) (e : string) :
  fst (sheet.add props options s) = Rejected e ->
  grows is_requirement s (snd (sheet.add props options s)).
Proof.
  destruct (requirements_run is_requirement props options s) as (Hreq & _);
    try (intros; exact I).
  unfold sheet.add.
  destruct (sheet.requirements props options s) as [[[targetObject objects]| |] s'];
    cbv beta iota delta [snd fst] in *.
  - intros Hrej. exfalso.
    exact (write_never_rejects props options targetObject objects s' e Hrej).
  - intros _. exact Hreq.
  - discriminate.
Qed.

(** Whatever [P] allows among the calls of the requirements and of the
    write that is made, [sheet.add] issues only calls that [P] allows. *)
Lemma add_grows_by_target (P : Call -> Prop)
  (props : list (string * json)) (options : Options) (s : State World) :
  (forall t, target_given (targetId options) = Some t -> P (GetObject (Some (JStr t)))) ->
  (forall a, P (OpenApp a)) ->
  (forall a n, P (GetObjectProperties a n)) ->
  (forall n, P (AddAlternateState n)) ->
  (forall h, P (GetFullPropertyTree h)) ->
  (forall h t, P (SetFullPropertyTree h t)) ->
  (forall h p, target_given (targetId options) <> None -> P (SetProperties h p)) ->
  (forall p, target_given (targetId options) = None -> P (CreateObject p)) ->
  grows P s (snd (sheet.add props options s)).
Proof.
  intros Hget Hopen Hprops Hstate Htree Hset Hwrite Hcreate.
  destruct (requirements_run P props options s Hget Hopen Hprops Hstate)
    as (Hreq & Htarget).
  unfold sheet.add.
  destruct (sheet.requirements props options s) as [[[targetObject objects]| |] s'];
    cbv beta iota delta [snd fst] in *; try exact Hreq.
  eapply grows_trans; [exact Hreq |].
  specialize (Htarget targetObject objects eq_refl).
  unfold sheet.write.
  destruct targetObject as [t|]; unfold mbind, promise_mbind, and_then_p.
  - assert (G : grows P s' (snd (call (SetProperties t (JObj props)) s'))).
    { apply grows_call, Hwrite. intros Hnone. apply Htarget in Hnone. discriminate. }
    destruct (call (SetProperties t (JObj props)) s') as [[u1| |] s4];
      cbv beta iota delta [snd] in G; unfold resolve; grown.
    next_call P; grown.
    destruct (sheet.with_children _ _); grown.
    next_call P; grown.
  - assert (G : grows P s'
                  (snd (call (CreateObject (JObj (sheet.push_rank options props))) s'))).
    { apply grows_call, Hcreate. now apply Htarget. }
    destruct (call (CreateObject (JObj (sheet.push_rank options props))) s')
      as [[sheet| |] s4]; cbv beta iota delta [snd] in G; grown.
    next_call P; grown.
    destruct (sheet.with_children _ _); grown.
    next_call P; grown.
Qed.

(** X13. [sheet.update] creates no object: with a target id it asks for
    the object of that id and gives it the new properties; without one
    it is rejected before any call is issued. [sheet.add] without a
    target id asks for no object of the current app and sets the
    properties of none: what it writes it writes to the object it
    creates. *)
Theorem sheet_update_writes_to_target_only
  (props : list (string * json)) (options : Options) (s : State World) :
  (forall t, target_given (targetId options) = Some t ->
             grows (addresses_target t) s (snd (sheet.update props options s))) /\
  (target_given (targetId options) = None ->
   sheet.update props options s
   = (Rejected "Sheet not updated: missing id of the target sheet", s) /\
   grows touches_no_object s (snd (sheet.add props options s))).
Proof.
  split.
  - intros t Ht. unfold sheet.update. rewrite Ht.
    apply add_grows_by_target; simpl; try tauto.
    + intros t' Ht'. congruence.
    + intros p Hnone. congruence.
  - intros Hnone. split.
    + unfold sheet.update. now rewrite Hnone.
    + apply add_grows_by_target; simpl; try tauto.
      intros t Ht. congruence.
Qed.

End SheetCalls.

Lemma sheet_add_rejected_wrote_nothing_witness :
  grows is_requirement (Samples.document EmptyString)
    (snd (sheet.add (Samples.sheet_fields "Overview" 0)
            (Samples.update_options (Target "missing"))
            (Samples.document EmptyString))).
Proof.
  apply (sheet_add_rejected_wrote_nothing (Samples.sheet_fields "Overview" 0)
           (Samples.update_options (Target "missing"))
           (Samples.document EmptyString) "Object not found").
  reflexivity.
Defined.

(** ** Sheets: the objects of the cells *)

Section SheetCells.
Context {World : Type} `{Engine World}.

Lemma load_cells_snoc (app : handle) (cells : list json) (cell : json) :
  sheet.load_cells app (cells ++ [cell])
  = (loaded ← sheet.load_cells app cells;
     name ← of_exn (Json.get_prop (Some cell) "name");
     a ← call (GetObjectProperties app name);
     resolve (loaded ++ [sheet.tree_of a])).
Proof. unfold sheet.load_cells. now rewrite fold_left_app. Qed.

(** A chain that has failed or waits stays as it is, whatever cells
    follow. *)
Lemma load_cells_stops (app : handle) (pre post : list json) (s : State World) :
  (forall l, fst (sheet.load_cells app pre s) <> Resolved l) ->
  sheet.load_cells app (pre ++ post) s = sheet.load_cells app pre s.
Proof.
  intros Hfail. induction post as [|cell post IH] using rev_ind.
  - now rewrite app_nil_r.
  - rewrite app_assoc, load_cells_snoc.
    unfold mbind, promise_mbind, and_then_p. rewrite IH.
    destruct (sheet.load_cells app pre s) as [[l|e|] s1]; [| reflexivity | reflexivity].
    now destruct (Hfail l).
Qed.

(** X14. The objects of the cells of a sheet are asked for one after the
    other, in the order of the cells, each by the name of its cell. The
    object of a cell is asked for exactly when the chain of the cells
    before it is resolved and the name of the cell can be read; a chain
    that is not resolved, a request having failed or waiting for its
    answer, stays as it is whatever cells follow, so that the first
    failure ends the requests. When the whole chain is resolved, there
    is one object per cell. *)
Theorem load_cells_requests_each_cell_in_order
  (app : handle) (cells : list json) (s : State World) :
  exists k,
    k <= length cells /\
    log (snd (sheet.load_cells app cells s))
    = log s ++ map (fun cell => GetObjectProperties app (cell_name cell)) (take k cells) /\
    (forall j cell,
        cells !! j = Some cell ->
        (j < k <->
         (exists l, fst (sheet.load_cells app (take j cells) s) = Resolved l) /\
         Json.get_prop (Some cell) "name" = Val (cell_name cell))) /\
    (forall j,
        (forall l, fst (sheet.load_cells app (take j cells) s) <> Resolved l) ->
        sheet.load_cells app cells s = sheet.load_cells app (take j cells) s) /\
    (forall l, fst (sheet.load_cells app cells s) = Resolved l ->
               k = length cells /\ length l = length cells).
Proof.
  assert (Hstops : forall cs j,
            (forall l, fst (sheet.load_cells app (take j cs) s) <> Resolved l) ->
            sheet.load_cells app cs s = sheet.load_cells app (take j cs) s).
  { intros cs j Hfail. rewrite <- (take_drop j cs) at 1. now apply load_cells_stops. }
  induction cells as [|cell cells IH] using rev_ind.
  - exists 0. simpl. rewrite app_nil_r.
    split; [lia |]. split; [reflexivity |]. split; [now intros j cell |].
    split; [apply Hstops |]. intros l [= <-]. now split.
  - destruct IH as (k & Hk & Hlog & Hiff & _ & Hres).
    assert (Hbefore : forall j c, j < length cells ->
              (cells ++ [cell]) !! j = Some c -> cells !! j = Some c).
    { intros j c Hj. now rewrite lookup_app_l. }
    assert (Hlast : forall j c, (cells ++ [cell]) !! j = Some c ->
              j < length cells \/ (j = length cells /\ c = cell)).
    { intros j c Hj. destruct (decide (j < length cells)) as [|Hge]; [now left | right].
      rewrite lookup_app_r in Hj by lia.
      destruct (j - length cells) as [|n] eqn:E; simpl in Hj; [| now destruct n].
      injection Hj as <-. split; [lia | reflexivity]. }
    assert (Hwhole : take (length cells) (cells ++ [cell]) = cells)
      by apply take_app_length.
    assert (Hgoal : forall k',
              k' <= length (cells ++ [cell]) ->
              log (snd (sheet.load_cells app (cells ++ [cell]) s))
              = log s ++ map (fun c => GetObjectProperties app (cell_name c))
                             (take k' (cells ++ [cell])) ->
              (forall j c, (cells ++ [cell]) !! j = Some c ->
                 (j < k' <->
                  (exists l, fst (sheet.load_cells app (take j (cells ++ [cell])) s)
                             = Resolved l) /\
                  Json.get_prop (Some c) "name" = Val (cell_name c))) ->
              (forall l, fst (sheet.load_cells app (cells ++ [cell]) s) = Resolved l ->
                         k' = length (cells ++ [cell]) /\
                         length l = length (cells ++ [cell])) ->
              exists k0,
                k0 <= length (cells ++ [cell]) /\
                log (snd (sheet.load_cells app (cells ++ [cell]) s))
                = log s ++ map (fun c => GetObjectProperties app (cell_name c))
                               (take k0 (cells ++ [cell])) /\
                (forall j c, (cells ++ [cell]) !! j = Some c ->
                   (j < k0 <->
                    (exists l, fst (sheet.load_cells app (take j (cells ++ [cell])) s)
                               = Resolved l) /\
                    Json.get_prop (Some c) "name" = Val (cell_name c))) /\
                (forall j,
                   (forall l, fst (sheet.load_cells app (take j (cells ++ [cell])) s)
                              <> Resolved l) ->
                   sheet.load_cells app (cells ++ [cell]) s
                   = sheet.load_cells app (take j (cells ++ [cell])) s) /\
                (forall l, fst (sheet.load_cells app (cells ++ [cell]) s) = Resolved l ->
                           k0 = length (cells ++ [cell]) /\
                           length l = length (cells ++ [cell]))).
    { intros k' H1 H2 H3 H4. exists k'.
      split; [exact H1 |]. split; [exact H2 |]. split; [exact H3 |].
      split; [intros j; apply Hstops | exact H4]. }
    (* the cells before the last are judged as before *)
    assert (Hold : forall k',
              k' = k \/ (k = length cells /\ k' = S (length cells)) ->
              forall j c, j < length cells -> (cells ++ [cell]) !! j = Some c ->
                (j < k' <->
                 (exists l, fst (sheet.load_cells app (take j (cells ++ [cell])) s)
                            = Resolved l) /\
                 Json.get_prop (Some c) "name" = Val (cell_name c))).
    { intros k' Hk' j c Hj Hc.
      rewrite take_app_le by lia.
      rewrite <- (Hiff j c (Hbefore j c Hj Hc)). lia. }
    pose proof (load_cells_snoc app cells cell) as Esnoc.
    apply (f_equal (fun p => p s)) in Esnoc.
    unfold mbind, promise_mbind, and_then_p in Esnoc.
    destruct (sheet.load_cells app cells s) as [[loaded|e|] s1] eqn:Ecells;
      simpl in Hlog, Hres.
    + destruct (Hres loaded eq_refl) as (-> & Hlen).
      rewrite firstn_all in Hlog.
      destruct (Json.get_prop (Some cell) "name") as [name|e] eqn:Ename;
        unfold of_exn, resolve, reject in Esnoc.
      * unfold call in Esnoc.
        destruct (engine_call (GetObjectProperties app name) (world s1))
          as [r w] eqn:Ecall.
        apply (Hgoal (S (length cells))).
        -- rewrite length_app. simpl. lia.
        -- rewrite Esnoc.
           replace (S (length cells)) with (length (cells ++ [cell]))
             by (rewrite length_app; simpl; lia).
           rewrite firstn_all, map_app. simpl.
           unfold cell_name. rewrite Ename.
           destruct r; simpl; now rewrite Hlog, <- app_assoc.
        -- intros j c Hc. destruct (Hlast j c Hc) as [Hj | (-> & ->)].
           ++ apply (Hold (S (length cells)));
                [right; split; reflexivity | assumption | assumption].
           ++ rewrite Hwhole, Ecells. unfold cell_name. rewrite Ename.
              split; [intros _; split; [eauto | reflexivity] | lia].
        -- intros l. rewrite Esnoc, length_app. simpl.
           destruct r; simpl; try discriminate.
           intros [= <-]. rewrite length_app. simpl. lia.
      * apply (Hgoal (length cells)).
        -- rewrite length_app. simpl. lia.
        -- rewrite Esnoc, Hwhole. exact Hlog.
        -- intros j c Hc. destruct (Hlast j c Hc) as [Hj | (-> & ->)].
           ++ apply (Hold (length cells)); [now left | assumption | assumption].
           ++ rewrite Ename. split; [lia | intros (_ & [=])].
        -- intros l. rewrite Esnoc. simpl. discriminate.
    + apply (Hgoal k).
      * rewrite length_app. lia.
      * rewrite Esnoc. simpl. rewrite take_app_le by assumption. exact Hlog.
      * intros j c Hc. destruct (Hlast j c Hc) as [Hj | (-> & ->)].
        -- apply (Hold k); [now left | assumption | assumption].
        -- rewrite Hwhole, Ecells. split; [lia | intros ((l & [=]) & _)].
      * intros l. rewrite Esnoc. simpl. discriminate.
    + apply (Hgoal k).
      * rewrite length_app. lia.
      * rewrite Esnoc. simpl. rewrite take_app_le by assumption. exact Hlog.
      * intros j c Hc. destruct (Hlast j c Hc) as [Hj | (-> & ->)].
        -- apply (Hold k); [now left | assumption | assumption].
        -- rewrite Hwhole, Ecells. split; [lia | intros ((l & [=]) & _)].
      * intros l. rewrite Esnoc. simpl. discriminate.
Qed.

End SheetCells.

(** ** Sheets: the rank of what is imported in one session *)

Section SheetRanks.
Context {World : Type} `{Engine World}.

Ltac next_call P :=
  match goal with
  | |- context [call ?c ?s] =>
      let G := fresh "G" in
      assert (G : grows P s (snd (call c s))) by (apply grows_call; simpl; auto);
      destruct (call c s) as [[?|?|] ?]; cbv beta iota delta [snd] in G
  end.

Lemma grows_weaken (P Q : Call -> Prop) (s s' : State World) :
  (forall c, P c -> Q c) -> grows P s s' -> grows Q s s'.
Proof.
  intros HPQ (l & E & Hall). exists l. split; [assumption |].
  eapply List.Forall_impl; [| exact Hall]. exact HPQ.
Qed.

Lemma max_rank_bounds (sheets : list Item) (a m : Z) :
  Forall integer_rank sheets ->
  (0 <= a < 2 ^ 53)%Z ->
  fold_left (fun x b => math_max x (to_number (prop b "rank"))) sheets (Some a) = Some m ->
  (a <= m < 2 ^ 53)%Z.
Proof.
  intros Hall. revert a. induction Hall as [|b sheets (r & Hr & Hb) _ IH]; intros a Ha.
  - simpl. intros [= <-]. lia.
  - cbn [fold_left]. rewrite Hr. cbn [to_number math_max]. intros Hm.
    apply IH in Hm; lia.
Qed.

(** X15. The sheets of the current app have integer ranks, of a size at
    which the addition of the code, on doubles, is exact. While these
    sheets are the ones that were read, with a greatest rank [m] other
    than 0, every sheet that is imported is created with the rank
    [m + 1], whatever its rank in the app it comes from and whatever was
    imported before: sheets imported one after the other share their
    rank. The rank [m] is positive and below [2 ^ 53]. *)
Theorem imported_sheets_share_rank
  (cur : CurrAppObjects) (appDataId : string) (it : PreparedItem)
  (kv : list (string * json)) (s : State World) (sheets : list Item) (m : Z) :
  type (item it) = TSheet ->
  properties (item it) = ObjectProps kv ->
  cur TSheet = Some sheets ->
  Forall integer_rank sheets ->
  currentSheetsMaxRank cur = Val (Some m) ->
  m <> 0%Z ->
  (0 < m < 2 ^ 53)%Z /\
  grows (creates_with_rank (m + 1)) s (state_after (importItem cur appDataId it s)).
Proof.
  intros Et Ep Hsheets Hranks Hmax Hm. split.
  - unfold currentSheetsMaxRank in Hmax. rewrite Hsheets in Hmax.
    injection Hmax as Hmax.
    apply (max_rank_bounds sheets 0 m Hranks) in Hmax; lia.
  - unfold importItem, importSingleItem. rewrite Et, Hmax, Ep.
    unfold mbind, exn_mbind, exn_bind. cbv beta iota. simpl importer_add.
    destruct (negb (imported (status it)) && negb (importFailed (status it))
              && importable (status it)); [| apply grows_refl].
    set (options := {| appId := Some appDataId; targetId := NoTarget;
                       sheetsMaxRank := Some m; sheetObjects := None;
                       importAlternateStates := None |}).
    assert (Hgrows : grows (creates_with_rank (m + 1)) s (snd (sheet.add kv options s))).
    { eapply grows_weaken; [| apply (add_grows kv options s)].
      intros c Hc. destruct c; simpl in *; try exact I.
      subst props. now apply push_rank_after_last. }
    destruct (sheet.add kv options s) as [[u|e|] s']; exact Hgrows.
Qed.

End SheetRanks.

Lemma imported_sheets_share_rank_witness :
  (0 < 2 < 2 ^ 53)%Z /\
  grows (creates_with_rank (2 + 1)) (Samples.document EmptyString)
    (state_after
       (importItem
          (Samples.with_sheets [Samples.a_sheet "A" 0; Samples.a_sheet "B" 1;
                                Samples.a_sheet "C" 2])
          "source-app" (Samples.new_sheet "Overview" 7)
          (Samples.document EmptyString))).
Proof.
  apply (imported_sheets_share_rank
           (Samples.with_sheets [Samples.a_sheet "A" 0; Samples.a_sheet "B" 1;
                                 Samples.a_sheet "C" 2])
           "source-app" (Samples.new_sheet "Overview" 7)
           (Samples.sheet_fields "Overview" 7) (Samples.document EmptyString)
           [Samples.a_sheet "A" 0; Samples.a_sheet "B" 1; Samples.a_sheet "C" 2] 2).
  - reflexivity.
  - reflexivity.
  - reflexivity.
  - repeat constructor; eexists; (split; [reflexivity | lia]).
  - reflexivity.
  - discriminate.
Defined.

(** ** Running an import or an update once *)

Section RunOnce.
Context {World : Type} `{Engine World}.

Lemma import_guard (it : PreparedItem) :
  negb (imported (status it)) && negb (importFailed (status it)) && importable (status it)
  = negb (import_settled it).
Proof.
  unfold import_settled.
  now destruct (imported (status it)), (importFailed (status it)), (importable (status it)).
Qed.

Lemma update_guard (it : PreparedItem) :
  negb (updated (status it)) && negb (updateFailed (status it)) && updatable (status it)
  = negb (update_settled it).
Proof.
  unfold update_settled.
  now destruct (updated (status it)), (updateFailed (status it)), (updatable (status it)).
Qed.

Lemma importSingleItem_skip (it : PreparedItem) (importer : exn (Promise World unit))
  (s : State World) :
  import_settled it = true ->
  importSingleItem it importer s = mkRun (Returned (Resolved tt)) it s.
Proof. intros Hs. unfold importSingleItem. now rewrite import_guard, Hs. Qed.

Lemma updateSingleItem_skip (it : PreparedItem) (updater : exn (Promise World unit))
  (s : State World) :
  update_settled it = true ->
  updateSingleItem it updater s = mkRun (Returned (Resolved tt)) it s.
Proof. intros Hs. unfold updateSingleItem. now rewrite update_guard, Hs. Qed.

Lemma importSingleItem_done (it : PreparedItem) (importer : exn (Promise World unit))
  (s : State World) :
  completed (importSingleItem it importer s) = Returned (Resolved tt) ->
  import_settled (item_after (importSingleItem it importer s)) = true.
Proof.
  unfold importSingleItem. rewrite import_guard.
  destruct (import_settled it) eqn:Hs; simpl; [now intros _ |].
  destruct importer as [p|e]; simpl; [| discriminate].
  destruct (p s) as [[u|e|] s']; simpl; try discriminate; intros _;
    unfold import_settled; simpl.
  - reflexivity.
  - now rewrite orb_true_r.
Qed.

Lemma updateSingleItem_done (it : PreparedItem) (updater : exn (Promise World unit))
  (s : State World) :
  completed (updateSingleItem it updater s) = Returned (Resolved tt) ->
  update_settled (item_after (updateSingleItem it updater s)) = true.
Proof.
  unfold updateSingleItem. rewrite update_guard.
  destruct (update_settled it) eqn:Hs; simpl; [now intros _ |].
  destruct updater as [p|e]; simpl; [| discriminate].
  destruct (p s) as [[u|e|] s']; simpl; try discriminate; intros _;
    unfold update_settled; simpl.
  - reflexivity.
  - now rewrite orb_true_r.
Qed.

(** X16. An item is imported once and updated once: when [importItem]
    has resolved, the item is imported, or marked as failed, or was not
    importable, and every further [importItem] of it resolves at once,
    calls nothing and leaves the item as it is; and so for [updateItem]. *)
Theorem item_is_processed_once
  (cur : CurrAppObjects) (appDataId : string) (it : PreparedItem) (s : State World) :
  (completed (importItem cur appDataId it s) = Returned (Resolved tt) ->
   let it' := item_after (importItem cur appDataId it s) in
   import_settled it' = true /\
   forall cur' appDataId' s',
     importItem cur' appDataId' it' s' = mkRun (Returned (Resolved tt)) it' s') /\
  (completed (updateItem appDataId it s) = Returned (Resolved tt) ->
   let it' := item_after (updateItem appDataId it s) in
   update_settled it' = true /\
   forall appDataId' s',
     updateItem appDataId' it' s' = mkRun (Returned (Resolved tt)) it' s').
Proof.
  split.
  - intros Hdone it'. unfold importItem in *.
    apply importSingleItem_done in Hdone. split; [exact Hdone |].
    intros cur' appDataId' s'. now apply importSingleItem_skip.
  - intros Hdone it'. unfold updateItem in *.
    apply updateSingleItem_done in Hdone. split; [exact Hdone |].
    intros appDataId' s'. now apply updateSingleItem_skip.
Qed.

End RunOnce.

(** ** Importing the items of an asset in one go *)

Section BatchProperties.
Context {World : Type} `{Engine World}.

Lemma same_but_import_marks_refl (it : PreparedItem) : same_but_import_marks it it.
Proof. repeat split. Qed.

Lemma importSingleItem_marks (it : PreparedItem) (importer : exn (Promise World unit))
  (s : State World) :
  same_but_import_marks it (item_after (importSingleItem it importer s)).
Proof.
  unfold importSingleItem.
  destruct (_ && _); [| apply same_but_import_marks_refl].
  destruct importer as [p|e]; [| repeat split].
  destruct (p s) as [[u|e|] s']; repeat split.
Qed.

Lemma marks_unchanged (chosen : PreparedItem -> bool) (l : list PreparedItem) :
  Forall2 (fun it it' => same_but_import_marks it it' /\
                         (chosen it = false -> it' = it)) l l.
Proof.
  induction l; constructor; [| assumption].
  split; [apply same_but_import_marks_refl | reflexivity].
Qed.

Lemma import_chain_marks (cur : CurrAppObjects) (appDataId : string)
  (chosen : PreparedItem -> bool) (items : list PreparedItem) (s : State World) :
  Forall2 (fun it it' => same_but_import_marks it it' /\
                         (chosen it = false -> it' = it))
          items (snd (fst (import_chain cur appDataId chosen items s))).
Proof.
  pose proof (marks_unchanged chosen) as Hrest.
  revert s. induction items as [|it rest IH]; intros s; simpl; [constructor |].
  destruct (chosen it) eqn:Hc.
  - set (r := importItem cur appDataId it s).
    assert (Hit : same_but_import_marks it (item_after r) /\
                  (chosen it = false -> item_after r = it))
      by (split; [apply importSingleItem_marks | congruence]).
    destruct (completed r) as [[u|e|]|e]; simpl.
    + specialize (IH (state_after r)).
      destruct (import_chain cur appDataId chosen rest (state_after r)) as [[o rest'] s'].
      cbn [fst snd] in *. now constructor.
    + constructor; [assumption | apply Hrest].
    + constructor; [assumption | apply Hrest].
    + constructor; [assumption | apply Hrest].
  - specialize (IH s).
    destruct (import_chain cur appDataId chosen rest s) as [[o rest'] s'].
    cbn [fst snd] in *. constructor; [| assumption].
    split; [apply same_but_import_marks_refl | reflexivity].
Qed.

(** X17. [importMultipleItems] leaves the list of items as long as it
    was and every item in its place. It leaves alone an item that is not
    chosen (when some items are selected, the items that are not). Of
    any item it keeps the id, the type, the label, the search terms, the
    code and the tags, the id of the update target, and every mark of
    the status but the import marks [exists], [importing], [imported]
    and [importFailed]; the properties, which the importers write into,
    are not compared. *)
Theorem batch_import_changes_import_marks_only
  (cur : CurrAppObjects) (appDataId : string) (st : Scope.Status)
  (selectedItems : list PreparedItem) (s : State World) :
  Forall2 (fun it it' =>
             same_but_import_marks it it' /\
             (chosen_of (getSelectedCount selectedItems) it = false -> it' = it))
          selectedItems
          (batch_items (importMultipleItems cur appDataId st selectedItems s)).
Proof.
  unfold importMultipleItems.
  destruct (Scope.imported st); simpl.
  - apply marks_unchanged.
  - pose proof (import_chain_marks cur appDataId
                  (chosen_of (getSelectedCount selectedItems)) selectedItems s) as Hm.
    destruct (import_chain _ _ _ selectedItems s) as [[o items'] s'].
    simpl in Hm. now destruct o.
Qed.

Lemma importItem_done (cur : CurrAppObjects) (appDataId : string)
  (it : PreparedItem) (s : State World) :
  completed (importItem cur appDataId it s) = Returned (Resolved tt) ->
  import_settled (item_after (importItem cur appDataId it s)) = true.
Proof. unfold importItem. apply importSingleItem_done. Qed.

Lemma importItem_skip (cur : CurrAppObjects) (appDataId : string)
  (it : PreparedItem) (s : State World) :
  import_settled it = true ->
  importItem cur appDataId it s = mkRun (Returned (Resolved tt)) it s.
Proof. unfold importItem. apply importSingleItem_skip. Qed.

Lemma import_chain_settles (cur : CurrAppObjects) (appDataId : string)
  (chosen : PreparedItem -> bool) (items : list PreparedItem) (s : State World) :
  fst (fst (import_chain cur appDataId chosen items s)) = Resolved tt ->
  Forall (fun it' => chosen it' = true -> import_settled it' = true)
         (snd (fst (import_chain cur appDataId chosen items s))).
Proof.
  revert s. induction items as [|it rest IH]; intros s; simpl; [constructor |].
  destruct (chosen it) eqn:Hc.
  - pose proof (importItem_done cur appDataId it s) as Hdone.
    set (r := importItem cur appDataId it s) in *.
    destruct (completed r) as [[[]|e|]|e] eqn:Ec; simpl; try discriminate.
    specialize (IH (state_after r)).
    destruct (import_chain cur appDataId chosen rest _) as [[o rest'] s'].
    cbn [fst snd] in *. intros ->. constructor; [| now apply IH].
    intros _. now apply Hdone.
  - specialize (IH s).
    destruct (import_chain cur appDataId chosen rest s) as [[o rest'] s'].
    cbn [fst snd] in *. intros ->. constructor; [| now apply IH]. congruence.
Qed.

Lemma import_chain_skips (cur : CurrAppObjects) (appDataId : string)
  (chosen : PreparedItem -> bool) (items : list PreparedItem) (s : State World) :
  Forall (fun it => chosen it = true -> import_settled it = true) items ->
  import_chain cur appDataId chosen items s = (Resolved tt, items, s).
Proof.
  induction 1 as [|it rest Hit _ IH]; simpl; [reflexivity |].
  destruct (chosen it).
  - rewrite importItem_skip by now apply Hit.
    simpl. now rewrite IH.
  - now rewrite IH.
Qed.

Lemma getSelectedCount_marks (items items' : list PreparedItem) :
  Forall2 (fun it it' => selected (status it') = selected (status it)) items items' ->
  getSelectedCount items' = getSelectedCount items.
Proof.
  unfold getSelectedCount. induction 1 as [|it it' l l' Hsel _ IH]; simpl; [reflexivity |].
  rewrite Hsel. destruct (selected (status it)); simpl; now rewrite IH.
Qed.

(** X18. When [importMultipleItems] has marked the list as imported,
    every item it chose is imported, or marked as failed, or was not
    importable: a rejected import does not end the run. Called again
    after the mark of the list is cleared, it calls the engine no more
    and leaves every item as it is. *)
Theorem batch_import_settles_every_chosen_item
  (cur : CurrAppObjects) (appDataId : string) (st : Scope.Status)
  (selectedItems : list PreparedItem) (s : State World) :
  Scope.imported st = false ->
  Scope.imported (batch_status (importMultipleItems cur appDataId st selectedItems s))
  = true ->
  let b := importMultipleItems cur appDataId st selectedItems s in
  Forall (fun it' => chosen_of (getSelectedCount selectedItems) it' = true ->
                     import_settled it' = true) (batch_items b) /\
  forall cur' appDataId' s',
    importMultipleItems cur' appDataId' st (batch_items b) s'
    = mkBatchRun (Some (Resolved tt)) (batch_status b) (batch_items b) s'.
Proof.
  intros Hfresh Hdone b.
  unfold b, importMultipleItems in *. rewrite Hfresh in *.
  set (n := getSelectedCount selectedItems) in *.
  pose proof (import_chain_marks cur appDataId (chosen_of n) selectedItems s) as Hmarks.
  pose proof (import_chain_settles cur appDataId (chosen_of n) selectedItems s)
    as Hsettled.
  destruct (import_chain cur appDataId (chosen_of n) selectedItems s)
    as [[o items'] s1].
  simpl in Hmarks, Hsettled.
  destruct o as [[]|e|]; simpl in Hdone; try congruence.
  specialize (Hsettled eq_refl). simpl. split; [exact Hsettled |].
  intros cur' appDataId' s'.
  assert (Hn : getSelectedCount items' = n).
  { apply getSelectedCount_marks.
    eapply Forall2_impl; [exact Hmarks |]. now intros it it' ((_ & _ & _ & _ & _ & _ & _ & Hsel & _) & _). }
  rewrite Hn, import_chain_skips by exact Hsettled. reflexivity.
Qed.

End BatchProperties.

Lemma batch_import_settles_every_chosen_item_witness :
  let cur := Samples.with_sheets [Samples.a_sheet "Intro" 1] in
  let st := Scope.mkStatus false false false false in
  let items := [with_status Samples.vToday (Samples.idle false true false);
                Samples.new_sheet "Overview" 0] in
  let b := importMultipleItems cur "source-app" st items
             (Demo.start MoreSamples.with_vToday) in
  (Forall (fun it' => chosen_of (getSelectedCount items) it' = true ->
                      import_settled it' = true) (batch_items b) /\
   forall cur' appDataId' s',
     importMultipleItems cur' appDataId' st (batch_items b) s'
     = mkBatchRun (Some (Resolved tt)) (batch_status b) (batch_items b) s') /\
  map (fun it => (importFailed (status it), imported (status it))) (batch_items b)
  = [(true, false); (false, true)].
Proof.
  cbv zeta. split; [| vm_compute; reflexivity].
  apply (batch_import_settles_every_chosen_item
           (Samples.with_sheets [Samples.a_sheet "Intro" 1]) "source-app"
           (Scope.mkStatus false false false false)
           [with_status Samples.vToday (Samples.idle false true false);
            Samples.new_sheet "Overview" 0]
           (Demo.start MoreSamples.with_vToday)).
  - reflexivity.
  - vm_compute. reflexivity.
Defined.

(** ** The cache of opened apps: one connection per app *)

Section AppCacheInvariant.
Import AppCache.
Variable currApp : App.

(** X19. Whatever calls of [openApp] were made and whatever promises
    settled since the cache was empty, no app but one of the identifier
    [__proto__] was opened twice by [qlik.openApp], every app that was
    opened, but for that one, has its promise in the cache, and every
    entry of the cache is a promise that was made, that of the app of
    its key. *)
Theorem openApp_opens_each_app_once (c : Cache) :
  steps currApp empty c ->
  (forall k, k <> "__proto__" -> count_occ string_dec (opened c) k <= 1) /\
  (forall k, In k (opened c) -> k <> "__proto__" -> is_Some (apps c !! k)) /\
  (forall k r, apps c !! k = Some r ->
               exists p, heap c !! r = Some p /\ promise_for k p).
Proof.
  intros Hsteps.
  destruct (steps_invariant currApp empty c Hsteps empty_invariant)
    as (Hentries & Hopened & Honce).
  repeat split; assumption.
Qed.

End AppCacheInvariant.

Lemma openApp_opens_each_app_once_witness :
  let currApp := AppCache.mkApp "current-app" in
  let c := snd (AppCache.openApp currApp (AppCache.AppId "source-app")
                  (snd (AppCache.openApp currApp (AppCache.AppId "source-app")
                          AppCache.empty))) in
  ((forall k, k <> "__proto__" -> count_occ string_dec (AppCache.opened c) k <= 1) /\
   (forall k, In k (AppCache.opened c) -> k <> "__proto__" ->
              is_Some (AppCache.apps c !! k)) /\
   (forall k r, AppCache.apps c !! k = Some r ->
                exists p, AppCache.heap c !! r = Some p /\ promise_for k p)) /\
  AppCache.opened c = ["source-app"].
Proof.
  cbv zeta. split; [| reflexivity].
  apply (openApp_opens_each_app_once (AppCache.mkApp "current-app")).
  eapply AppCache.steps_cons; [apply AppCache.step_open |].
  eapply AppCache.steps_cons; [apply AppCache.step_open |].
  apply AppCache.steps_refl.
Defined.

(** ** Values of a field in a set expression: what is returned *)

Section SetAnalysisValues.
Import SetAnalysis.

Lemma consumed_app (x y : string) : consumed (x +:+ y) y = x.
Proof.
  unfold consumed. rewrite append_length.
  replace (String.length x + String.length y - String.length y) with (String.length x)
    by lia.
  induction x as [|a x IH]; simpl; [now destruct y | now rewrite IH].
Qed.

Lemma plus_not_stops {R : Type} (c : ascii) (rest : string) (k1 : string -> option R) :
  plus_not c (String c rest) k1 = None.
Proof. simpl. now rewrite Ascii.eqb_refl. Qed.

(** [[^c]+] before a [c] reads up to that [c], when what follows matches. *)
Lemma plus_not_exact {R : Type} (c : ascii) (values rest : string)
  (k1 : string -> option R) :
  values <> EmptyString ->
  (forall x, In x (list_ascii_of_string values) -> x <> c) ->
  k1 (String c rest) <> None ->
  plus_not c (values +:+ String c rest) k1 = k1 (String c rest).
Proof.
  intros Hne Hno Hk. induction values as [|a values IH]; [contradiction |].
  change (String a values +:+ String c rest) with (String a (values +:+ String c rest)).
  cbn [plus_not].
  destruct (Ascii.eqb a c) eqn:Ea.
  - apply Ascii.eqb_eq in Ea. exfalso. apply (Hno a); [now left | assumption].
  - destruct values as [|b values].
    + change (EmptyString +:+ String c rest) with (String c rest).
      rewrite plus_not_stops. reflexivity.
    + rewrite IH; [| discriminate | intros x Hx; apply Hno; now right].
      destruct (k1 (String c rest)); [reflexivity | contradiction].
Qed.

Lemma closing_matches {R : Type} (closing after : string)
  (caps : list (option string)) (k : string -> list (option string) -> option R) :
  closing = "}>" \/ closing = "}," ->
  k after caps <> None ->
  match_re (Alt (Lit "}>") (Lit "},")) (closing +:+ after) caps k = k after caps.
Proof.
  intros [-> | ->] Hk; cbn [match_re].
  - change (Js.starts_with "}>" ("}>" +:+ after)) with true. cbv iota.
    change (drop_chars (String.length "}>") ("}>" +:+ after)) with after.
    destruct (k after caps); [reflexivity | contradiction].
  - change (Js.starts_with "}>" ("}," +:+ after)) with false. cbv iota.
    change (Js.starts_with "}," ("}," +:+ after)) with true. cbv iota.
    change (drop_chars (String.length "},") ("}," +:+ after)) with after.
    reflexivity.
Qed.

Lemma opening_matches {R : Type} (opening rest : string)
  (caps : list (option string)) (k : string -> list (option string) -> option R) :
  opening = "<" \/ opening = "," ->
  k rest caps <> None ->
  match_re (Alt (Lit "<") (Lit ",")) (opening +:+ rest) caps k = k rest caps.
Proof.
  intros [-> | ->] Hk; cbn [match_re].
  - change (Js.starts_with "<" ("<" +:+ rest)) with true. cbv iota.
    change (drop_chars (String.length "<") ("<" +:+ rest)) with rest.
    destruct (k rest caps); [reflexivity | contradiction].
  - change (Js.starts_with "<" ("," +:+ rest)) with false. cbv iota.
    change (Js.starts_with "," ("," +:+ rest)) with true. cbv iota.
    change (drop_chars (String.length ",") ("," +:+ rest)) with rest.
    reflexivity.
Qed.

Lemma closing_starts (closing : string) :
  closing = "}>" \/ closing = "}," -> exists tail, closing = String "}" tail.
Proof. intros [-> | ->]; eauto. Qed.

(** The match of the pattern at the start of a selection block. *)
Lemma match_block (fieldName opening values closing after s0 : string) :
  selection_block fieldName opening values closing ->
  exists m,
    match_re (literal_pattern fieldName)
      (opening +:+ fieldName +:+ "={" +:+ values +:+ closing +:+ after)
      (replicate 4 None) (finish_match s0) = Some m /\
    m !! 2 = Some (Some values).
Proof.
  intros (Hopen & Hclose & Hne & Hno).
  destruct (closing_starts closing Hclose) as (tail & Etail).
  unfold literal_pattern. rewrite seq_eq, group_eq.
  set (k1 := fun (s' : string) (caps' : list (option string)) => _).
  assert (Hk1 : exists m,
            k1 (fieldName +:+ "={" +:+ values +:+ closing +:+ after)
               (replicate 4 None) = Some m /\
            m !! 2 = Some (Some values)).
  { unfold k1.
    rewrite seq_eq, lit_complete, seq_eq, lit_complete, seq_eq, group_eq, plus_eq.
    set (k2 := fun s' : string => _).
    assert (Hk2 : exists m, k2 (closing +:+ after) = Some m /\
                            m !! 2 = Some (Some values)).
    { unfold k2. rewrite group_eq.
      rewrite closing_matches by (assumption || (unfold finish_match; discriminate)).
      unfold finish_match. eexists. split; [reflexivity |].
      rewrite !consumed_app. reflexivity. }
    destruct Hk2 as (m & Hm & Hg).
    subst closing.
    change (String "}" tail +:+ after) with (String "}" (tail +:+ after)) in *.
    rewrite plus_not_exact; try assumption; [eauto | congruence]. }
  destruct Hk1 as (m & Hm & Hg).
  rewrite opening_matches; [eauto | assumption | congruence].
Qed.

Lemma no_start_no_match (fieldName s s0 : string) :
  selection_starts fieldName s = false ->
  match_re (literal_pattern fieldName) s (replicate 4 None) (finish_match s0) = None.
Proof.
  intros Hs.
  destruct (match_re (literal_pattern fieldName) s (replicate 4 None) (finish_match s0))
    as [m|] eqn:E; [| reflexivity].
  apply match_here_sound in E as ((o & v & c & t & -> & ([-> | ->] & _)) & _);
    unfold selection_starts in Hs; apply orb_false_iff in Hs as (H1 & H2).
  - assert (E : "<" +:+ fieldName +:+ "={" +:+ v +:+ c +:+ t
                = ("<" +:+ fieldName +:+ "={") +:+ (v +:+ c +:+ t))
      by (simpl; now rewrite !append_assoc).
    rewrite E, starts_with_app in H1. discriminate.
  - assert (E : "," +:+ fieldName +:+ "={" +:+ v +:+ c +:+ t
                = ("," +:+ fieldName +:+ "={") +:+ (v +:+ c +:+ t))
      by (simpl; now rewrite !append_assoc).
    rewrite E, starts_with_app in H2. discriminate.
Qed.

Lemma js_match_first_block (fieldName before block : string) (m : list (option string)) :
  starts_within fieldName before block = false ->
  (forall s0, exists m',
      match_re (literal_pattern fieldName) block (replicate 4 None) (finish_match s0) = Some m' /\
      m' !! 2 = m !! 2) ->
  exists m', js_match 3 (literal_pattern fieldName) (before +:+ block) = Some m' /\
             m' !! 2 = m !! 2.
Proof.
  intros Hwithin Hblock. induction before as [|a before IH].
  - change (EmptyString +:+ block) with block.
    destruct (Hblock block) as (m' & Hm' & Hg).
    exists m'. split; [| assumption].
    destruct block as [|x b]; cbn [js_match];
      match goal with
      | |- context [match_re ?r ?i ?cs ?k] => change k with (finish_match i)
      end; now rewrite Hm'.
  - cbn [starts_within] in Hwithin. apply orb_false_iff in Hwithin as (Hhere & Hlater).
    change (String a before +:+ block) with (String a (before +:+ block)) in *.
    cbn [js_match].
    match goal with
    | |- context [match_re ?r ?i ?cs ?k] => change k with (finish_match i)
    end.
    rewrite (no_start_no_match fieldName _ _ Hhere). now apply IH.
Qed.

End SetAnalysisValues.

Section SetAnalysisResult.
Import SetAnalysis.

(** X20. For a set expression in which a selection block of the field
    is found, and no text by which such a block starts is found before
    it, [getValuesFromSetAnalysis] returns the values of that block: the
    text between the braces, split at the commas, each piece without the
    single quotes around it. *)
Theorem getValuesFromSetAnalysis_reads_first_block
  (fieldName before opening values closing after : string) :
  plain fieldName = true ->
  selection_block fieldName opening values closing ->
  starts_within fieldName before
    (opening +:+ fieldName +:+ "={" +:+ values +:+ closing +:+ after) = false ->
  getValuesFromSetAnalysis
    (before +:+ opening +:+ fieldName +:+ "={" +:+ values +:+ closing +:+ after)
    fieldName
  = Val (map strip_quotes (Js.split "," values)).
Proof.
  intros Hplain Hblock Hwithin. unfold getValuesFromSetAnalysis.
  rewrite (js_match_plain fieldName _ Hplain).
  destruct (js_match_first_block fieldName before
              (opening +:+ fieldName +:+ "={" +:+ values +:+ closing +:+ after)
              [None; None; Some values] Hwithin) as (m & -> & Hg).
  - intros s0. destruct (match_block fieldName opening values closing after s0 Hblock)
      as (m' & Hm' & Hg'). eauto.
  - simpl in Hg. now rewrite Hg.
Qed.

End SetAnalysisResult.

Lemma getValuesFromSetAnalysis_reads_first_block_witness :
  SetAnalysis.getValuesFromSetAnalysis
    ("{$<Year={'2019','2020'}" +:+ "," +:+ "Month" +:+ "={" +:+ "Jan,'Feb'" +:+ "}>"
       +:+ "}") "Month"
  = Val (map SetAnalysis.strip_quotes (Js.split "," "Jan,'Feb'")).
Proof.
  apply (getValuesFromSetAnalysis_reads_first_block
           "Month" "{$<Year={'2019','2020'}" "," "Jan,'Feb'" "}>" "}").
  - reflexivity.
  - repeat split; [now right | now left | discriminate |].
    simpl. intros x Hx. intuition (subst x; discriminate).
  - reflexivity.
Defined.

(** ** Values of a field in a set expression: reading what was listed *)

Lemma join_concat (sep x : string) (l : list string) :
  Js.join sep (x :: l) = x +:+ Js.concat_all (map (String.append sep) l).
Proof.
  revert x. induction l as [|y l IH]; intros x.
  - simpl. now rewrite append_nil_r.
  - rewrite join_cons by discriminate. rewrite IH.
    cbn [map]. now rewrite concat_all_cons, append_assoc.
Qed.

Lemma comma_border_free (y rest : string) :
  y <> EmptyString -> String.length y < String.length "," ->
  Js.starts_with "," (y +:+ "," +:+ rest) = false.
Proof. intros Hy Hlen. destruct y; [contradiction | simpl in Hlen; lia]. Qed.

(** What was joined by commas is split again into its pieces, when no
    piece has a comma. *)
Lemma split_join_comma (x : string) (l : list string) :
  Forall (no_occurrence ",") (x :: l) ->
  Js.split "," (Js.join "," (x :: l)) = x :: l.
Proof.
  intros Hall. inversion Hall as [|? ? Hx Hl]; subst.
  rewrite join_concat. unfold Js.split.
  rewrite (split_go_piece "," comma_border_free x EmptyString _ Hx).
  - now rewrite (split_go_pieces "," ltac:(discriminate) comma_border_free).
  - destruct l as [|y l]; [now left | right].
    cbn [map]. rewrite concat_all_cons, append_assoc. eauto.
Qed.

Lemma strip_quoted (v : string) :
  (forall x, In x (list_ascii_of_string v) -> SetAnalysis.is_line_end x = false) ->
  SetAnalysis.strip_quotes (quoted v) = v.
Proof.
  intros Hv. unfold quoted, SetAnalysis.strip_quotes.
  change ("'" +:+ v +:+ "'") with (String "'" (v +:+ "'")).
  change (Ascii.eqb "'" "'") with true. cbv iota.
  assert (Hinner : SetAnalysis.before_last_quote (v +:+ "'") = Some v).
  { induction v as [|c v IH]; [reflexivity |].
    change (String c v +:+ "'") with (String c (v +:+ "'")).
    cbn [SetAnalysis.before_last_quote].
    rewrite (Hv c) by now left.
    rewrite IH by (intros x Hx; apply Hv; now right).
    destruct (v +:+ "'") eqn:E; [now destruct v | reflexivity]. }
  now rewrite Hinner.
Qed.

Lemma listable_no_comma (v : string) : listable v -> no_occurrence "," (quoted v).
Proof.
  intros Hv. apply (no_occurrence_other_chars "," "," EmptyString); [reflexivity |].
  unfold quoted. simpl. intros x [<- | Hx]; [discriminate |].
  assert (Hin : In x (list_ascii_of_string v) \/ x = "'"%char).
  { revert Hx. clear. induction v as [|b v IH]; simpl.
    - intros [<- | []]. now right.
    - intros [<- | Hx]; [left; now left |].
      destruct (IH Hx) as [H1 | H1]; [left; now right | now right]. }
  destruct Hin as [Hin | ->]; [now apply Hv | discriminate].
Qed.

Lemma quoted_list_chars (v : string) (l : list string) (x : ascii) :
  Forall listable (v :: l) ->
  In x (list_ascii_of_string (Js.join "," (map quoted (v :: l)))) ->
  x <> "}"%char.
Proof.
  assert (Happ : forall a b : string,
            In x (list_ascii_of_string (a +:+ b)) ->
            In x (list_ascii_of_string a) \/ In x (list_ascii_of_string b)).
  { induction a as [|c a IH]; simpl; [now right |].
    intros b [<- | Hx]; [left; now left |].
    destruct (IH b Hx); [left; now right | now right]. }
  assert (Hquoted : forall w, listable w ->
            In x (list_ascii_of_string (quoted w)) -> x <> "}"%char).
  { intros w Hw. unfold quoted. simpl. intros [<- | Hx]; [discriminate |].
    apply Happ in Hx as [Hx | [<- | []]]; [now apply Hw | discriminate]. }
  revert v. induction l as [|w l IH]; intros v Hall Hx;
    inversion Hall as [|? ? Hv Hl]; subst.
  - simpl in Hx. now apply (Hquoted v).
  - cbn [map] in Hx. rewrite join_cons in Hx by discriminate.
    apply Happ in Hx as [Hx | Hx]; [now apply (Hquoted v) |].
    simpl in Hx. destruct Hx as [<- | Hx]; [discriminate |].
    now apply (IH w).
Qed.

Section SetAnalysisRoundTrip.
Import SetAnalysis.

(** X21. For a field name that is plain text to the regular expression,
    and a set expression in which no text by which a selection block of
    the field starts is found before the block: the values listed in
    the block, each between single quotes and separated by commas, are
    the values [getValuesFromSetAnalysis] returns, in their order. The
    values have no comma, no closing brace and no line end, and there is
    at least one. *)
Theorem getValuesFromSetAnalysis_returns_listed_values
  (fieldName before opening closing after v : string) (vs : list string) :
  plain fieldName = true ->
  opening = "<" \/ opening = "," ->
  closing = "}>" \/ closing = "}," ->
  Forall listable (v :: vs) ->
  starts_within fieldName before
    (opening +:+ fieldName +:+ "={" +:+ Js.join "," (map quoted (v :: vs))
       +:+ closing +:+ after) = false ->
  getValuesFromSetAnalysis
    (before +:+ opening +:+ fieldName +:+ "={" +:+ Js.join "," (map quoted (v :: vs))
       +:+ closing +:+ after)
    fieldName
  = Val (v :: vs).
Proof.
  intros Hplain Hopen Hclose Hall Hwithin.
  set (values := Js.join "," (map quoted (v :: vs))) in *.
  assert (Hblock : selection_block fieldName opening values closing).
  { repeat split; try assumption.
    - unfold values. cbn [map]. destruct vs; discriminate.
    - intros x Hx. now apply (quoted_list_chars v vs x Hall). }
  pose proof (js_match_first_block fieldName before
                (opening +:+ fieldName +:+ "={" +:+ values +:+ closing +:+ after)
                [None; None; Some values] Hwithin) as Hmatch.
  unfold getValuesFromSetAnalysis. rewrite (js_match_plain fieldName _ Hplain).
  destruct Hmatch as (m & -> & Hg).
  { intros s0. destruct (match_block fieldName opening values closing after s0 Hblock)
      as (m' & Hm' & Hg'). eauto. }
  simpl in Hg. rewrite Hg. f_equal. unfold values. cbn [map].
  change (quoted v :: map quoted vs) with (map quoted (v :: vs)).
  cbn [map]. rewrite split_join_comma.
  - change (quoted v :: map quoted vs) with (map quoted (v :: vs)).
    rewrite map_map. rewrite <- (map_id (v :: vs)) at 2.
    apply map_ext_in. intros w Hw. apply strip_quoted.
    intros x Hx. apply (proj1 (List.Forall_forall _ _) Hall w Hw x Hx).
  - change (quoted v :: map quoted vs) with (map quoted (v :: vs)).
    apply List.Forall_forall. intros q Hq.
    apply List.in_map_iff in Hq as (w & <- & Hw).
    apply listable_no_comma. exact (proj1 (List.Forall_forall _ _) Hall w Hw).
Qed.

End SetAnalysisRoundTrip.

Lemma getValuesFromSetAnalysis_returns_listed_values_witness :
  SetAnalysis.getValuesFromSetAnalysis
    ("{$" +:+ "<" +:+ "Year" +:+ "={" +:+ Js.join "," (map quoted ["2019"; "2020"])
       +:+ "}," +:+ "Month={Jan}>}") "Year"
  = Val ["2019"; "2020"].
Proof.
  apply (getValuesFromSetAnalysis_returns_listed_values
           "Year" "{$" "<" "}," "Month={Jan}>}" "2019" ["2020"]).
  - reflexivity.
  - now left.
  - now right.
  - repeat constructor; simpl in *; intuition (subst x; try discriminate; reflexivity).
  - reflexivity.
Defined.

(** ** Master visualizations: the update *)

Section MasterObjectUpdate.
Context {World : Type} `{Engine World}.

(** X22. [masterObject.update] with a target id writes to the target the
    property tree the origin app has for the item, not the properties it
    was given: the tree is written as it was read, children included,
    but for [qProperty.qInfo.qId], which is the id of the target. The
    target's own properties are not read. *)
Theorem masterObject_update_writes_origin_tree
  (props : list (string * json)) (options : Options) (s : State World)
  (t : string) (target origin : handle)
  (ownInfo tree qProperty qInfo : list (string * json)) (w1 w2 w3 : World) :
  target_given (targetId options) = Some t ->
  Json.assoc "qInfo" props = Some (JObj ownInfo) ->
  engine_call (GetObject (Some (JStr t))) (world s) = (Resolved target, w1) ->
  engine_call (OpenApp (appId options)) w1 = (Resolved origin, w2) ->
  engine_call (OriginGetFullPropertyTree origin (Json.assoc "qId" ownInfo)) w2
  = (Resolved (JObj tree), w3) ->
  Json.assoc "qProperty" tree = Some (JObj qProperty) ->
  Json.assoc "qInfo" qProperty = Some (JObj qInfo) ->
  exists update written,
    masterObject.update props options = Val update /\
    (forall w4,
        engine_call (SetFullPropertyTree target (JObj written)) w3 = (Resolved tt, w4) ->
        update s
        = (Resolved tt,
           mkState (log s ++ [GetObject (Some (JStr t));
                              OpenApp (appId options);
                              OriginGetFullPropertyTree origin (Json.assoc "qId" ownInfo);
                              SetFullPropertyTree target (JObj written)]) w4)) /\
    path3 (Some (JObj written)) "qProperty" "qInfo" "qId" = Some (JStr t) /\
    (forall k, k <> "qProperty" -> Json.assoc k written = Json.assoc k tree) /\
    (forall k, k <> "qInfo" ->
               path2 (Some (JObj written)) "qProperty" k
               = path2 (Some (JObj tree)) "qProperty" k) /\
    (forall k, k <> "qId" ->
               path3 (Some (JObj written)) "qProperty" "qInfo" k
               = path3 (Some (JObj tree)) "qProperty" "qInfo" k).
Proof.
  intros Ht Hown Hget Hopen Hread HqProperty HqInfo.
  assert (Htarget : targetId options = Target t).
  { unfold target_given in Ht. destruct (targetId options) as [| |t']; try discriminate.
    destruct (Js.truthy t'); congruence. }
  eexists. eexists. split; [| split; [| split; [| split; [| split]]]].
  - unfold masterObject.update, target_or_own_id. rewrite Ht.
    unfold mbind, exn_mbind, exn_bind. reflexivity.
  - intros w4 Hwrite. cbv beta.
    unfold mbind, promise_mbind, and_then_p.
    rewrite (call_resolved (GetObject (Some (JStr t))) s _ _ Hget). cbv beta iota.
    erewrite (call_resolved (OpenApp (appId options))) by (simpl; exact Hopen).
    cbv beta iota. rewrite Hown, get_prop_obj. unfold of_exn at 1, resolve. cbv beta iota.
    erewrite (call_resolved (OriginGetFullPropertyTree origin (Json.assoc "qId" ownInfo)))
      by (simpl; exact Hread).
    cbv beta iota. unfold masterObject.keep_target_id. rewrite HqProperty, HqInfo, Htarget.
    unfold of_exn, resolve. cbv beta iota.
    erewrite (call_resolved (SetFullPropertyTree target _)) by (simpl; exact Hwrite).
    simpl. now rewrite <- !app_assoc.
  - unfold path3, path2. rewrite !get_prop_obj, assoc_set_field_eq.
    rewrite get_prop_obj, assoc_set_field_eq, get_prop_obj.
    apply assoc_set_field_eq.
  - intros k Hk. now apply assoc_set_field_ne.
  - intros k Hk. unfold path2. rewrite !get_prop_obj, assoc_set_field_eq, HqProperty.
    rewrite !get_prop_obj. now apply assoc_set_field_ne.
  - intros k Hk. unfold path3, path2.
    rewrite !get_prop_obj, assoc_set_field_eq, HqProperty.
    rewrite !get_prop_obj, assoc_set_field_eq, HqInfo. rewrite !get_prop_obj.
    simpl assign. now apply assoc_set_field_ne.
Qed.

End MasterObjectUpdate.

Lemma masterObject_update_writes_origin_tree_witness :
  exists update written,
    masterObject.update MoreSamples.source_kpi
      (Samples.update_options (Target "current-kpi")) = Val update /\
    (forall w4,
        engine_call (SetFullPropertyTree "current-kpi" (JObj written)) MoreSamples.with_kpi
        = (Resolved tt, w4) ->
        update (Demo.start MoreSamples.with_kpi)
        = (Resolved tt,
           mkState (log (Demo.start MoreSamples.with_kpi) ++
                    [GetObject (Some (JStr "current-kpi"));
                     OpenApp (appId (Samples.update_options (Target "current-kpi")));
                     OriginGetFullPropertyTree "source-app"
                       (Json.assoc "qId" [("qId", JStr "source-kpi");
                                          ("qType", JStr "masterobject")]);
                     SetFullPropertyTree "current-kpi" (JObj written)]) w4)) /\
    path3 (Some (JObj written)) "qProperty" "qInfo" "qId" = Some (JStr "current-kpi") /\
    (forall k, k <> "qProperty" ->
               Json.assoc k written
               = Json.assoc k [("qProperty", JObj [("qInfo", JObj [("qId", JStr "source-kpi")])]);
                               ("qChildren", JArr [])]) /\
    (forall k, k <> "qInfo" ->
               path2 (Some (JObj written)) "qProperty" k
               = path2 (Some (JObj [("qProperty",
                                     JObj [("qInfo", JObj [("qId", JStr "source-kpi")])]);
                                    ("qChildren", JArr [])])) "qProperty" k) /\
    (forall k, k <> "qId" ->
               path3 (Some (JObj written)) "qProperty" "qInfo" k
               = path3 (Some (JObj [("qProperty",
                                     JObj [("qInfo", JObj [("qId", JStr "source-kpi")])]);
                                    ("qChildren", JArr [])])) "qProperty" "qInfo" k).
Proof.
  apply (masterObject_update_writes_origin_tree MoreSamples.source_kpi
           (Samples.update_options (Target "current-kpi"))
           (Demo.start MoreSamples.with_kpi) "current-kpi" "current-kpi" "source-app"
           [("qId", JStr "source-kpi"); ("qType", JStr "masterobject")]
           [("qProperty", JObj [("qInfo", JObj [("qId", JStr "source-kpi")])]);
            ("qChildren", JArr [])]
           [("qInfo", JObj [("qId", JStr "source-kpi")])]
           [("qId", JStr "source-kpi")]
           MoreSamples.with_kpi MoreSamples.with_kpi MoreSamples.with_kpi);
    reflexivity.
Defined.

(** ** Updates go to the target found at reconciliation *)

Section UpdateTarget.
Context {World : Type} `{Engine World}.

Ltac next_call P :=
  match goal with
  | |- context [call ?c ?s] =>
      let G := fresh "G" in
      assert (G : grows P s (snd (call c s))) by (apply grows_call; simpl; auto);
      destruct (call c s) as [[?|?|] ?]; cbv beta iota delta [snd] in G
  end.

Ltac chain :=
  repeat match goal with
         | |- grows _ ?a ?a => apply grows_refl
         | H : grows ?P ?a ?b |- grows ?P ?a ?b => exact H
         | H : grows ?P ?a ?b |- grows ?P ?a ?c => apply (grows_trans P a b c H); clear H
         end.



End UpdateTarget.

